(** * Overlay transform and edit-history engine of [script.js]

    A shallow embedding of the front-end logic of the image overlay web
    app: the grey-key alpha extraction, the transform record, the pointer
    geometry (hit classification, drag, resize, crop) and the undo/redo
    history, followed by the properties the specification states about
    them.

    Conventions of the embedding.
    - A JavaScript number is an exact real ([R]); rounding of IEEE doubles
      is outside this part of the model.  [Math.cos], [Math.sin] and
      [Math.PI] are [cos], [sin] and [PI] of the real-number library.  The
      one function whose control flow depends on rounding, [normalizeAngle],
      is embedded a second time over binary64 in [Module Binary64].
    - An image is its decoded raster (width, height, RGBA bytes); a data
      URL is a lossless encoding of a raster, so loading the URL of an
      image gives the image back.  A data URL is never the empty string:
      the truthiness test [if (prev.overlayData)] is the test against
      [null].
    - Image decoding completes at once: an [onload] callback runs as part
      of the handler that sets [src].
    - Rendering ([drawScene]) and widget state (button labels, disabled
      flags, pointer capture) read the state and never write it; they are
      left out. *)

From Stdlib Require Import Reals Lra Lia ZArith QArith Qround List Bool Floats.
From Stdlib Require String Ascii DecimalString DecimalNat.
From Equations Require Import Equations.
Import ListNotations.

Set Implicit Arguments.

(* ===================================================================== *)
(** * Rasters and the canvas *)
(* ===================================================================== *)

(** An [HTMLImageElement] after decoding, or the [ImageData] of a canvas:
    [data] holds four bytes (R, G, B, A) per pixel, row by row. *)
Record Image : Type := mkImage {
  width : Z;
  height : Z;
  data : list Z
}.

(** [img.src] for a keyed or cropped overlay: the data URL of the raster. *)
Inductive DataURL : Type :=
| PngOf (i : Image).

Definition src (i : Image) : DataURL := PngOf i.

(** [const img = new Image(); img.onload = ...; img.src = url]: the image
    handed to [onload]. *)
Definition loadImage (u : DataURL) : Image :=
  match u with PngOf i => i end.

Definition zrange (n : Z) : list Z := map Z.of_nat (seq 0 (Z.to_nat n)).

(** The pixel of [img] at column [x], row [y]; transparent black outside
    the image. *)
Definition pixelAt (img : Image) (x y : Z) : list Z :=
  if ((0 <=? x) && (x <? width img) && (0 <=? y) && (y <? height img))%Z
  then
    let off := Z.to_nat (4 * (y * width img + x)) in
    [nth off (data img) 0%Z; nth (off + 1) (data img) 0%Z;
     nth (off + 2) (data img) 0%Z; nth (off + 3) (data img) 0%Z]
  else [0; 0; 0; 0]%Z.

(** The bytes of a [cw] x [ch] canvas whose pixel at [(i, j)] is [p i j]. *)
Definition canvasData (p : Z -> Z -> list Z) (cw ch : Z) : list Z :=
  flat_map (fun j => flat_map (fun i => p i j) (zrange cw)) (zrange ch).

(** A fresh (transparent) canvas of size [cw] x [ch] after
    [ctx.drawImage(img, dx, dy)]. *)
Definition drawImage (img : Image) (dx dy : Z) (cw ch : Z) : Image :=
  mkImage cw ch (canvasData (fun i j => pixelAt img (i - dx) (j - dy)) cw ch).

(* ===================================================================== *)
(** * Grey-key extraction ([applyGreyKey]) *)
(* ===================================================================== *)

Module ChromaKey.

Local Open Scope Z_scope.

Definition keyR : Z := 128.
Definition keyG : Z := 128.
Definition keyB : Z := 128.
Definition tol : Z := 22.
Definition ramp : Z := if tol <? 254 then 2 else 1.

(** [Math.round]: the nearest integer, halves towards plus infinity. *)
Definition mathRound (q : Q) : Z := Qfloor (q + (1 # 2)).

(** A store into a [Uint8ClampedArray] of an integral value. *)
Definition toUint8Clamped (a : Z) : Z := Z.max 0 (Z.min 255 a).

(** The body of the loop that fills the lookup table. *)
Definition lutEntry (d : Z) : Z :=
  if d <=? tol then 0
  else if d >=? tol + ramp then 255
  else mathRound (inject_Z (255 * (d - tol)) / inject_Z ramp).

Definition lut : list Z :=
  map (fun d => toUint8Clamped (lutEntry d)) (zrange 256).

Definition maxDiff (r g b : Z) : Z :=
  Z.max (Z.abs (r - keyR)) (Z.max (Z.abs (g - keyG)) (Z.abs (b - keyB))).

(** [for (let i = 0; i < data.length; i += 4) data[i + 3] = lut[maxDiff]]. *)
Fixpoint keyLoop (d : list Z) : list Z :=
  match d with
  | r :: g :: b :: a :: rest =>
      r :: g :: b :: nth (Z.to_nat (maxDiff r g b)) lut 0 :: keyLoop rest
  | _ => d
  end.

(** The image handed to the callback of [applyGreyKey]. *)
Definition applyGreyKey (img : Image) : Image :=
  let tmpCanvas := drawImage img 0 0 (width img) (height img) in
  let imageData := data tmpCanvas in
  loadImage (src (mkImage (width tmpCanvas) (height tmpCanvas) (keyLoop imageData))).

(** The ramp as the specification words it: tolerance 22, ramp width 2. *)
Definition rampAlpha (d : Z) : Z :=
  if d <=? 22 then 0
  else if 24 <=? d then 255
  else mathRound (inject_Z 255 * inject_Z (d - 22) / inject_Z 2).

(** Every byte of the raster is a byte. *)
Definition bytes_ok (img : Image) : Prop :=
  Forall (fun b => 0 <= b <= 255) (data img).

End ChromaKey.

(* ===================================================================== *)
(** * Global state *)
(* ===================================================================== *)

Local Open Scope R_scope.

(** [overlayState]. *)
Record TransformState : Type := mkTransform {
  x : R;
  y : R;
  scale : R;
  angle : R;
  flipH : bool;
  flipV : bool
}.

(** An entry of [undoStack] or [redoStack]: either
    [{ overlayData, originalData, state }] taken from a loaded overlay, or
    [{ overlayData: null, originalData: null, state: null }]. *)
Inductive Snapshot : Type :=
| Snap (overlayData originalData : DataURL) (state : TransformState)
| NullSnap.

(** The script's global variables that the handlers write. *)
Record State : Type := mkState {
  bgImg : option Image;
  overlayImg : option Image;
  overlayOriginalImg : option Image;
  overlayState : TransformState;
  dragging : bool;
  dragData : R * R;              (* localX, localY *)
  resizing : bool;
  resizeHandle : Z;
  cropMode : bool;
  cropping : bool;
  cropStart : option (R * R);
  cropEnd : option (R * R);
  undoStack : list Snapshot;     (* most recent last *)
  redoStack : list Snapshot
}.

Definition initialState : State :=
  mkState None None None (mkTransform 0 0 1 0 false false)
          false (0, 0) false (-1) false false None None [] [].

(** ** Assignments *)

Definition set_x (v : R) (t : TransformState) : TransformState :=
  mkTransform v (y t) (scale t) (angle t) (flipH t) (flipV t).
Definition set_y (v : R) (t : TransformState) : TransformState :=
  mkTransform (x t) v (scale t) (angle t) (flipH t) (flipV t).
Definition set_scale (v : R) (t : TransformState) : TransformState :=
  mkTransform (x t) (y t) v (angle t) (flipH t) (flipV t).
Definition set_angle (v : R) (t : TransformState) : TransformState :=
  mkTransform (x t) (y t) (scale t) v (flipH t) (flipV t).
Definition set_flipH (v : bool) (t : TransformState) : TransformState :=
  mkTransform (x t) (y t) (scale t) (angle t) v (flipV t).
Definition set_flipV (v : bool) (t : TransformState) : TransformState :=
  mkTransform (x t) (y t) (scale t) (angle t) (flipH t) v.

Definition set_bgImg (v : option Image) (s : State) : State :=
  mkState v (overlayImg s) (overlayOriginalImg s) (overlayState s)
          (dragging s) (dragData s) (resizing s) (resizeHandle s) (cropMode s)
          (cropping s) (cropStart s) (cropEnd s) (undoStack s) (redoStack s).
Definition set_overlayImg (v : option Image) (s : State) : State :=
  mkState (bgImg s) v (overlayOriginalImg s) (overlayState s)
          (dragging s) (dragData s) (resizing s) (resizeHandle s) (cropMode s)
          (cropping s) (cropStart s) (cropEnd s) (undoStack s) (redoStack s).
Definition set_overlayOriginalImg (v : option Image) (s : State) : State :=
  mkState (bgImg s) (overlayImg s) v (overlayState s)
          (dragging s) (dragData s) (resizing s) (resizeHandle s) (cropMode s)
          (cropping s) (cropStart s) (cropEnd s) (undoStack s) (redoStack s).
Definition set_overlayState (v : TransformState) (s : State) : State :=
  mkState (bgImg s) (overlayImg s) (overlayOriginalImg s) v
          (dragging s) (dragData s) (resizing s) (resizeHandle s) (cropMode s)
          (cropping s) (cropStart s) (cropEnd s) (undoStack s) (redoStack s).
Definition set_dragging (v : bool) (s : State) : State :=
  mkState (bgImg s) (overlayImg s) (overlayOriginalImg s) (overlayState s)
          v (dragData s) (resizing s) (resizeHandle s) (cropMode s)
          (cropping s) (cropStart s) (cropEnd s) (undoStack s) (redoStack s).
Definition set_dragData (v : R * R) (s : State) : State :=
  mkState (bgImg s) (overlayImg s) (overlayOriginalImg s) (overlayState s)
          (dragging s) v (resizing s) (resizeHandle s) (cropMode s)
          (cropping s) (cropStart s) (cropEnd s) (undoStack s) (redoStack s).
Definition set_resizing (v : bool) (s : State) : State :=
  mkState (bgImg s) (overlayImg s) (overlayOriginalImg s) (overlayState s)
          (dragging s) (dragData s) v (resizeHandle s) (cropMode s)
          (cropping s) (cropStart s) (cropEnd s) (undoStack s) (redoStack s).
Definition set_resizeHandle (v : Z) (s : State) : State :=
  mkState (bgImg s) (overlayImg s) (overlayOriginalImg s) (overlayState s)
          (dragging s) (dragData s) (resizing s) v (cropMode s)
          (cropping s) (cropStart s) (cropEnd s) (undoStack s) (redoStack s).
Definition set_cropMode (v : bool) (s : State) : State :=
  mkState (bgImg s) (overlayImg s) (overlayOriginalImg s) (overlayState s)
          (dragging s) (dragData s) (resizing s) (resizeHandle s) v
          (cropping s) (cropStart s) (cropEnd s) (undoStack s) (redoStack s).
Definition set_cropping (v : bool) (s : State) : State :=
  mkState (bgImg s) (overlayImg s) (overlayOriginalImg s) (overlayState s)
          (dragging s) (dragData s) (resizing s) (resizeHandle s) (cropMode s)
          v (cropStart s) (cropEnd s) (undoStack s) (redoStack s).
Definition set_cropStart (v : option (R * R)) (s : State) : State :=
  mkState (bgImg s) (overlayImg s) (overlayOriginalImg s) (overlayState s)
          (dragging s) (dragData s) (resizing s) (resizeHandle s) (cropMode s)
          (cropping s) v (cropEnd s) (undoStack s) (redoStack s).
Definition set_cropEnd (v : option (R * R)) (s : State) : State :=
  mkState (bgImg s) (overlayImg s) (overlayOriginalImg s) (overlayState s)
          (dragging s) (dragData s) (resizing s) (resizeHandle s) (cropMode s)
          (cropping s) (cropStart s) v (undoStack s) (redoStack s).
Definition set_undoStack (v : list Snapshot) (s : State) : State :=
  mkState (bgImg s) (overlayImg s) (overlayOriginalImg s) (overlayState s)
          (dragging s) (dragData s) (resizing s) (resizeHandle s) (cropMode s)
          (cropping s) (cropStart s) (cropEnd s) v (redoStack s).
Definition set_redoStack (v : list Snapshot) (s : State) : State :=
  mkState (bgImg s) (overlayImg s) (overlayOriginalImg s) (overlayState s)
          (dragging s) (dragData s) (resizing s) (resizeHandle s) (cropMode s)
          (cropping s) (cropStart s) (cropEnd s) (undoStack s) v.

(** [overlayState.f = v]. *)
Definition assign (f : TransformState -> TransformState) (s : State) : State :=
  set_overlayState (f (overlayState s)) s.

(** The four statements that leave crop mode. *)
Definition resetCrop (s : State) : State :=
  set_cropEnd None (set_cropStart None (set_cropping false (set_cropMode false s))).

(** ** Arrays used as stacks *)

Definition push {A : Type} (s : list A) (a : A) : list A := s ++ [a].

(** [s.pop()] on a non-empty array: the last element and the shortened
    array; [None] on the empty array (where JavaScript gives [undefined]). *)
Definition pop {A : Type} (s : list A) : option (A * list A) :=
  match rev s with
  | [] => None
  | a :: r => Some (a, rev r)
  end.

(** ** Tests on numbers *)

Definition Rleb (a b : R) : bool := if Rle_dec a b then true else false.
Definition Rltb (a b : R) : bool := if Rlt_dec a b then true else false.
Definition Rgtb (a b : R) : bool := Rltb b a.

(** [Math.floor] and [Math.ceil]. *)
Definition mathFloor (r : R) : Z := (up r - 1)%Z.
Definition mathCeil (r : R) : Z := (- mathFloor (- r))%Z.

(** [Math.max(lo, Math.min(v, hi))], the clamp the handlers write. *)
Definition clamp (lo hi v : R) : R := Rmax lo (Rmin v hi).

(* ===================================================================== *)
(** * History ([saveState], [undo], [redo]) *)
(* ===================================================================== *)

Definition saveState (s : State) : State :=
  match overlayImg s, overlayOriginalImg s with
  | Some ov, Some orig =>
      let stateCopy := overlayState s in
      let overlayData := src ov in
      let originalData := src orig in
      set_redoStack []
        (set_undoStack (push (undoStack s) (Snap overlayData originalData stateCopy)) s)
  | _, _ => s
  end.

(** The snapshot [undo] and [redo] push before they restore. *)
Definition currentSnapshot (s : State) : Snapshot :=
  match overlayImg s, overlayOriginalImg s with
  | Some ov, Some orig => Snap (src ov) (src orig) (overlayState s)
  | _, _ => NullSnap
  end.

(** The two branches on [prev.overlayData] ([next.overlayData] in [redo]). *)
Definition restore (snap : Snapshot) (s : State) : State :=
  match snap with
  | Snap overlayData _ state =>
      let img := loadImage overlayData in
      set_overlayState state
        (set_overlayOriginalImg (Some img) (set_overlayImg (Some img) s))
  | NullSnap =>
      set_overlayOriginalImg None (set_overlayImg None s)
  end.

Definition undo (s : State) : State :=
  if (length (undoStack s) =? 0)%nat then s
  else
    let s1 := set_redoStack (push (redoStack s) (currentSnapshot s)) s in
    match pop (undoStack s1) with
    | Some (prev, rest) => restore prev (set_undoStack rest s1)
    | None => s1
    end.

Definition redo (s : State) : State :=
  if (length (redoStack s) =? 0)%nat then s
  else
    let s1 := set_undoStack (push (undoStack s) (currentSnapshot s)) s in
    match pop (redoStack s1) with
    | Some (next, rest) => restore next (set_redoStack rest s1)
    | None => s1
    end.

(* ===================================================================== *)
(** * Angle normalisation ([normalizeAngle]) *)
(* ===================================================================== *)

(** [while (a > 180) a -= 360;] *)
Equations? whileAbove (a : R) : R
  by wf (Z.to_nat (up ((a - 180) / 360))) lt :=
  whileAbove a with Rgt_dec a 180 := {
    | left _ => whileAbove (a - 360);
    | right _ => a }.
Proof.
  destruct (archimed ((a - 180) / 360)) as [Hup _].
  destruct (archimed ((a - 360 - 180) / 360)) as [_ Hlow].
  assert (up ((a - 360 - 180) / 360) < up ((a - 180) / 360))%Z
    by (apply lt_IZR; lra).
  assert (0 < up ((a - 180) / 360))%Z by (apply lt_IZR; lra).
  lia.
Qed.

(** [while (a < -180) a += 360;] *)
Equations? whileBelow (a : R) : R
  by wf (Z.to_nat (up ((- 180 - a) / 360))) lt :=
  whileBelow a with Rlt_dec a (- 180) := {
    | left _ => whileBelow (a + 360);
    | right _ => a }.
Proof.
  destruct (archimed ((- 180 - a) / 360)) as [Hup _].
  destruct (archimed ((- 180 - (a + 360)) / 360)) as [_ Hlow].
  assert (up ((- 180 - (a + 360)) / 360) < up ((- 180 - a) / 360))%Z
    by (apply lt_IZR; lra).
  assert (0 < up ((- 180 - a) / 360))%Z by (apply lt_IZR; lra).
  lia.
Qed.

(** [normalizeAngle] over exact reals, where both loops end for every
    angle.  The script runs them over binary64, where they end for the
    angles the buttons produce but not for a huge one ([Binary64] below);
    what is proved of this definition is a fact about the script only
    under that reading, or for angles in a bounded range. *)
Definition normalizeAngle (angle : R) : R :=
  let a := angle in
  let a := whileAbove a in
  let a := whileBelow a in
  a.

(** The same loops over IEEE binary64, the numbers the script computes
    with.  A loop that may not end takes fuel: [None] when the fuel runs
    out before the loop condition fails. *)
Module Binary64.

Local Open Scope float_scope.

Fixpoint whileAbove (fuel : nat) (a : float) : option float :=
  match fuel with
  | O => None
  | S fuel' => if 180 <? a then whileAbove fuel' (a - 360) else Some a
  end.

Fixpoint whileBelow (fuel : nat) (a : float) : option float :=
  match fuel with
  | O => None
  | S fuel' => if a <? -180 then whileBelow fuel' (a + 360) else Some a
  end.

Definition normalizeAngle (fuel : nat) (angle : float) : option float :=
  match whileAbove fuel angle with
  | Some a => whileBelow fuel a
  | None => None
  end.

End Binary64.

(* ===================================================================== *)
(** * Button and input handlers *)
(* ===================================================================== *)

(** [Math.min(scaleX, scaleY, 1)] for an overlay [ov] on a background [bg]. *)
Definition fitScale (bg ov : Image) : R :=
  let maxW := IZR (width bg) in
  let maxH := IZR (height bg) in
  let ovW := IZR (width ov) in
  let ovH := IZR (height ov) in
  let scaleX := maxW / ovW in
  let scaleY := maxH / ovH in
  Rmin (Rmin scaleX scaleY) 1.

(** [bgInput] 'change', with the decoded file [img]. *)
Definition loadBackground (img : Image) (s : State) : State :=
  let s := set_bgImg (Some img) s in
  match overlayImg s with
  | Some ov =>
      let ovW := IZR (width ov) in
      let ovH := IZR (height ov) in
      let s := assign (set_scale (fitScale img ov)) s in
      let s := assign (set_x (Rmin (x (overlayState s))
                 (IZR (width img) - ovW * scale (overlayState s)))) s in
      let s := assign (set_y (Rmin (y (overlayState s))
                 (IZR (height img) - ovH * scale (overlayState s)))) s in
      s
  | None => s
  end.

(** [overlayInput] 'change', with the decoded file [rawImg]. *)
Definition loadOverlay (rawImg : Image) (s : State) : State :=
  match bgImg s with
  | None => s
  | Some bg =>
      let rgbaImg := ChromaKey.applyGreyKey rawImg in
      let s := set_overlayImg (Some rgbaImg) s in
      let s := set_overlayOriginalImg (Some rgbaImg) s in
      let maxW := IZR (width bg) in
      let maxH := IZR (height bg) in
      let ovW := IZR (width rgbaImg) in
      let ovH := IZR (height rgbaImg) in
      let s := assign (set_scale (fitScale bg rgbaImg)) s in
      let s := assign (set_angle 0) s in
      let s := assign (set_flipH false) s in
      let s := assign (set_flipV false) s in
      let s := assign (set_x (Rmin 20 (maxW - ovW * scale (overlayState s)))) s in
      let s := assign (set_y (Rmin 20 (maxH - ovH * scale (overlayState s)))) s in
      let s := resetCrop s in
      let s := set_undoStack [] s in
      let s := set_redoStack [] s in
      saveState s
  end.

(** [removeOverlayBtn] 'click'. *)
Definition removeOverlay (s : State) : State :=
  let s := set_overlayImg None s in
  let s := set_overlayOriginalImg None s in
  let s := resetCrop s in
  let s := set_undoStack [] s in
  set_redoStack [] s.

(** [newBtn] 'click'. *)
Definition newSession (s : State) : State :=
  let s := set_bgImg None s in
  let s := set_overlayImg None s in
  let s := set_overlayOriginalImg None s in
  let s := set_overlayState (mkTransform 0 0 1 0 false false) s in
  let s := set_dragData (0, 0) s in
  let s := resetCrop s in
  let s := set_undoStack [] s in
  set_redoStack [] s.

(** [smallerBtn] 'click'. *)
Definition smaller (s : State) : State :=
  match overlayImg s with
  | None => s
  | Some ov =>
      let s := saveState s in
      let factor := 1 / 1.10 in
      let s := assign (set_scale (scale (overlayState s) * factor)) s in
      let w := IZR (width ov) * Rabs (scale (overlayState s)) in
      let h := IZR (height ov) * Rabs (scale (overlayState s)) in
      match bgImg s with
      | Some bg =>
          let s := assign (set_x (Rmin (x (overlayState s)) (IZR (width bg) - w))) s in
          assign (set_y (Rmin (y (overlayState s)) (IZR (height bg) - h))) s
      | None => s
      end
  end.

(** [biggerBtn] 'click'. *)
Definition bigger (s : State) : State :=
  match overlayImg s with
  | None => s
  | Some ov =>
      let s := saveState s in
      let factor := 1.10 in
      let nextScale := scale (overlayState s) * factor in
      let w := IZR (width ov) * Rabs nextScale in
      let h := IZR (height ov) * Rabs nextScale in
      match bgImg s with
      | Some bg =>
          if Rgtb w (IZR (width bg)) || Rgtb h (IZR (height bg)) then s
          else assign (set_scale nextScale) s
      | None => assign (set_scale nextScale) s
      end
  end.

(** [angleInput] 'input'.  [value] is what [parseFloat(e.target.value)]
    gives: a number, or [None] for [NaN]. *)
Definition angleInputHandler (value : option R) (s : State) : State :=
  let s := saveState s in
  let val := match value with Some v => v | None => 0 end in
  let angle := val in
  let angle := if Rgtb angle 180 then angle - 360 else angle in
  let angle := if Rltb angle (- 180) then angle + 360 else angle in
  assign (set_angle angle) s.

(** [rotM5Btn], [rotP5Btn] and [rotResetBtn] 'click'. *)
Definition rotM5 (s : State) : State :=
  let s := saveState s in
  assign (set_angle (normalizeAngle (angle (overlayState s) - 5))) s.

Definition rotP5 (s : State) : State :=
  let s := saveState s in
  assign (set_angle (normalizeAngle (angle (overlayState s) + 5))) s.

Definition rotReset (s : State) : State :=
  let s := saveState s in
  assign (set_angle 0) s.

(** [flipHBtn] and [flipVBtn] 'click'. *)
Definition flipHClick (s : State) : State :=
  let s := saveState s in
  assign (set_flipH (negb (flipH (overlayState s)))) s.

Definition flipVClick (s : State) : State :=
  let s := saveState s in
  assign (set_flipV (negb (flipV (overlayState s)))) s.

(** [cropBtn] 'click'. *)
Definition cropClick (s : State) : State :=
  match overlayImg s with
  | None => s
  | Some _ =>
      if negb (cropMode s) then
        let s := saveState s in
        set_cropEnd None (set_cropStart None (set_cropping false (set_cropMode true s)))
      else resetCrop s
  end.

(* ===================================================================== *)
(** * Pointer handlers and cropping *)
(* ===================================================================== *)

(** How a handler ends: it runs to its end, or an uncaught [TypeError]
    stops it; either way the globals keep what was written so far. *)
Inductive Outcome : Type :=
| Done (s : State)
| Threw (s : State).

Definition stateOf (o : Outcome) : State :=
  match o with Done s => s | Threw s => s end.

(** The loop over the four corners in 'pointerdown': the index of the
    first handle hit, starting the count at [i]. *)
Fixpoint hitHandle (localX localY handleSize : R) (corners : list (R * R)) (i : Z)
  : option Z :=
  match corners with
  | [] => None
  | c :: rest =>
      if Rleb (Rabs (localX - fst c)) handleSize
         && Rleb (Rabs (localY - snd c)) handleSize
      then Some i
      else hitHandle localX localY handleSize rest (i + 1)%Z
  end.

(** What a 'pointerdown' outside crop mode hits: a corner handle (checked
    first), the inside of the box, or nothing. *)
Inductive Hit : Type :=
| HitHandle (i : Z)
| HitInside
| HitNothing.

Definition classify (localX localY w h : R) : Hit :=
  let handleSize := 10 in
  let corners :=
    [(- w / 2, - h / 2); (w / 2, - h / 2); (w / 2, h / 2); (- w / 2, h / 2)] in
  match hitHandle localX localY handleSize corners 0%Z with
  | Some i => HitHandle i
  | None =>
      if Rleb (Rabs localX) (w / 2) && Rleb (Rabs localY) (h / 2)
      then HitInside
      else HitNothing
  end.

(** The pointer in the overlay's local space (scaled coordinates): centred
    on the box and rotated by minus the angle. *)
Definition toLocal (px py : R) (ov : Image) (t : TransformState) : R * R :=
  let w := IZR (width ov) * Rabs (scale t) in
  let h := IZR (height ov) * Rabs (scale t) in
  let cx := x t + w / 2 in
  let cy := y t + h / 2 in
  let dx := px - cx in
  let dy := py - cy in
  let angleRad := (- angle t * PI) / 180 in
  let localX := dx * cos angleRad - dy * sin angleRad in
  let localY := dx * sin angleRad + dy * cos angleRad in
  (localX, localY).

(** [canvas] 'pointerdown' at [(px, py)] in canvas pixels. *)
Definition pointerdown (px py : R) (s : State) : Outcome :=
  match overlayImg s, bgImg s with
  | Some ov, Some _ =>
      let s := saveState s in
      let w := IZR (width ov) * Rabs (scale (overlayState s)) in
      let h := IZR (height ov) * Rabs (scale (overlayState s)) in
      let '(localX, localY) := toLocal px py ov (overlayState s) in
      if cropMode s then
        let unscaledX := localX / scale (overlayState s) in
        let unscaledY := localY / scale (overlayState s) in
        match overlayOriginalImg s with
        | None => Threw s
        | Some orig =>
            if Rleb (Rabs unscaledX) (IZR (width orig) / 2)
               && Rleb (Rabs unscaledY) (IZR (height orig) / 2)
            then
              Done (set_cropEnd (Some (unscaledX, unscaledY))
                     (set_cropStart (Some (unscaledX, unscaledY))
                       (set_cropping true s)))
            else Done (resetCrop s)
        end
      else
        match classify localX localY w h with
        | HitHandle i =>
            Done (set_dragging false (set_resizeHandle i (set_resizing true s)))
        | HitInside =>
            Done (set_dragData (localX, localY) (set_dragging true s))
        | HitNothing => Done s
        end
  | _, _ => Done s
  end.

(** The origin a drag move computes before it clamps. *)
Definition dragOrigin (px py w h angleRad : R) (anchor : R * R) : R * R :=
  let dx := fst anchor in
  let dy := snd anchor in
  let globalLocalX := dx * cos angleRad - dy * sin angleRad in
  let globalLocalY := dx * sin angleRad + dy * cos angleRad in
  let newCx := px - globalLocalX in
  let newCy := py - globalLocalY in
  (newCx - w / 2, newCy - h / 2).

(** The scale a resize move computes. *)
Definition resizeScale (px py cx cy angleRad : R) (ov bg : Image) : R :=
  let dxPointer := px - cx in
  let dyPointer := py - cy in
  let localX := dxPointer * cos (- angleRad) - dyPointer * sin (- angleRad) in
  let localY := dxPointer * sin (- angleRad) + dyPointer * cos (- angleRad) in
  let halfW := Rabs localX in
  let halfH := Rabs localY in
  let scaleX := (2 * halfW) / IZR (width ov) in
  let scaleY := (2 * halfH) / IZR (height ov) in
  let newScale := Rmin scaleX scaleY in
  let maxScale := Rmin (IZR (width bg) / IZR (width ov))
                       (IZR (height bg) / IZR (height ov)) in
  let newScale := Rmin newScale maxScale in
  let minScale := 0.05 in
  if Rltb newScale minScale then minScale else newScale.

(** [canvas] 'pointermove' at [(px, py)] in canvas pixels. *)
Definition pointermove (px py : R) (s : State) : State :=
  match overlayImg s, bgImg s with
  | Some ov, Some bg =>
      let w := IZR (width ov) * Rabs (scale (overlayState s)) in
      let h := IZR (height ov) * Rabs (scale (overlayState s)) in
      let cx := x (overlayState s) + w / 2 in
      let cy := y (overlayState s) + h / 2 in
      let angleRad := (angle (overlayState s) * PI) / 180 in
      if cropping s then
        let dxp := px - cx in
        let dyp := py - cy in
        let angleR := (- angle (overlayState s) * PI) / 180 in
        let localXS := dxp * cos angleR - dyp * sin angleR in
        let localYS := dxp * sin angleR + dyp * cos angleR in
        let unscaledX := localXS / scale (overlayState s) in
        let unscaledY := localYS / scale (overlayState s) in
        set_cropEnd (Some (unscaledX, unscaledY)) s
      else if resizing s then
        let newScale := resizeScale px py cx cy angleRad ov bg in
        let s := assign (set_scale newScale) s in
        let newW := IZR (width ov) * newScale in
        let newH := IZR (height ov) * newScale in
        let s := assign (set_x (cx - newW / 2)) s in
        let s := assign (set_y (cy - newH / 2)) s in
        let s := assign (set_x (clamp 0 (IZR (width bg) - newW) (x (overlayState s)))) s in
        assign (set_y (clamp 0 (IZR (height bg) - newH) (y (overlayState s)))) s
      else if dragging s then
        let o := dragOrigin px py w h angleRad (dragData s) in
        let newX := clamp 0 (IZR (width bg) - w) (fst o) in
        let newY := clamp 0 (IZR (height bg) - h) (snd o) in
        let s := assign (set_x newX) s in
        assign (set_y newY) s
      else s
  | _, _ => s
  end.

(** The selection of [performCrop] after normalising and un-flipping:
    [(x1f, x2f, y1f, y2f)]. *)
Definition cropSelection (cropStart cropEnd : R * R) (t : TransformState)
  : R * R * R * R :=
  let x1 := Rmin (fst cropStart) (fst cropEnd) in
  let x2 := Rmax (fst cropStart) (fst cropEnd) in
  let y1 := Rmin (snd cropStart) (snd cropEnd) in
  let y2 := Rmax (snd cropStart) (snd cropEnd) in
  let x1f := if flipH t then - x2 else x1 in
  let x2f := if flipH t then - x1 else x2 in
  let y1f := if flipV t then - y2 else y1 in
  let y2f := if flipV t then - y1 else y2 in
  (x1f, x2f, y1f, y2f).

(** The pixel bounds [(u1, u2, v1, v2)] of the selection in an overlay of
    size [oldWidth] x [oldHeight]. *)
Definition cropPixels (sel : R * R * R * R) (oldWidth oldHeight : Z)
  : Z * Z * Z * Z :=
  let '(x1f, x2f, y1f, y2f) := sel in
  let u1 := Z.max 0 (mathFloor (x1f + IZR oldWidth / 2)) in
  let u2 := Z.min oldWidth (mathCeil (x2f + IZR oldWidth / 2)) in
  let v1 := Z.max 0 (mathFloor (y1f + IZR oldHeight / 2)) in
  let v2 := Z.min oldHeight (mathCeil (y2f + IZR oldHeight / 2)) in
  (u1, u2, v1, v2).

(** The origin the [onload] callback of [performCrop] computes before it
    clamps. *)
Definition cropOrigin (t : TransformState) (oldWidth oldHeight wCrop hCrop : Z)
  (cropCenterX cropCenterY : R) : R * R :=
  let scale := scale t in
  let angleRad := (angle t * PI) / 180 in
  let deltaX := cropCenterX * scale in
  let deltaY := cropCenterY * scale in
  let shiftX := deltaX * cos angleRad - deltaY * sin angleRad in
  let shiftY := deltaX * sin angleRad + deltaY * cos angleRad in
  let oldCentreX := x t + (IZR oldWidth * scale) / 2 in
  let oldCentreY := y t + (IZR oldHeight * scale) / 2 in
  let newWidthScaled := IZR wCrop * scale in
  let newHeightScaled := IZR hCrop * scale in
  let newCentreX := oldCentreX + shiftX in
  let newCentreY := oldCentreY + shiftY in
  (newCentreX - newWidthScaled / 2, newCentreY - newHeightScaled / 2).

Definition performCrop (s : State) : Outcome :=
  match cropStart s, cropEnd s, overlayOriginalImg s with
  | Some cs, Some ce, Some orig =>
      let oldWidth := width orig in
      let oldHeight := height orig in
      let sel := cropSelection cs ce (overlayState s) in
      let '(x1f, x2f, y1f, y2f) := sel in
      let '(u1, u2, v1, v2) := cropPixels sel oldWidth oldHeight in
      let wCrop := (u2 - u1)%Z in
      let hCrop := (v2 - v1)%Z in
      if ((wCrop <=? 0) || (hCrop <=? 0))%Z then
        Done (set_cropEnd None (set_cropStart None s))
      else
        let cropCenterX := (x1f + x2f) / 2 in
        let cropCenterY := (y1f + y2f) / 2 in
        let tmpCanvas := drawImage orig (- u1) (- v1) wCrop hCrop in
        let dataURL := src tmpCanvas in
        let newImg := loadImage dataURL in
        (* newImg.onload *)
        let s := set_overlayImg (Some newImg) s in
        let s := set_overlayOriginalImg (Some newImg) s in
        let o := cropOrigin (overlayState s) oldWidth oldHeight wCrop hCrop
                            cropCenterX cropCenterY in
        let newWidthScaled := IZR wCrop * scale (overlayState s) in
        let newHeightScaled := IZR hCrop * scale (overlayState s) in
        match bgImg s with
        | None => Threw s
        | Some bg =>
            let newX := clamp 0 (IZR (width bg) - newWidthScaled) (fst o) in
            let newY := clamp 0 (IZR (height bg) - newHeightScaled) (snd o) in
            let s := assign (set_x newX) s in
            let s := assign (set_y newY) s in
            Done (set_cropEnd None (set_cropStart None s))
        end
  | _, _, _ => Done s
  end.

(** [canvas] 'pointerup'. *)
Definition pointerup (s : State) : Outcome :=
  if cropping s then
    performCrop (set_cropMode false (set_cropping false s))
  else
    let s := if dragging s then set_dragging false s else s in
    let s := if resizing s
             then set_resizeHandle (-1) (set_resizing false s) else s in
    Done s.

(* ===================================================================== *)
(** * The event loop *)
(* ===================================================================== *)

Inductive Event : Type :=
| BackgroundChosen (img : Image)
| OverlayChosen (rawImg : Image)
| RemoveOverlayClick
| NewSessionClick
| SmallerClick
| BiggerClick
| AngleInput (value : option R)
| RotM5Click
| RotP5Click
| RotResetClick
| FlipHClick
| FlipVClick
| CropClick
| UndoRequest
| RedoRequest
| PointerDown (px py : R)
| PointerMove (px py : R)
| PointerUp.

(** The globals after the handler of [e] has run on [s]. *)
Definition step (s : State) (e : Event) : State :=
  match e with
  | BackgroundChosen img => loadBackground img s
  | OverlayChosen rawImg => loadOverlay rawImg s
  | RemoveOverlayClick => removeOverlay s
  | NewSessionClick => newSession s
  | SmallerClick => smaller s
  | BiggerClick => bigger s
  | AngleInput value => angleInputHandler value s
  | RotM5Click => rotM5 s
  | RotP5Click => rotP5 s
  | RotResetClick => rotReset s
  | FlipHClick => flipHClick s
  | FlipVClick => flipVClick s
  | CropClick => cropClick s
  | UndoRequest => undo s
  | RedoRequest => redo s
  | PointerDown px py => stateOf (pointerdown px py s)
  | PointerMove px py => pointermove px py s
  | PointerUp => stateOf (pointerup s)
  end.

(** The states the script can be in: the initial globals, and whatever a
    handler leaves behind. *)
Inductive reachable : State -> Prop :=
| reachable_init : reachable initialState
| reachable_step s e : reachable s -> reachable (step s e).

(** [n] applications of [f]. *)
Fixpoint repeatedly (n : nat) (f : State -> State) (s : State) : State :=
  match n with
  | O => s
  | S n' => repeatedly n' f (f s)
  end.

(* ===================================================================== *)
(** * The invariant of the history *)
(* ===================================================================== *)

(** The part of the state the history is about. *)
Definition historyView (s : State)
  : option Image * option Image * list Snapshot * list Snapshot :=
  (overlayImg s, overlayOriginalImg s, undoStack s, redoStack s).

(** A snapshot taken from a loaded overlay whose two images are one. *)
Definition snapshot_ok (sn : Snapshot) : Prop :=
  match sn with
  | Snap overlayData originalData _ => overlayData = originalData
  | NullSnap => False
  end.

(** What every reachable state satisfies: the two overlay references hold
    the same image, the stacks are empty while no overlay is loaded, and
    every entry of a stack was taken from a loaded overlay. *)
Definition history_ok (s : State) : Prop :=
  overlayImg s = overlayOriginalImg s
  /\ (overlayImg s = None -> undoStack s = [] /\ redoStack s = [])
  /\ Forall snapshot_ok (undoStack s)
  /\ Forall snapshot_ok (redoStack s).

(* ===================================================================== *)
(** * Sample rasters and states *)
(* ===================================================================== *)

(** A 2 x 1 raster: one pixel of the key colour, one far from it. *)
Definition sampleRaster : Image :=
  mkImage 2 1 [128; 128; 128; 255; 200; 10; 128; 7]%Z.

(** A background of 200 x 200 pixels and the state after choosing it and
    then choosing the 2 x 1 sample raster as overlay. *)
Definition sampleBackground : Image := mkImage 200 200 [].

Definition sampleLoaded : State :=
  step (step initialState (BackgroundChosen sampleBackground))
       (OverlayChosen sampleRaster).

(** The sample state after an undo: the overlay sits at (20, 20) with
    scale 1, the undo stack is empty and the redo stack has one entry. *)
Definition sampleUndone : State := step sampleLoaded UndoRequest.

(** A 100 x 50 overlay at scale 1, angle 0, not flipped, held at the
    anchor offset (10, 5), on a 200 x 200 background. *)
Definition sampleDrag : State :=
  mkState (Some (mkImage 200 200 [])) (Some (mkImage 100 50 []))
          (Some (mkImage 100 50 [])) (mkTransform 0 20 1 0 false false)
          true (10, 5) false (-1) false false None None [] [].

(** A 100 x 50 overlay at the origin of a 200 x 200 background, its
    bottom-right handle held. *)
Definition sampleResize : State :=
  mkState (Some (mkImage 200 200 [])) (Some (mkImage 100 50 []))
          (Some (mkImage 100 50 [])) (mkTransform 0 0 1 0 false false)
          false (0, 0) true 2 false false None None [] [].

(** A 4 x 4 overlay at the origin of a 4 x 4 background, with the left
    half selected. *)
Definition sampleCrop : State :=
  mkState (Some (mkImage 4 4 [])) (Some (mkImage 4 4 []))
          (Some (mkImage 4 4 [])) (mkTransform 0 0 1 0 false false)
          false (0, 0) false (-1) false false
          (Some (- 2, - 2)) (Some (0, 2)) [] [].

(** A 4 x 4 overlay with an empty selection on a pixel boundary. *)
Definition sampleEmptyCrop : State :=
  mkState (Some (mkImage 4 4 [])) (Some (mkImage 4 4 []))
          (Some (mkImage 4 4 [])) (mkTransform 0 0 1 0 false false)
          false (0, 0) false (-1) false false
          (Some (1, 1)) (Some (1, 1)) [] [].

(* ===================================================================== *)
(** * Further parts of the script *)
(* ===================================================================== *)

(** The corners of the box in local scaled coordinates, in the order both
    [drawScene] and 'pointerdown' list them: top-left, top-right,
    bottom-right, bottom-left. *)
Definition corners (w h : R) : list (R * R) :=
  [(- w / 2, - h / 2); (w / 2, - h / 2); (w / 2, h / 2); (- w / 2, h / 2)].

(** The test of the loop in 'pointerdown': the point is within [handleSize]
    of the corner on both axes. *)
Definition nearCorner (localX localY : R) (c : R * R) : Prop :=
  Rabs (localX - fst c) <= 10 /\ Rabs (localY - snd c) <= 10.


(** The selection rectangle [drawScene] draws, as the arguments
    [(rectX, rectY, rectW, rectH)] of [fillRect] and [strokeRect]; [None]
    when it draws none. *)
Definition drawnCropRect (s : State) : option (R * R * R * R) :=
  match bgImg s, overlayImg s with
  | Some _, Some _ =>
      if cropMode s || cropping s then
        match cropStart s, cropEnd s with
        | Some cropStart, Some cropEnd =>
            let sx := Rmin (fst cropStart) (fst cropEnd) in
            let ex := Rmax (fst cropStart) (fst cropEnd) in
            let sy := Rmin (snd cropStart) (snd cropEnd) in
            let ey := Rmax (snd cropStart) (snd cropEnd) in
            let t := overlayState s in
            let dispX1 := (if flipH t then - ex else sx) * scale t in
            let dispX2 := (if flipH t then - sx else ex) * scale t in
            let dispY1 := (if flipV t then - ey else sy) * scale t in
            let dispY2 := (if flipV t then - sy else ey) * scale t in
            let rectX := dispX1 in
            let rectY := dispY1 in
            let rectW := dispX2 - dispX1 in
            let rectH := dispY2 - dispY1 in
            Some (rectX, rectY, rectW, rectH)
        | _, _ => None
        end
      else None
  | _, _ => None
  end.

(** The button and input events that edit the transform: each of their
    handlers calls [saveState] and then writes [overlayState] only. *)
Definition transformEdit (e : Event) : bool :=
  match e with
  | SmallerClick | BiggerClick | AngleInput _ | RotM5Click | RotP5Click
  | RotResetClick | FlipHClick | FlipVClick => true
  | _ => false
  end.

(** A run of 'pointermove' events at the given positions. *)
Definition pointermoves (positions : list (R * R)) (s : State) : State :=
  fold_left (fun s0 p => pointermove (fst p) (snd p) s0) positions s.

(** ** Keyboard shortcuts and output names *)

Module Keys.

Import Stdlib.Strings.Ascii Stdlib.Strings.String.
Local Open Scope string_scope.

(** The fields of a [KeyboardEvent] the 'keydown' handler reads. *)
Record KeyEvent : Type := mkKeyEvent {
  ctrlKey : bool;
  metaKey : bool;
  shiftKey : bool;
  code : string
}.

(** [document] 'keydown'. *)
Definition keydown (e : KeyEvent) (s : State) : State :=
  let isCtrlOrMeta := ctrlKey e || metaKey e in
  if negb isCtrlOrMeta then s
  else
    let s := if (code e =? "KeyZ") && negb (shiftKey e) then undo s else s in
    let s := if (code e =? "KeyY") || ((code e =? "KeyZ") && shiftKey e)
             then redo s else s in
    s.

(** Whether the string holds a dot. *)
Fixpoint hasDot (name : string) : bool :=
  match name with
  | EmptyString => false
  | String c rest => Ascii.eqb c "."%char || hasDot rest
  end.

(** [name.replace(/\.[^.]+$/, '')]: the pattern matches at the first dot
    that is followed, up to the end of the string, by one or more
    characters none of which is a dot; the match is cut off. *)
Fixpoint stripExtension (name : string) : string :=
  match name with
  | EmptyString => EmptyString
  | String c rest =>
      if Ascii.eqb c "."%char && negb (hasDot rest) && negb (rest =? "")
      then EmptyString
      else String c (stripExtension rest)
  end.

(** The prefix the save handler settles on: [value] is the prefix input
    after [trim()], [bgFile] the name of the chosen background file. *)
Definition outputPrefix (value : string) (bgFile : option string) : string :=
  let prefix := value in
  if prefix =? "" then
    match bgFile with
    | Some name => stripExtension name
    | None => "output"
    end
  else prefix.

(** A counter as a template literal prints it. *)
Definition decimal (n : nat) : string :=
  DecimalString.NilEmpty.string_of_uint (Nat.to_uint n).

(** [saveCounter === 0 ? prefix : `${prefix}_${saveCounter}`]. *)
Definition baseName (prefix : string) (saveCounter : nat) : string :=
  if (saveCounter =? 0)%nat then prefix
  else prefix ++ "_" ++ decimal saveCounter.

(** The names the two downloads get when no output directory is set. *)
Definition downloadNames (prefix : string) (saveCounter : nat) : string * string :=
  let canvasName := baseName prefix saveCounter ++ ".png" in
  let objectName := baseName prefix saveCounter ++ ".png" in
  ("Canvas_" ++ canvasName, "objects_" ++ objectName).

(** [saveBtn] 'click' with no output directory chosen, as far as names go:
    the names of the two downloads, if any, and [saveCounter] afterwards.
    Without a background or an overlay the handler returns at once; reading
    the size of a missing [overlayOriginalImg] throws before the counter is
    touched. *)
Definition saveClick (s : State) (value : string) (bgFile : option string)
  (saveCounter : nat) : option (string * string) * nat :=
  match bgImg s, overlayImg s with
  | Some _, Some _ =>
      let prefix := outputPrefix value bgFile in
      match overlayOriginalImg s with
      | None => (None, saveCounter)
      | Some _ => (Some (downloadNames prefix saveCounter), S saveCounter)
      end
  | _, _ => (None, saveCounter)
  end.

End Keys.

(** ** More sample states *)

(** The 100 x 50 overlay of [sampleDrag] at rest at (20, 20). *)
Definition sampleIdle : State :=
  mkState (Some (mkImage 200 200 [])) (Some (mkImage 100 50 []))
          (Some (mkImage 100 50 [])) (mkTransform 20 20 1 0 false false)
          false (0, 0) false (-1) false false None None [] [].

(** A 16 x 12 overlay: smaller than two handle sizes on both axes. *)
Definition sampleSmall : State :=
  mkState (Some (mkImage 200 200 [])) (Some (mkImage 16 12 []))
          (Some (mkImage 16 12 [])) (mkTransform 20 20 1 0 false false)
          false (0, 0) false (-1) false false None None [] [].

(** A 4 x 4 overlay with the whole box selected. *)
Definition sampleFullCrop : State :=
  mkState (Some (mkImage 4 4 [])) (Some (mkImage 4 4 []))
          (Some (mkImage 4 4 [])) (mkTransform 0 0 1 0 false false)
          false (0, 0) false (-1) false false
          (Some (- 2, - 2)) (Some (2, 2)) [] [].


(* ===================================================================== *)
(** * Properties of rasters and of the canvas *)
(* ===================================================================== *)

Section Chunks.

Context {A B : Type}.
Variable f : A -> list B.
Variable k : nat.
Hypothesis f_length : forall a, length (f a) = k.

Lemma flat_map_chunk_length (l : list A) :
  length (flat_map f l) = (length l * k)%nat.
Proof using f_length.
  induction l as [|a l IH]; simpl; [reflexivity|].
  rewrite length_app, f_length, IH. reflexivity.
Qed.

(** Element [r] of chunk [n] of a concatenation of chunks of size [k]. *)
Lemma nth_flat_map_chunk (l : list A) (n r : nat) (a0 : A) (d : B) :
  (n < length l)%nat -> (r < k)%nat ->
  nth (n * k + r) (flat_map f l) d = nth r (f (nth n l a0)) d.
Proof using f_length.
  revert n. induction l as [|a l IH]; intros n Hn Hr; simpl in Hn; [lia|].
  destruct n as [|n]; simpl.
  - apply app_nth1. rewrite f_length. exact Hr.
  - rewrite app_nth2 by (rewrite f_length; lia).
    rewrite f_length.
    replace (k + n * k + r - k)%nat with (n * k + r)%nat by lia.
    apply IH; [lia | exact Hr].
Qed.

End Chunks.

Lemma zrange_length (n : Z) : length (zrange n) = Z.to_nat n.
Proof. unfold zrange. rewrite length_map, length_seq. reflexivity. Qed.

Lemma zrange_nth (n : Z) (i : nat) :
  (i < Z.to_nat n)%nat -> nth i (zrange n) 0%Z = Z.of_nat i.
Proof.
  intros Hi. unfold zrange.
  rewrite (nth_indep _ 0%Z (Z.of_nat 0)) by (rewrite length_map, length_seq; exact Hi).
  rewrite map_nth, seq_nth by exact Hi. reflexivity.
Qed.

Lemma four_bytes (p : list Z) :
  length p = 4%nat ->
  [nth 0 p 0%Z; nth 1 p 0%Z; nth 2 p 0%Z; nth 3 p 0%Z] = p.
Proof.
  destruct p as [|a [|b [|c [|d [|e p]]]]]; simpl; intros H; try discriminate.
  reflexivity.
Qed.

(** Reading back the pixel that a canvas was filled with. *)
Lemma pixelAt_canvas (p : Z -> Z -> list Z) (cw ch i j : Z) :
  (forall a b, length (p a b) = 4%nat) ->
  (0 <= i < cw)%Z -> (0 <= j < ch)%Z ->
  pixelAt (mkImage cw ch (canvasData p cw ch)) i j = p i j.
Proof.
  intros Hp Hi Hj. unfold pixelAt. cbn [width height data].
  replace ((0 <=? i) && (i <? cw) && (0 <=? j) && (j <? ch))%Z with true
    by (symmetry; rewrite !andb_true_iff; repeat split; lia).
  set (row := fun j0 : Z => flat_map (fun i0 => p i0 j0) (zrange cw)).
  assert (Hrow : forall j0, length (row j0) = (Z.to_nat cw * 4)%nat).
  { intros j0. unfold row.
    rewrite (@flat_map_chunk_length _ _ (fun i0 => p i0 j0) 4 (fun a => Hp a j0)).
    rewrite zrange_length. reflexivity. }
  assert (Hbyte : forall c, (c < 4)%nat ->
            nth (Z.to_nat (4 * (j * cw + i)) + c) (canvasData p cw ch) 0%Z
            = nth c (p i j) 0%Z).
  { intros c Hc. unfold canvasData. fold row.
    replace (Z.to_nat (4 * (j * cw + i)) + c)%nat
      with (Z.to_nat j * (Z.to_nat cw * 4) + (Z.to_nat i * 4 + c))%nat by nia.
    rewrite (@nth_flat_map_chunk _ _ row _ Hrow (zrange ch) (Z.to_nat j)
               (Z.to_nat i * 4 + c) 0%Z 0%Z)
      by (rewrite ?zrange_length; nia).
    rewrite zrange_nth by lia. rewrite Z2Nat.id by lia.
    unfold row.
    rewrite (@nth_flat_map_chunk _ _ (fun i0 => p i0 j) 4 (fun a => Hp a j)
               (zrange cw) (Z.to_nat i) c 0%Z 0%Z)
      by (rewrite ?zrange_length; lia).
    rewrite zrange_nth by lia. rewrite Z2Nat.id by lia. reflexivity. }
  rewrite <- (Nat.add_0_r (Z.to_nat (4 * (j * cw + i)))) at 1.
  rewrite !Hbyte by lia.
  apply four_bytes, Hp.
Qed.

Lemma pixelAt_length (img : Image) (i j : Z) : length (pixelAt img i j) = 4%nat.
Proof. unfold pixelAt. destruct (_ && _)%bool; reflexivity. Qed.

(** [drawImage] copies the source translated by [(dx, dy)]. *)
Lemma pixelAt_drawImage (img : Image) (dx dy cw ch i j : Z) :
  (0 <= i < cw)%Z -> (0 <= j < ch)%Z ->
  pixelAt (drawImage img dx dy cw ch) i j = pixelAt img (i - dx) (j - dy).
Proof.
  intros Hi Hj. unfold drawImage.
  apply (pixelAt_canvas (fun i0 j0 => pixelAt img (i0 - dx) (j0 - dy)));
    [intros; apply pixelAt_length | exact Hi | exact Hj].
Qed.

(* ===================================================================== *)
(** * Grey-key extraction: postcondition *)
(* ===================================================================== *)

Module ChromaKeyFacts.

Import ChromaKey.
Local Open Scope Z_scope.

Lemma keyLoop_app (p rest : list Z) :
  length p = 4%nat -> keyLoop (p ++ rest) = keyLoop p ++ keyLoop rest.
Proof.
  destruct p as [|r [|g [|b [|a [|e p]]]]]; simpl; intros H; try discriminate.
  reflexivity.
Qed.

Lemma keyLoop_pixels (g : Z -> list Z) (l : list Z) (rest : list Z) :
  (forall i, length (g i) = 4%nat) ->
  keyLoop (flat_map g l ++ rest)
  = flat_map (fun i => keyLoop (g i)) l ++ keyLoop rest.
Proof.
  intros Hg. induction l as [|i l IH]; simpl; [reflexivity|].
  rewrite <- !app_assoc, keyLoop_app by apply Hg.
  rewrite IH. reflexivity.
Qed.

(** The loop rewrites the canvas pixel by pixel. *)
Lemma keyLoop_canvas (p : Z -> Z -> list Z) (cw ch : Z) :
  (forall i j, length (p i j) = 4%nat) ->
  keyLoop (canvasData p cw ch) = canvasData (fun i j => keyLoop (p i j)) cw ch.
Proof.
  intros Hp. unfold canvasData.
  induction (zrange ch) as [|j rows IH]; simpl; [reflexivity|].
  rewrite (keyLoop_pixels (fun i => p i j)) by (intros; apply Hp).
  rewrite IH. reflexivity.
Qed.

Lemma keyLoop_length4 (p : list Z) :
  length p = 4%nat -> length (keyLoop p) = 4%nat.
Proof.
  destruct p as [|r [|g [|b [|a [|e p]]]]]; simpl; intros H; try discriminate.
  reflexivity.
Qed.

(** The table built by the script is the ramp of the specification. *)
Lemma lut_is_ramp (d : Z) :
  0 <= d <= 255 -> nth (Z.to_nat d) lut 0 = rampAlpha d.
Proof.
  intros Hd. unfold lut.
  change 0 with ((fun d0 => toUint8Clamped (lutEntry d0)) 0) at 1.
  rewrite map_nth, zrange_nth by lia. rewrite Z2Nat.id by lia.
  unfold lutEntry, rampAlpha, toUint8Clamped, ramp, tol.
  change (22 <? 254) with true. cbv iota.
  change (22 + 2) with 24. rewrite Z.geb_leb.
  destruct (d <=? 22) eqn:E1; [reflexivity|].
  destruct (24 <=? d) eqn:E2; [reflexivity|].
  assert (d = 23) by lia. subst d. vm_compute. reflexivity.
Qed.

Lemma rampAlpha_monotone (d1 d2 : Z) :
  d1 <= d2 -> rampAlpha d1 <= rampAlpha d2.
Proof.
  intros H. unfold rampAlpha.
  destruct (d1 <=? 22) eqn:A1; destruct (d2 <=? 22) eqn:A2;
    destruct (24 <=? d1) eqn:B1; destruct (24 <=? d2) eqn:B2; try lia.
  - assert (d2 = 23) by lia. subst d2. vm_compute. discriminate.
  - assert (d1 = 23) by lia. subst d1. vm_compute. discriminate.
  - assert (d1 = 23) by lia. assert (d2 = 23) by lia. subst. lia.
Qed.

Lemma nth_byte (l : list Z) (n : nat) :
  Forall (fun b => 0 <= b <= 255) l -> 0 <= nth n l 0 <= 255.
Proof.
  intros H. destruct (Nat.lt_ge_cases n (length l)) as [Hn|Hn].
  - rewrite Forall_forall in H. apply H, nth_In, Hn.
  - rewrite nth_overflow by exact Hn. lia.
Qed.

Lemma pixelAt_bytes (img : Image) (i j : Z) :
  bytes_ok img ->
  exists r g b a,
    pixelAt img i j = [r; g; b; a]
    /\ 0 <= r <= 255 /\ 0 <= g <= 255 /\ 0 <= b <= 255.
Proof.
  intros H. unfold pixelAt. destruct (_ && _)%bool.
  - do 4 eexists. split; [reflexivity|]. repeat split; apply nth_byte, H.
  - exists 0, 0, 0, 0. split; [reflexivity|]. lia.
Qed.

(** C5 -- Grey-key postcondition.  For every raster whose bytes are bytes,
    the keyed raster has the same width and height; at every pixel the R,
    G and B bytes are those of the input and the alpha byte is the ramp of
    the specification at [d = max(|R-128|, |G-128|, |B-128|)]: 0 when
    [d <= 22], 255 when [d >= 24], [round(255*(d-22)/2)] (that is 128, at
    [d = 23]) in between; the ramp is non-decreasing in [d].  The result
    is a function of the input raster alone. *)
Theorem applyGreyKey_postcondition (img : Image) :
  bytes_ok img ->
  width (applyGreyKey img) = width img
  /\ height (applyGreyKey img) = height img
  /\ (forall i j, 0 <= i < width img -> 0 <= j < height img ->
        exists r g b a,
          pixelAt img i j = [r; g; b; a]
          /\ pixelAt (applyGreyKey img) i j
             = [r; g; b;
                rampAlpha (Z.max (Z.abs (r - 128))
                             (Z.max (Z.abs (g - 128)) (Z.abs (b - 128))))])
  /\ (forall d, d <= 22 -> rampAlpha d = 0)
  /\ (forall d, 24 <= d -> rampAlpha d = 255)
  /\ (forall d, 22 < d < 24 ->
        rampAlpha d = mathRound (inject_Z 255 * inject_Z (d - 22) / inject_Z 2)
        /\ rampAlpha d = 128)
  /\ (forall d1 d2, d1 <= d2 -> rampAlpha d1 <= rampAlpha d2).
Proof.
  intros Hok. split; [reflexivity|]. split; [reflexivity|].
  split; [|split; [|split; [|split]]].
  - intros i j Hi Hj.
    destruct (pixelAt_bytes i j Hok) as (r & g & b & a & Hpx & Hr & Hg & Hb).
    exists r, g, b, a. split; [exact Hpx|].
    unfold applyGreyKey, loadImage, src, drawImage. cbn [width height data].
    rewrite keyLoop_canvas by (intros; apply pixelAt_length).
    rewrite (pixelAt_canvas (fun i0 j0 => keyLoop (pixelAt img (i0 - 0) (j0 - 0))))
      by (try lia; intros; apply keyLoop_length4, pixelAt_length).
    rewrite !Z.sub_0_r, Hpx. cbn [keyLoop].
    rewrite lut_is_ramp by (unfold maxDiff, keyR, keyG, keyB; lia).
    unfold maxDiff, keyR, keyG, keyB. reflexivity.
  - intros d Hd. unfold rampAlpha.
    destruct (d <=? 22) eqn:E; [reflexivity | lia].
  - intros d Hd. unfold rampAlpha.
    destruct (d <=? 22) eqn:E1; [lia|].
    destruct (24 <=? d) eqn:E2; [reflexivity | lia].
  - intros d Hd. assert (d = 23) by lia. subst d. split; reflexivity.
  - apply rampAlpha_monotone.
Qed.

Lemma applyGreyKey_postcondition_witness :
  bytes_ok sampleRaster
  /\ width (applyGreyKey sampleRaster) = 2
  /\ height (applyGreyKey sampleRaster) = 1
  /\ pixelAt (applyGreyKey sampleRaster) 0 0 = [128; 128; 128; 0]
  /\ pixelAt (applyGreyKey sampleRaster) 1 0 = [200; 10; 128; 255].
Proof.
  assert (H : bytes_ok sampleRaster).
  { unfold bytes_ok, sampleRaster. cbn [data].
    repeat (apply Forall_cons; [lia|]). apply Forall_nil. }
  split; [exact H|].
  destruct (applyGreyKey_postcondition H) as (Hw & Hh & Hpx & _).
  split; [exact Hw|]. split; [exact Hh|].
  assert (Hj : 0 <= 0 < height sampleRaster) by (cbn; lia).
  split.
  - assert (Hi : 0 <= 0 < width sampleRaster) by (cbn; lia).
    destruct (Hpx 0 0 Hi Hj) as (r & g & b & a & Hin & Hout).
    rewrite Hout. change (pixelAt sampleRaster 0 0) with [128; 128; 128; 255] in Hin.
    injection Hin as <- <- <- <-. reflexivity.
  - assert (Hi : 0 <= 1 < width sampleRaster) by (cbn; lia).
    destruct (Hpx 1 0 Hi Hj) as (r & g & b & a & Hin & Hout).
    rewrite Hout. change (pixelAt sampleRaster 1 0) with [200; 10; 128; 7] in Hin.
    injection Hin as <- <- <- <-. reflexivity.
Defined.

End ChromaKeyFacts.

(* ===================================================================== *)
(** * Tests on numbers *)
(* ===================================================================== *)

Lemma Rgtb_true (a b : R) : b < a -> Rgtb a b = true.
Proof. intros H. unfold Rgtb, Rltb. destruct (Rlt_dec b a); [reflexivity | contradiction]. Qed.

Lemma Rltb_true (a b : R) : a < b -> Rltb a b = true.
Proof. intros H. unfold Rltb. destruct (Rlt_dec a b); [reflexivity | contradiction]. Qed.

Lemma Rltb_false (a b : R) : b <= a -> Rltb a b = false.
Proof. intros H. unfold Rltb. destruct (Rlt_dec a b); [lra | reflexivity]. Qed.

Lemma Rgtb_false (a b : R) : a <= b -> Rgtb a b = false.
Proof. intros H. unfold Rgtb. apply Rltb_false, H. Qed.

Lemma Rleb_true (a b : R) : a <= b -> Rleb a b = true.
Proof. intros H. unfold Rleb. destruct (Rle_dec a b); [reflexivity | contradiction]. Qed.

Lemma Rleb_false (a b : R) : b < a -> Rleb a b = false.
Proof. intros H. unfold Rleb. destruct (Rle_dec a b); [lra | reflexivity]. Qed.

(* ===================================================================== *)
(** * History: invariants of the reachable states *)
(* ===================================================================== *)

Ltac fields :=
  cbn [bgImg overlayImg overlayOriginalImg overlayState dragging dragData
       resizing resizeHandle cropMode cropping cropStart cropEnd undoStack
       redoStack set_bgImg set_overlayImg set_overlayOriginalImg
       set_overlayState set_dragging set_dragData set_resizing
       set_resizeHandle set_cropMode set_cropping set_cropStart set_cropEnd
       set_undoStack set_redoStack assign resetCrop stateOf
       x y scale angle flipH flipV
       set_x set_y set_scale set_angle set_flipH set_flipV] in *.

Lemma src_loadImage (u : DataURL) : src (loadImage u) = u.
Proof. destruct u. reflexivity. Qed.

Lemma loadImage_src (i : Image) : loadImage (src i) = i.
Proof. reflexivity. Qed.

Lemma pop_push {A : Type} (l : list A) (a : A) : pop (push l a) = Some (a, l).
Proof. unfold pop, push. rewrite rev_app_distr. simpl. rewrite rev_involutive. reflexivity. Qed.

Lemma stack_top {A : Type} (l : list A) :
  l <> [] -> exists rest a, l = push rest a.
Proof.
  intros H. destruct (exists_last H) as (rest & a & E). exists rest, a. exact E.
Qed.

Lemma push_length {A : Type} (l : list A) (a : A) :
  length (push l a) = S (length l).
Proof. unfold push. rewrite length_app. simpl. lia. Qed.

Lemma history_ok_view (s s' : State) :
  historyView s' = historyView s -> history_ok s -> history_ok s'.
Proof.
  unfold historyView, history_ok. intros E H.
  injection E as E1 E2 E3 E4. rewrite E1, E2, E3, E4. exact H.
Qed.

Lemma history_ok_saveState (s : State) : history_ok s -> history_ok (saveState s).
Proof.
  unfold history_ok, saveState. intros (Heq & Hnone & Hu & Hr).
  destruct (overlayImg s) as [ov|] eqn:Eov;
    destruct (overlayOriginalImg s) as [orig|] eqn:Eorig; fields;
    rewrite ?Eov, ?Eorig; try solve [discriminate Heq | tauto].
  injection Heq as ->.
  repeat split; try discriminate; try constructor.
  unfold push. apply Forall_app. split; [exact Hu|].
  constructor; [reflexivity | constructor].
Qed.

Lemma history_ok_restore (sn : Snapshot) (s : State) :
  snapshot_ok sn ->
  Forall snapshot_ok (undoStack s) -> Forall snapshot_ok (redoStack s) ->
  history_ok (restore sn s).
Proof.
  intros Hsn Hu Hr. destruct sn as [d o t|]; [|contradiction].
  unfold history_ok, restore. fields.
  repeat split; try discriminate; assumption.
Qed.

Lemma currentSnapshot_ok (s : State) :
  history_ok s -> overlayImg s <> None -> snapshot_ok (currentSnapshot s).
Proof.
  unfold history_ok, currentSnapshot. intros (Heq & _) Hov.
  rewrite <- Heq. destruct (overlayImg s); [reflexivity | contradiction].
Qed.

Lemma history_ok_undo (s : State) : history_ok s -> history_ok (undo s).
Proof.
  intros H. unfold undo.
  destruct (length (undoStack s) =? 0)%nat eqn:E; [exact H|].
  assert (Hne : undoStack s <> []).
  { intros C. rewrite C in E. discriminate. }
  destruct (stack_top Hne) as (rest & prev & Eu).
  assert (Hov : overlayImg s <> None).
  { intros C. destruct H as (_ & Hn & _). destruct (Hn C) as [C' _]. contradiction. }
  pose proof (currentSnapshot_ok H Hov) as Hcur.
  destruct H as (_ & _ & Hu & Hr).
  fields. rewrite Eu, pop_push. rewrite Eu in Hu.
  apply Forall_app in Hu. destruct Hu as [Hrest Hprev].
  apply history_ok_restore; fields.
  - inversion Hprev; assumption.
  - exact Hrest.
  - apply Forall_app. split; [exact Hr | constructor; [exact Hcur | constructor]].
Qed.

Lemma history_ok_redo (s : State) : history_ok s -> history_ok (redo s).
Proof.
  intros H. unfold redo.
  destruct (length (redoStack s) =? 0)%nat eqn:E; [exact H|].
  assert (Hne : redoStack s <> []).
  { intros C. rewrite C in E. discriminate. }
  destruct (stack_top Hne) as (rest & next & Er).
  assert (Hov : overlayImg s <> None).
  { intros C. destruct H as (_ & Hn & _). destruct (Hn C) as [_ C']. contradiction. }
  pose proof (currentSnapshot_ok H Hov) as Hcur.
  destruct H as (_ & _ & Hu & Hr).
  fields. rewrite Er, pop_push. rewrite Er in Hr.
  apply Forall_app in Hr. destruct Hr as [Hrest Hnext].
  apply history_ok_restore; fields.
  - inversion Hnext; assumption.
  - apply Forall_app. split; [exact Hu | constructor; [exact Hcur | constructor]].
  - exact Hrest.
Qed.

(** A handler that first calls [saveState] and then writes only the
    transform and the gesture variables. *)
Ltac after_saveState :=
  match goal with
  | |- history_ok ?t =>
      match t with
      | context [saveState ?s] =>
          apply (@history_ok_view (saveState s));
          [ unfold historyView; fields; reflexivity
          | apply history_ok_saveState; assumption ]
      end
  end.

Ltac unchanged :=
  match goal with
  | H : history_ok ?s |- history_ok _ =>
      first [ exact H
            | apply (@history_ok_view s);
              [ unfold historyView; fields; reflexivity | exact H ] ]
  end.

Lemma history_ok_cleared (s : State) :
  overlayImg s = None -> overlayOriginalImg s = None ->
  undoStack s = [] -> redoStack s = [] -> history_ok s.
Proof.
  intros E1 E2 E3 E4. unfold history_ok. rewrite E1, E2, E3, E4.
  repeat split; constructor.
Qed.

Lemma history_ok_performCrop (s : State) :
  history_ok s -> history_ok (stateOf (performCrop s)).
Proof.
  intros H. unfold performCrop.
  destruct (cropStart s) as [cs|]; [|exact H].
  destruct (cropEnd s) as [ce|]; [|exact H].
  destruct (overlayOriginalImg s) as [orig|] eqn:Eorig; [|exact H].
  destruct (cropSelection cs ce (overlayState s)) as [[[x1f x2f] y1f] y2f].
  destruct (cropPixels _ _ _) as [[[u1 u2] v1] v2].
  destruct (_ || _)%bool; fields; [unchanged|].
  destruct H as (Heq & Hnone & Hu & Hr).
  destruct (bgImg s); fields; unfold history_ok; fields;
    (repeat split; [discriminate | discriminate | exact Hu | exact Hr]).
Qed.

Lemma history_ok_step (s : State) (e : Event) :
  history_ok s -> history_ok (step s e).
Proof.
  intros H. destruct e; cbn [step].
  - (* background chosen *)
    unfold loadBackground. fields. destruct (overlayImg s); unchanged.
  - (* overlay chosen *)
    unfold loadOverlay. destruct (bgImg s); [|exact H].
    unfold saveState. fields. unfold history_ok. fields.
    repeat split; try discriminate; repeat constructor.
  - apply history_ok_cleared; reflexivity.
  - apply history_ok_cleared; reflexivity.
  - unfold smaller. destruct (overlayImg s); [|exact H].
    destruct (bgImg (assign _ (saveState s))); after_saveState.
  - unfold bigger. destruct (overlayImg s); [|exact H].
    destruct (bgImg (saveState s)); [destruct (_ || _)%bool|];
      first [after_saveState | apply history_ok_saveState; exact H].
  - unfold angleInputHandler. after_saveState.
  - unfold rotM5. after_saveState.
  - unfold rotP5. after_saveState.
  - unfold rotReset. after_saveState.
  - unfold flipHClick. after_saveState.
  - unfold flipVClick. after_saveState.
  - unfold cropClick. destruct (overlayImg s); [|exact H].
    destruct (negb (cropMode s)); [after_saveState | unchanged].
  - apply history_ok_undo, H.
  - apply history_ok_redo, H.
  - (* pointerdown *)
    unfold pointerdown.
    destruct (overlayImg s) as [ov|]; [|exact H].
    destruct (bgImg s); [|exact H].
    destruct (toLocal _ _ _ _) as [localX localY].
    destruct (cropMode (saveState s)).
    + destruct (overlayOriginalImg (saveState s));
        [destruct (_ && _)%bool|]; fields;
        first [after_saveState | apply history_ok_saveState; exact H].
    + destruct (classify _ _ _ _); fields;
        first [after_saveState | apply history_ok_saveState; exact H].
  - (* pointermove *)
    unfold pointermove.
    destruct (overlayImg s) as [ov|]; [|exact H].
    destruct (bgImg s) as [bg|]; [|exact H].
    destruct (cropping s); [unchanged|].
    destruct (resizing s); [unchanged|].
    destruct (dragging s); unchanged.
  - (* pointerup *)
    unfold pointerup. destruct (cropping s).
    + apply history_ok_performCrop. unchanged.
    + destruct (dragging s); fields; destruct (resizing s); fields; unchanged.
Qed.

Lemma history_ok_initial : history_ok initialState.
Proof. apply history_ok_cleared; reflexivity. Qed.

Lemma reachable_history_ok (s : State) : reachable s -> history_ok s.
Proof.
  induction 1 as [|s e _ IH]; [apply history_ok_initial | apply history_ok_step, IH].
Qed.

(* ===================================================================== *)
(** * History: undo and redo *)
(* ===================================================================== *)

Lemma state_eq (s t : State) :
  bgImg s = bgImg t -> overlayImg s = overlayImg t ->
  overlayOriginalImg s = overlayOriginalImg t ->
  overlayState s = overlayState t ->
  dragging s = dragging t -> dragData s = dragData t ->
  resizing s = resizing t -> resizeHandle s = resizeHandle t ->
  cropMode s = cropMode t -> cropping s = cropping t ->
  cropStart s = cropStart t -> cropEnd s = cropEnd t ->
  undoStack s = undoStack t -> redoStack s = redoStack t ->
  s = t.
Proof. destruct s, t; cbn; intros; subst; reflexivity. Qed.

Lemma restore_frame (sn : Snapshot) (s : State) :
  bgImg (restore sn s) = bgImg s
  /\ dragging (restore sn s) = dragging s
  /\ dragData (restore sn s) = dragData s
  /\ resizing (restore sn s) = resizing s
  /\ resizeHandle (restore sn s) = resizeHandle s
  /\ cropMode (restore sn s) = cropMode s
  /\ cropping (restore sn s) = cropping s
  /\ cropStart (restore sn s) = cropStart s
  /\ cropEnd (restore sn s) = cropEnd s
  /\ undoStack (restore sn s) = undoStack s
  /\ redoStack (restore sn s) = redoStack s.
Proof. destruct sn; cbn; repeat split. Qed.

(** What [undo] does to any state with something to undo. *)
Lemma undo_effect (s : State) :
  undoStack s <> [] ->
  exists prev rest,
    undoStack s = push rest prev
    /\ undo s = restore prev
                  (set_undoStack rest
                     (set_redoStack (push (redoStack s) (currentSnapshot s)) s)).
Proof.
  intros Hne. destruct (stack_top Hne) as (rest & prev & Eu).
  exists prev, rest. split; [exact Eu|].
  unfold undo. rewrite Eu, push_length. cbn [Nat.eqb]. fields.
  rewrite Eu, pop_push. reflexivity.
Qed.

Lemma redo_effect (s : State) :
  redoStack s <> [] ->
  exists next rest,
    redoStack s = push rest next
    /\ redo s = restore next
                  (set_redoStack rest
                     (set_undoStack (push (undoStack s) (currentSnapshot s)) s)).
Proof.
  intros Hne. destruct (stack_top Hne) as (rest & next & Er).
  exists next, rest. split; [exact Er|].
  unfold redo. rewrite Er, push_length. cbn [Nat.eqb]. fields.
  rewrite Er, pop_push. reflexivity.
Qed.

(** [redo] undoes [undo] on a state that satisfies the invariant. *)
Lemma redo_undo (s : State) :
  history_ok s -> undoStack s <> [] -> redo (undo s) = s.
Proof.
  intros H Hne.
  destruct (@undo_effect s Hne) as (prev & rest & Eu & Eundo).
  assert (Hov : overlayImg s <> None).
  { intros C. destruct H as (_ & Hn & _). destruct (Hn C) as [C' _]. contradiction. }
  destruct H as (Heq & _ & Hu & _).
  rewrite Eu in Hu. apply Forall_app in Hu. destruct Hu as [_ Hprev].
  inversion Hprev as [|? ? Hp _]; subst.
  destruct prev as [d o t|]; [|contradiction]. cbn in Hp. subst o.
  destruct (overlayImg s) as [ov|] eqn:Eov; [|contradiction].
  assert (Ecur : currentSnapshot s = Snap (src ov) (src ov) (overlayState s)).
  { unfold currentSnapshot. rewrite <- Heq, Eov. reflexivity. }
  rewrite Eundo, Ecur.
  unfold redo, restore. fields.
  rewrite push_length. cbn [Nat.eqb]. rewrite pop_push.
  unfold currentSnapshot. fields. rewrite src_loadImage, loadImage_src.
  apply state_eq; fields; try reflexivity; congruence.
Qed.

(** And [undo] undoes [redo]. *)
Lemma undo_redo (s : State) :
  history_ok s -> redoStack s <> [] -> undo (redo s) = s.
Proof.
  intros H Hne.
  destruct (@redo_effect s Hne) as (next & rest & Er & Eredo).
  assert (Hov : overlayImg s <> None).
  { intros C. destruct H as (_ & Hn & _). destruct (Hn C) as [_ C']. contradiction. }
  destruct H as (Heq & _ & _ & Hr).
  rewrite Er in Hr. apply Forall_app in Hr. destruct Hr as [_ Hnext].
  inversion Hnext as [|? ? Hp _]; subst.
  destruct next as [d o t|]; [|contradiction]. cbn in Hp. subst o.
  destruct (overlayImg s) as [ov|] eqn:Eov; [|contradiction].
  assert (Ecur : currentSnapshot s = Snap (src ov) (src ov) (overlayState s)).
  { unfold currentSnapshot. rewrite <- Heq, Eov. reflexivity. }
  rewrite Eredo, Ecur.
  unfold undo, restore. fields.
  rewrite push_length. cbn [Nat.eqb]. rewrite pop_push.
  unfold currentSnapshot. fields. rewrite src_loadImage, loadImage_src.
  apply state_eq; fields; try reflexivity; congruence.
Qed.

Lemma undo_length (s : State) :
  undoStack s <> [] -> S (length (undoStack (undo s))) = length (undoStack s).
Proof.
  intros Hne. destruct (@undo_effect s Hne) as (prev & rest & Eu & Eundo).
  rewrite Eundo.
  destruct (restore_frame prev
              (set_undoStack rest
                 (set_redoStack (push (redoStack s) (currentSnapshot s)) s)))
    as (_ & _ & _ & _ & _ & _ & _ & _ & _ & Hus & _).
  rewrite Hus. fields. rewrite Eu, push_length. reflexivity.
Qed.

Lemma repeatedly_last (n : nat) (f : State -> State) (s : State) :
  repeatedly (S n) f s = f (repeatedly n f s).
Proof.
  revert s. induction n as [|n IH]; intros s; [reflexivity|].
  change (repeatedly (S (S n)) f s) with (repeatedly (S n) f (f s)).
  rewrite IH. reflexivity.
Qed.

Lemma redo_undo_depth (k : nat) (s : State) :
  history_ok s -> (k <= length (undoStack s))%nat ->
  repeatedly k redo (repeatedly k undo s) = s.
Proof.
  revert s. induction k as [|k IH]; intros s H Hk; [reflexivity|].
  assert (Hne : undoStack s <> []).
  { intros C. rewrite C in Hk. simpl in Hk. lia. }
  rewrite repeatedly_last.
  change (repeatedly (S k) undo s) with (repeatedly k undo (undo s)).
  rewrite IH.
  - apply redo_undo; assumption.
  - apply history_ok_undo, H.
  - pose proof (@undo_length s Hne). lia.
Qed.

(** C1 -- History round trip.  [undo] leaves a state with an empty undo
    stack as it is.  On any other state it pushes the live state (or the
    null snapshot, when no overlay is loaded) onto the redo stack and pops
    the top of the undo stack.  In every reachable state with a non-empty
    undo stack, [undo] followed by [redo] gives back the overlay raster and
    every field of the transform (indeed the whole state); so do [k] undos
    followed by [k] redos for every [k] up to the size of the undo stack,
    and so does any number of undo-redo pairs in a row. *)
Theorem undo_redo_round_trip :
  (forall s, undoStack s = [] -> undo s = s)
  /\ (forall s, undoStack s <> [] ->
        exists prev,
          pop (undoStack s) = Some (prev, undoStack (undo s))
          /\ redoStack (undo s) = push (redoStack s) (currentSnapshot s)
          /\ (overlayImg s = None -> currentSnapshot s = NullSnap)
          /\ (forall ov orig,
                overlayImg s = Some ov -> overlayOriginalImg s = Some orig ->
                currentSnapshot s = Snap (src ov) (src orig) (overlayState s)))
  /\ (forall s, reachable s -> undoStack s <> [] ->
        overlayImg (redo (undo s)) = overlayImg s
        /\ overlayState (redo (undo s)) = overlayState s
        /\ redo (undo s) = s)
  /\ (forall s k, reachable s -> (k <= length (undoStack s))%nat ->
        overlayImg (repeatedly k redo (repeatedly k undo s)) = overlayImg s
        /\ overlayState (repeatedly k redo (repeatedly k undo s)) = overlayState s
        /\ repeatedly k redo (repeatedly k undo s) = s)
  /\ (forall s n, reachable s -> undoStack s <> [] ->
        repeatedly n (fun s0 => redo (undo s0)) s = s).
Proof.
  split; [|split; [|split; [|split]]].
  - intros s E. unfold undo. rewrite E. reflexivity.
  - intros s Hne. destruct (@undo_effect s Hne) as (prev & rest & Eu & Eundo).
    exists prev.
    destruct (restore_frame prev
                (set_undoStack rest
                   (set_redoStack (push (redoStack s) (currentSnapshot s)) s)))
      as (_ & _ & _ & _ & _ & _ & _ & _ & _ & Hus & Hrs).
    rewrite Eundo, Hus, Hrs. fields.
    split; [rewrite Eu; apply pop_push|].
    split; [reflexivity|].
    unfold currentSnapshot. split.
    + intros ->. reflexivity.
    + intros ov orig -> ->. reflexivity.
  - intros s Hr Hne.
    rewrite (@redo_undo s (reachable_history_ok Hr) Hne). repeat split.
  - intros s k Hr Hk.
    rewrite (@redo_undo_depth k s (reachable_history_ok Hr) Hk). repeat split.
  - intros s n Hr Hne. induction n as [|n IH]; [reflexivity|].
    cbn [repeatedly]. rewrite (@redo_undo s (reachable_history_ok Hr) Hne).
    exact IH.
Qed.

Lemma sampleLoaded_reachable : reachable sampleLoaded.
Proof. unfold sampleLoaded. do 2 apply reachable_step. apply reachable_init. Qed.

Lemma sampleLoaded_undoStack : length (undoStack sampleLoaded) = 1%nat.
Proof. reflexivity. Qed.

Lemma undo_redo_round_trip_witness :
  reachable sampleLoaded
  /\ undoStack sampleLoaded <> []
  /\ redo (undo sampleLoaded) = sampleLoaded.
Proof.
  split; [exact sampleLoaded_reachable|].
  assert (Hne : undoStack sampleLoaded <> []).
  { intros C. pose proof sampleLoaded_undoStack as L. rewrite C in L. discriminate L. }
  split; [exact Hne|].
  destruct undo_redo_round_trip as (_ & _ & Hrt & _ & _).
  destruct (Hrt sampleLoaded sampleLoaded_reachable Hne) as (_ & _ & E).
  exact E.
Defined.

(** C9 -- Single raster lineage.  In every reachable state the current
    overlay and the original overlay are the same image, or both are
    absent. *)
Theorem single_raster_lineage (s : State) :
  reachable s ->
  overlayImg s = overlayOriginalImg s
  /\ (overlayImg s = None <-> overlayOriginalImg s = None).
Proof.
  intros Hr. destruct (reachable_history_ok Hr) as (Heq & _).
  split; [exact Heq|]. rewrite Heq. tauto.
Qed.

Lemma single_raster_lineage_witness :
  overlayImg sampleLoaded = overlayOriginalImg sampleLoaded.
Proof.
  exact (proj1 (single_raster_lineage sampleLoaded_reachable)).
Defined.

(* ===================================================================== *)
(** * History: what a pointerdown records *)
(* ===================================================================== *)

Lemma saveState_loaded (s : State) (ov orig : Image) :
  overlayImg s = Some ov -> overlayOriginalImg s = Some orig ->
  saveState s
  = set_redoStack []
      (set_undoStack
         (push (undoStack s) (Snap (src ov) (src orig) (overlayState s))) s).
Proof. intros E1 E2. unfold saveState. rewrite E1, E2. reflexivity. Qed.

(** The history-independent part of the state is what [saveState] leaves
    alone, and what a 'pointerdown' may write afterwards are the gesture
    variables only. *)
Lemma pointerdown_frame (px py : R) (s : State) :
  overlayState (stateOf (pointerdown px py s)) = overlayState s
  /\ overlayImg (stateOf (pointerdown px py s)) = overlayImg s
  /\ overlayOriginalImg (stateOf (pointerdown px py s)) = overlayOriginalImg s
  /\ bgImg (stateOf (pointerdown px py s)) = bgImg s
  /\ undoStack (stateOf (pointerdown px py s))
     = undoStack (match overlayImg s, bgImg s with
                  | Some _, Some _ => saveState s
                  | _, _ => s
                  end)
  /\ redoStack (stateOf (pointerdown px py s))
     = redoStack (match overlayImg s, bgImg s with
                  | Some _, Some _ => saveState s
                  | _, _ => s
                  end).
Proof.
  assert (Hsave : overlayState (saveState s) = overlayState s
                  /\ overlayImg (saveState s) = overlayImg s
                  /\ overlayOriginalImg (saveState s) = overlayOriginalImg s
                  /\ bgImg (saveState s) = bgImg s).
  { unfold saveState.
    destruct (overlayImg s) eqn:E1, (overlayOriginalImg s) eqn:E2; fields;
      rewrite ?E1, ?E2; intuition congruence. }
  destruct Hsave as (S1 & S2 & S3 & S4).
  unfold pointerdown.
  destruct (overlayImg s) as [ov|] eqn:Eov; [|fields; repeat split; try reflexivity; assumption].
  destruct (bgImg s) as [bg|] eqn:Ebg; [|fields; repeat split; try reflexivity; assumption].
  destruct (toLocal _ _ _ _) as [localX localY].
  destruct (cropMode (saveState s)).
  - destruct (overlayOriginalImg (saveState s)) eqn:Eorig;
      [destruct (_ && _)%bool|]; fields; intuition congruence.
  - destruct (classify _ _ _ _); fields; intuition congruence.
Qed.

(** What a 'pointerdown' does to the history in any state whose two
    overlay references and background are set. *)
Lemma pointerdown_records (s : State) (px py : R) (ov orig bg : Image) :
  overlayImg s = Some ov ->
  overlayOriginalImg s = Some orig ->
  bgImg s = Some bg ->
  undoStack (stateOf (pointerdown px py s))
  = push (undoStack s) (Snap (src ov) (src orig) (overlayState s))
  /\ redoStack (stateOf (pointerdown px py s)) = []
  /\ currentSnapshot (stateOf (pointerdown px py s))
     = Snap (src ov) (src orig) (overlayState s)
  /\ (cropMode s = false ->
      classify (fst (toLocal px py ov (overlayState s)))
               (snd (toLocal px py ov (overlayState s)))
               (IZR (width ov) * Rabs (scale (overlayState s)))
               (IZR (height ov) * Rabs (scale (overlayState s))) = HitNothing ->
      pointerdown px py s = Done (saveState s)).
Proof.
  intros Eov Eorig Ebg.
  destruct (pointerdown_frame px py s) as (F1 & F2 & F3 & F4 & F5 & F6).
  rewrite Eov, Ebg in F5, F6.
  rewrite (saveState_loaded s Eov Eorig) in F5, F6. fields.
  split; [exact F5|]. split; [exact F6|]. split.
  - unfold currentSnapshot. rewrite F1, F2, F3, Eov, Eorig. reflexivity.
  - intros Hmode Hmiss.
    unfold pointerdown. rewrite Eov, Ebg.
    rewrite (saveState_loaded s Eov Eorig). fields.
    destruct (toLocal px py ov (overlayState s)) as [localX localY].
    cbn [fst snd] in Hmiss. rewrite Hmode, Hmiss. reflexivity.
Qed.

(** C10 -- In every reachable state with a background and an overlay
    loaded, a 'pointerdown' pushes the state before the gesture onto the
    undo stack and empties the redo stack, wherever the pointer is, and
    never writes the transform or the images.  When, outside crop mode, the
    pointer hits neither a handle nor the inside of the box, the handler
    does nothing but that: no gesture starts, the redo history is gone,
    and the new top of the undo stack is a copy of the live state. *)
Theorem pointerdown_always_records (s : State) (px py : R) (ov bg : Image) :
  reachable s ->
  overlayImg s = Some ov ->
  bgImg s = Some bg ->
  undoStack (stateOf (pointerdown px py s))
  = push (undoStack s) (Snap (src ov) (src ov) (overlayState s))
  /\ redoStack (stateOf (pointerdown px py s)) = []
  /\ overlayState (stateOf (pointerdown px py s)) = overlayState s
  /\ overlayImg (stateOf (pointerdown px py s)) = overlayImg s
  /\ overlayOriginalImg (stateOf (pointerdown px py s)) = overlayOriginalImg s
  /\ pop (undoStack (stateOf (pointerdown px py s)))
     = Some (currentSnapshot (stateOf (pointerdown px py s)), undoStack s)
  /\ (cropMode s = false ->
      classify (fst (toLocal px py ov (overlayState s)))
               (snd (toLocal px py ov (overlayState s)))
               (IZR (width ov) * Rabs (scale (overlayState s)))
               (IZR (height ov) * Rabs (scale (overlayState s))) = HitNothing ->
      pointerdown px py s = Done (saveState s)
      /\ dragging (stateOf (pointerdown px py s)) = dragging s
      /\ resizing (stateOf (pointerdown px py s)) = resizing s
      /\ cropping (stateOf (pointerdown px py s)) = cropping s
      /\ cropMode (stateOf (pointerdown px py s)) = cropMode s).
Proof.
  intros Hr Eov Ebg.
  assert (Eorig : overlayOriginalImg s = Some ov).
  { destruct (reachable_history_ok Hr) as (Heq & _). rewrite <- Heq. exact Eov. }
  destruct (pointerdown_frame px py s) as (F1 & F2 & F3 & _).
  destruct (@pointerdown_records s px py ov ov bg Eov Eorig Ebg)
    as (Hu & Hredo & Hcur & Hmiss).
  split; [exact Hu|]. split; [exact Hredo|]. split; [exact F1|].
  split; [exact F2|]. split; [exact F3|].
  split; [rewrite Hu, Hcur; apply pop_push|].
  intros Hmode Hhit. rewrite (Hmiss Hmode Hhit).
  split; [reflexivity|].
  rewrite (saveState_loaded s Eov Eorig). fields. repeat split.
Qed.

Lemma sampleUndone_reachable : reachable sampleUndone.
Proof. unfold sampleUndone. apply reachable_step, sampleLoaded_reachable. Qed.

Lemma sampleUndone_transform :
  overlayState sampleUndone = mkTransform 20 20 1 0 false false.
Proof.
  assert (E : Rmin (Rmin (200 / 2) (200 / 1)) 1 = 1).
  { rewrite (Rmin_left (200 / 2) (200 / 1)) by lra. apply Rmin_right. lra. }
  transitivity (mkTransform (Rmin 20 (200 - 2 * Rmin (Rmin (200 / 2) (200 / 1)) 1))
                            (Rmin 20 (200 - 1 * Rmin (Rmin (200 / 2) (200 / 1)) 1))
                            (Rmin (Rmin (200 / 2) (200 / 1)) 1) 0 false false).
  { lazy. reflexivity. }
  rewrite !E.
  rewrite (Rmin_left 20 (200 - 2 * 1)), (Rmin_left 20 (200 - 1 * 1)) by lra.
  reflexivity.
Qed.

(** A click at (100, 100), far from the 2 x 1 overlay at (20, 20), after an
    undo: the redo entry is lost and the undo stack gets a copy of the live
    state. *)
Lemma pointerdown_always_records_witness :
  reachable sampleUndone
  /\ length (redoStack sampleUndone) = 1%nat
  /\ undoStack sampleUndone = []
  /\ redoStack (stateOf (pointerdown 100 100 sampleUndone)) = []
  /\ undoStack (stateOf (pointerdown 100 100 sampleUndone))
     = [Snap (src (ChromaKey.applyGreyKey sampleRaster))
             (src (ChromaKey.applyGreyKey sampleRaster))
             (overlayState sampleUndone)]
  /\ pointerdown 100 100 sampleUndone = Done (saveState sampleUndone).
Proof.
  assert (Eov : overlayImg sampleUndone
                = Some (ChromaKey.applyGreyKey sampleRaster))
    by (lazy; reflexivity).
  assert (Ebg : bgImg sampleUndone = Some sampleBackground)
    by (lazy; reflexivity).
  assert (Eundo : undoStack sampleUndone = []) by (lazy; reflexivity).
  assert (Emode : cropMode sampleUndone = false) by (lazy; reflexivity).
  split; [exact sampleUndone_reachable|].
  split; [lazy; reflexivity|]. split; [exact Eundo|].
  destruct (@pointerdown_always_records sampleUndone 100 100
              (ChromaKey.applyGreyKey sampleRaster)
              sampleBackground sampleUndone_reachable Eov Ebg)
    as (Hu & Hredo & _ & _ & _ & _ & Hmiss).
  split; [exact Hredo|]. split; [rewrite Hu, Eundo; reflexivity|].
  apply Hmiss; [exact Emode|].
  rewrite sampleUndone_transform.
  unfold toLocal, classify.
  cbn [x y scale angle fst snd hitHandle].
  change (width (ChromaKey.applyGreyKey sampleRaster)) with 2%Z.
  change (height (ChromaKey.applyGreyKey sampleRaster)) with 1%Z.
  replace ((- 0 * PI) / 180) with 0 by lra.
  rewrite cos_0, sin_0, Rabs_R1.
  repeat match goal with
         | |- context [Rleb (Rabs ?v) ?b] =>
             rewrite (@Rleb_false (Rabs v) b)
               by (apply Rlt_le_trans with v; [lra | apply Rle_abs])
         end.
  reflexivity.
Defined.

(* ===================================================================== *)
(** * Angles *)
(* ===================================================================== *)

Lemma whileAbove_step (a : R) :
  whileAbove a = if Rgt_dec a 180 then whileAbove (a - 360) else a.
Proof. funelim (whileAbove a); rewrite Heq; reflexivity. Qed.

Lemma whileBelow_step (a : R) :
  whileBelow a = if Rlt_dec a (- 180) then whileBelow (a + 360) else a.
Proof. funelim (whileBelow a); rewrite Heq; reflexivity. Qed.

Lemma whileAbove_spec (a : R) :
  whileAbove a <= 180
  /\ (a <= 180 -> whileAbove a = a)
  /\ (180 < a -> - 180 < whileAbove a).
Proof.
  funelim (whileAbove a).
  - destruct H as (H1 & H2 & H3).
    split; [exact H1|]. split; [intros Hle; lra|]. intros _.
    destruct (Rle_or_lt (a - 360) 180) as [Hle|Hgt].
    + rewrite (H2 Hle). lra.
    + apply H3, Hgt.
  - split; [lra|]. split; [reflexivity | intros Hgt; lra].
Qed.

Lemma whileBelow_spec (a : R) :
  - 180 <= whileBelow a
  /\ (- 180 <= a -> whileBelow a = a)
  /\ (a < - 180 -> whileBelow a < 180).
Proof.
  funelim (whileBelow a).
  - destruct H as (H1 & H2 & H3).
    split; [exact H1|]. split; [intros Hle; lra|]. intros _.
    destruct (Rle_or_lt (- 180) (a + 360)) as [Hle|Hgt].
    + rewrite (H2 Hle). lra.
    + apply H3, Hgt.
  - split; [lra|]. split; [reflexivity | intros Hlt; lra].
Qed.

Lemma normalizeAngle_range (a : R) : - 180 <= normalizeAngle a <= 180.
Proof.
  unfold normalizeAngle.
  destruct (whileAbove_spec a) as (A1 & _ & _).
  destruct (whileBelow_spec (whileAbove a)) as (B1 & B2 & B3).
  split; [exact B1|].
  destruct (Rle_or_lt (- 180) (whileAbove a)) as [Hle|Hlt].
  - rewrite (B2 Hle). exact A1.
  - pose proof (B3 Hlt). lra.
Qed.

Lemma normalizeAngle_in_range (a : R) :
  - 180 <= a <= 180 -> normalizeAngle a = a.
Proof.
  intros [Hlo Hhi]. unfold normalizeAngle.
  destruct (whileAbove_spec a) as (_ & A2 & _). rewrite (A2 Hhi).
  destruct (whileBelow_spec a) as (_ & B2 & _). apply B2, Hlo.
Qed.

(** Over exact arithmetic [normalizeAngle] returns for every input, its
    result lies in [[-180, 180]], it is idempotent, and it sends 270 to -90
    and -270 to 90. *)
Lemma normalizeAngle_exact :
  (forall a, - 180 <= normalizeAngle a <= 180)
  /\ (forall a, normalizeAngle (normalizeAngle a) = normalizeAngle a)
  /\ normalizeAngle 270 = - 90
  /\ normalizeAngle (- 270) = 90.
Proof.
  split; [exact normalizeAngle_range|].
  split; [intros a; apply normalizeAngle_in_range, normalizeAngle_range|].
  split.
  - unfold normalizeAngle.
    rewrite whileAbove_step. destruct (Rgt_dec 270 180); [|lra].
    rewrite whileAbove_step. destruct (Rgt_dec (270 - 360) 180); [lra|].
    rewrite whileBelow_step. destruct (Rlt_dec (270 - 360) (- 180)); lra.
  - unfold normalizeAngle.
    rewrite whileAbove_step. destruct (Rgt_dec (- 270) 180); [lra|].
    rewrite whileBelow_step. destruct (Rlt_dec (- 270) (- 180)); [|lra].
    rewrite whileBelow_step. destruct (Rlt_dec (- 270 + 360) (- 180)); lra.
Qed.

(** The rotation buttons keep an angle that is in range in range. *)
Lemma rotation_buttons_in_range (s : State) :
  - 180 <= angle (overlayState (rotM5 s)) <= 180
  /\ - 180 <= angle (overlayState (rotP5 s)) <= 180
  /\ angle (overlayState (rotReset s)) = 0.
Proof.
  unfold rotM5, rotP5, rotReset. fields.
  repeat split; try apply normalizeAngle_range.
Qed.

(** The angle the 'input' handler stores. *)
Lemma angleInputHandler_angle (v : R) (s : State) :
  angle (overlayState (angleInputHandler (Some v) s))
  = (let a := if Rgtb v 180 then v - 360 else v in
     if Rltb a (- 180) then a + 360 else a).
Proof. unfold angleInputHandler. fields. reflexivity. Qed.

(** One step of 360 is enough for the inputs between -540 and 540. *)
Lemma angleInput_one_turn (v : R) (s : State) :
  - 540 <= v <= 540 ->
  - 180 <= angle (overlayState (angleInputHandler (Some v) s)) <= 180.
Proof.
  intros Hv. rewrite angleInputHandler_angle. unfold Rgtb, Rltb. cbv zeta.
  destruct (Rlt_dec 180 v); [destruct (Rlt_dec (v - 360) (- 180))
                            | destruct (Rlt_dec v (- 180))]; lra.
Qed.

(** C7 -- The angle input does not keep the angle in [[-180, 180]]: for the
    value 1000 the handler subtracts 360 once and stores 640, whatever the
    state before. *)
Theorem angleInput_out_of_range (s : State) :
  angle (overlayState (angleInputHandler (Some 1000) s)) = 640
  /\ ~ (- 180 <= angle (overlayState (angleInputHandler (Some 1000) s)) <= 180).
Proof.
  assert (E : angle (overlayState (angleInputHandler (Some 1000) s)) = 640).
  { rewrite angleInputHandler_angle. cbv zeta.
    rewrite (Rgtb_true (a := 1000) (b := 180)) by lra.
    rewrite Rltb_false by lra. lra. }
  split; [exact E|]. rewrite E. lra.
Qed.

Module Binary64Facts.

Import Binary64.
Local Open Scope float_scope.

(** C8 -- Over binary64 [normalizeAngle] does not return for the finite
    input 1e21: [1e21 - 360] rounds to [1e21], the first loop never leaves
    its body, and no amount of fuel gives a result.  The input reaches the
    function: the angle input stores [1e21 - 360], and the +5 button calls
    [normalizeAngle] on that plus 5, which is [1e21] again. *)
Theorem normalizeAngle_diverges :
  (1e21 - 360 = 1e21)
  /\ (180 <? 1e21) = true
  /\ (1e21 + 5 = 1e21)
  /\ (forall fuel, normalizeAngle fuel 1e21 = None).
Proof.
  assert (Hsub : 1e21 - 360 = 1e21) by (vm_compute; reflexivity).
  assert (Hgt : (180 <? 1e21) = true) by (vm_compute; reflexivity).
  split; [exact Hsub|]. split; [exact Hgt|].
  split; [vm_compute; reflexivity|].
  assert (Hloop : forall fuel, whileAbove fuel 1e21 = None).
  { induction fuel as [|fuel IH]; [reflexivity|].
    cbn [whileAbove]. rewrite Hgt, Hsub. exact IH. }
  intros fuel. unfold normalizeAngle. rewrite Hloop. reflexivity.
Qed.

(** On the inputs of the specification's scenarios the binary64 loops end
    and agree with the exact ones. *)
Lemma normalizeAngle_scenarios :
  normalizeAngle 2 270 = Some (-90) /\ normalizeAngle 2 (-270) = Some 90.
Proof. split; vm_compute; reflexivity. Qed.

End Binary64Facts.

(* ===================================================================== *)
(** * Geometry: drag and resize *)
(* ===================================================================== *)

Lemma clamp_inactive (lo hi v : R) : lo <= v <= hi -> clamp lo hi v = v.
Proof.
  intros [H1 H2]. unfold clamp.
  rewrite (Rmin_left v hi) by exact H2. apply Rmax_right, H1.
Qed.

Lemma clamp_bounds (lo hi v : R) : lo <= hi -> lo <= clamp lo hi v <= hi.
Proof.
  intros H. unfold clamp. split; [apply Rmax_l|].
  apply Rmax_lub; [exact H | apply Rmin_r].
Qed.

Lemma radians_zero : (0 * PI) / 180 = 0.
Proof. lra. Qed.

(** The drag branch of 'pointermove', as one equation. *)
Lemma pointermove_dragging (s : State) (px py : R) (ov bg : Image) :
  overlayImg s = Some ov -> bgImg s = Some bg ->
  cropping s = false -> resizing s = false -> dragging s = true ->
  pointermove px py s
  = assign (set_y (clamp 0 (IZR (height bg)
                             - IZR (height ov) * Rabs (scale (overlayState s)))
               (snd (dragOrigin px py
                       (IZR (width ov) * Rabs (scale (overlayState s)))
                       (IZR (height ov) * Rabs (scale (overlayState s)))
                       ((angle (overlayState s) * PI) / 180) (dragData s)))))
      (assign (set_x (clamp 0 (IZR (width bg)
                                - IZR (width ov) * Rabs (scale (overlayState s)))
                  (fst (dragOrigin px py
                          (IZR (width ov) * Rabs (scale (overlayState s)))
                          (IZR (height ov) * Rabs (scale (overlayState s)))
                          ((angle (overlayState s) * PI) / 180) (dragData s)))))
         s).
Proof.
  intros Eov Ebg Ec Er Ed. unfold pointermove.
  rewrite Eov, Ebg, Ec, Er, Ed. reflexivity.
Qed.

(** C4 -- Drag rule.  While a drag is in progress a 'pointermove' leaves
    the anchor offset stored at the start of the gesture as it is; the new
    centre is the pointer minus the anchor rotated by plus the angle, the
    new origin is the new centre minus half the scaled extents, clamped on
    each axis on its own into [[0, bgWidth - w]] and [[0, bgHeight - h]];
    scale, angle and flips are not written.  The anchor is the pointer's
    local offset at the 'pointerdown' that started the drag.  For a 100 x 50
    overlay at scale 1, angle 0, no flips, anchor (10, 5) and the pointer at
    (80, 70) the origin before the clamp is (20, 40). *)
Theorem drag_rule :
  (forall (s : State) (px py : R) (ov bg : Image),
     overlayImg s = Some ov -> bgImg s = Some bg ->
     cropping s = false -> resizing s = false -> dragging s = true ->
     let w := IZR (width ov) * Rabs (scale (overlayState s)) in
     let h := IZR (height ov) * Rabs (scale (overlayState s)) in
     let theta := (angle (overlayState s) * PI) / 180 in
     let newCx := px - (fst (dragData s) * cos theta - snd (dragData s) * sin theta) in
     let newCy := py - (fst (dragData s) * sin theta + snd (dragData s) * cos theta) in
     dragData (pointermove px py s) = dragData s
     /\ dragging (pointermove px py s) = true
     /\ dragOrigin px py w h theta (dragData s) = (newCx - w / 2, newCy - h / 2)
     /\ x (overlayState (pointermove px py s))
        = Rmax 0 (Rmin (newCx - w / 2) (IZR (width bg) - w))
     /\ y (overlayState (pointermove px py s))
        = Rmax 0 (Rmin (newCy - h / 2) (IZR (height bg) - h))
     /\ (0 <= newCx - w / 2 <= IZR (width bg) - w ->
         x (overlayState (pointermove px py s)) = newCx - w / 2)
     /\ (0 <= newCy - h / 2 <= IZR (height bg) - h ->
         y (overlayState (pointermove px py s)) = newCy - h / 2)
     /\ scale (overlayState (pointermove px py s)) = scale (overlayState s)
     /\ angle (overlayState (pointermove px py s)) = angle (overlayState s)
     /\ flipH (overlayState (pointermove px py s)) = flipH (overlayState s)
     /\ flipV (overlayState (pointermove px py s)) = flipV (overlayState s))
  /\ (forall (s : State) (px py : R) (ov orig bg : Image),
        overlayImg s = Some ov -> overlayOriginalImg s = Some orig ->
        bgImg s = Some bg -> cropMode s = false ->
        classify (fst (toLocal px py ov (overlayState s)))
                 (snd (toLocal px py ov (overlayState s)))
                 (IZR (width ov) * Rabs (scale (overlayState s)))
                 (IZR (height ov) * Rabs (scale (overlayState s))) = HitInside ->
        dragging (stateOf (pointerdown px py s)) = true
        /\ dragData (stateOf (pointerdown px py s))
           = toLocal px py ov (overlayState s))
  /\ dragOrigin 80 70 (100 * Rabs 1) (50 * Rabs 1) ((0 * PI) / 180) (10, 5)
     = (20, 40)
  /\ x (overlayState (pointermove 80 70 sampleDrag)) = 20
  /\ y (overlayState (pointermove 80 70 sampleDrag)) = 40.
Proof.
  assert (Hex : dragOrigin 80 70 (100 * Rabs 1) (50 * Rabs 1) ((0 * PI) / 180) (10, 5)
                = (20, 40)).
  { unfold dragOrigin. cbn [fst snd].
    rewrite radians_zero, cos_0, sin_0, Rabs_R1. f_equal; lra. }
  split; [|split; [|split; [exact Hex|]]].
  - intros s px py ov bg Eov Ebg Ec Er Ed. cbv zeta.
    rewrite (@pointermove_dragging s px py ov bg Eov Ebg Ec Er Ed).
    unfold dragOrigin, clamp. fields.
    split; [reflexivity|]. split; [exact Ed|]. split; [reflexivity|].
    split; [reflexivity|]. split; [reflexivity|].
    split; [|split; [|repeat split]].
    + intros [H1 H2]. rewrite Rmin_left by exact H2. apply Rmax_right, H1.
    + intros [H1 H2]. rewrite Rmin_left by exact H2. apply Rmax_right, H1.
  - intros s px py ov orig bg Eov Eorig Ebg Emode Hhit.
    unfold pointerdown. rewrite Eov, Ebg.
    rewrite (saveState_loaded s Eov Eorig). fields.
    destruct (toLocal px py ov (overlayState s)) as [localX localY].
    cbn [fst snd] in Hhit. rewrite Emode, Hhit. fields. split; reflexivity.
  - assert (E : pointermove 80 70 sampleDrag
                = assign (set_y (clamp 0 (200 - 50 * Rabs 1)
                           (snd (dragOrigin 80 70 (100 * Rabs 1) (50 * Rabs 1)
                                   ((0 * PI) / 180) (10, 5)))))
                    (assign (set_x (clamp 0 (200 - 100 * Rabs 1)
                              (fst (dragOrigin 80 70 (100 * Rabs 1) (50 * Rabs 1)
                                      ((0 * PI) / 180) (10, 5)))))
                            sampleDrag)).
    { reflexivity. }
    rewrite E, Hex. fields. cbn [fst snd]. rewrite Rabs_R1.
    split; apply clamp_inactive; lra.
Qed.

Lemma drag_rule_witness :
  dragData (pointermove 80 70 sampleDrag) = (10, 5)
  /\ x (overlayState (pointermove 80 70 sampleDrag)) = 20
  /\ y (overlayState (pointermove 80 70 sampleDrag)) = 40.
Proof.
  destruct drag_rule as (Hgen & _ & _ & Hx & Hy).
  destruct (Hgen sampleDrag 80 70 (mkImage 100 50 []) (mkImage 200 200 [])
              eq_refl eq_refl eq_refl eq_refl eq_refl) as (Hanchor & _).
  split; [exact Hanchor|]. split; [exact Hx | exact Hy].
Defined.

(** The two steps that bound the scale are a clamp. *)
Lemma resizeScale_clamp (px py cx cy angleRad : R) (ov bg : Image) :
  resizeScale px py cx cy angleRad ov bg
  = clamp 0.05
      (Rmin (IZR (width bg) / IZR (width ov)) (IZR (height bg) / IZR (height ov)))
      (Rmin ((2 * Rabs ((px - cx) * cos (- angleRad) - (py - cy) * sin (- angleRad)))
             / IZR (width ov))
            ((2 * Rabs ((px - cx) * sin (- angleRad) + (py - cy) * cos (- angleRad)))
             / IZR (height ov))).
Proof.
  unfold resizeScale, clamp. cbv zeta.
  match goal with |- context [Rltb ?v 0.05] => set (c := v) end.
  unfold Rltb. destruct (Rlt_dec c 0.05) as [Hlt|Hge].
  - symmetry. apply Rmax_left. lra.
  - symmetry. apply Rmax_right. lra.
Qed.

(** The resize branch of 'pointermove', as one equation. *)
Lemma pointermove_resizing (s : State) (px py : R) (ov bg : Image) :
  overlayImg s = Some ov -> bgImg s = Some bg ->
  cropping s = false -> resizing s = true ->
  let cx := x (overlayState s)
            + (IZR (width ov) * Rabs (scale (overlayState s))) / 2 in
  let cy := y (overlayState s)
            + (IZR (height ov) * Rabs (scale (overlayState s))) / 2 in
  let newScale :=
    resizeScale px py cx cy ((angle (overlayState s) * PI) / 180) ov bg in
  overlayState (pointermove px py s)
  = mkTransform
      (clamp 0 (IZR (width bg) - IZR (width ov) * newScale)
             (cx - (IZR (width ov) * newScale) / 2))
      (clamp 0 (IZR (height bg) - IZR (height ov) * newScale)
             (cy - (IZR (height ov) * newScale) / 2))
      newScale (angle (overlayState s))
      (flipH (overlayState s)) (flipV (overlayState s)).
Proof.
  intros Eov Ebg Ec Er. cbv zeta. unfold pointermove.
  rewrite Eov, Ebg, Ec, Er. fields. reflexivity.
Qed.

(** C3 -- Resize rule.  On a 'pointermove' while a handle is held, with
    the pointer taken into local space by the inverse rotation about the
    centre of the box, the new scale is [min(2|localX|/width,
    2|localY|/height)] clamped to [[0.05, min(bgWidth/width,
    bgHeight/height)]] (at least 0.05 always, at most the upper bound
    whenever the interval is not empty); the origin is recomputed about the
    old centre from the new scaled extents and then clamped into the
    background, so the centre is kept whenever the clamp does nothing; the
    ratio of the scaled width to the scaled height is the ratio of the
    intrinsic width to the intrinsic height, wherever the pointer is. *)
Theorem resize_rule (s : State) (px py : R) (ov bg : Image) :
  overlayImg s = Some ov -> bgImg s = Some bg ->
  cropping s = false -> resizing s = true ->
  (0 < width ov)%Z -> (0 < height ov)%Z ->
  let W := IZR (width ov) in
  let H := IZR (height ov) in
  let cx := x (overlayState s) + (W * Rabs (scale (overlayState s))) / 2 in
  let cy := y (overlayState s) + (H * Rabs (scale (overlayState s))) / 2 in
  let theta := (angle (overlayState s) * PI) / 180 in
  let localX := (px - cx) * cos (- theta) - (py - cy) * sin (- theta) in
  let localY := (px - cx) * sin (- theta) + (py - cy) * cos (- theta) in
  let maxScale := Rmin (IZR (width bg) / W) (IZR (height bg) / H) in
  let newScale := scale (overlayState (pointermove px py s)) in
  let newX := x (overlayState (pointermove px py s)) in
  let newY := y (overlayState (pointermove px py s)) in
  newScale
  = Rmax 0.05 (Rmin (Rmin ((2 * Rabs localX) / W) ((2 * Rabs localY) / H)) maxScale)
  /\ 0.05 <= newScale
  /\ (0.05 <= maxScale -> newScale <= maxScale)
  /\ newX = Rmax 0 (Rmin (cx - (W * newScale) / 2) (IZR (width bg) - W * newScale))
  /\ newY = Rmax 0 (Rmin (cy - (H * newScale) / 2) (IZR (height bg) - H * newScale))
  /\ (0 <= cx - (W * newScale) / 2 <= IZR (width bg) - W * newScale ->
      newX + (W * newScale) / 2 = cx)
  /\ (0 <= cy - (H * newScale) / 2 <= IZR (height bg) - H * newScale ->
      newY + (H * newScale) / 2 = cy)
  /\ (W * newScale) / (H * newScale) = W / H
  /\ angle (overlayState (pointermove px py s)) = angle (overlayState s)
  /\ flipH (overlayState (pointermove px py s)) = flipH (overlayState s)
  /\ flipV (overlayState (pointermove px py s)) = flipV (overlayState s).
Proof.
  intros Eov Ebg Ec Er HW HH. cbv zeta.
  rewrite (@pointermove_resizing s px py ov bg Eov Ebg Ec Er). fields.
  rewrite resizeScale_clamp.
  set (W := IZR (width ov)). set (H := IZR (height ov)).
  set (cx := x (overlayState s) + (W * Rabs (scale (overlayState s))) / 2).
  set (cy := y (overlayState s) + (H * Rabs (scale (overlayState s))) / 2).
  set (theta := (angle (overlayState s) * PI) / 180).
  set (maxScale := Rmin (IZR (width bg) / W) (IZR (height bg) / H)).
  set (cand := Rmin _ _).
  assert (HWpos : 0 < W) by (apply (IZR_lt 0), HW).
  assert (HHpos : 0 < H) by (apply (IZR_lt 0), HH).
  assert (Hmin : 0.05 <= clamp 0.05 maxScale cand) by (unfold clamp; apply Rmax_l).
  split; [reflexivity|]. split; [exact Hmin|].
  split; [intros Hne; apply (clamp_bounds cand Hne)|].
  split; [reflexivity|]. split; [reflexivity|].
  split; [|split; [|split; [|repeat split]]].
  - intros Hin. unfold clamp at 1. fold (clamp 0.05 maxScale cand).
    change (Rmax 0 (Rmin ?v ?hi)) with (clamp 0 hi v).
    rewrite (clamp_inactive Hin). lra.
  - intros Hin. unfold clamp at 1. fold (clamp 0.05 maxScale cand).
    change (Rmax 0 (Rmin ?v ?hi)) with (clamp 0 hi v).
    rewrite (clamp_inactive Hin). lra.
  - field. split; lra.
Qed.

Lemma resize_rule_witness :
  0.05 <= scale (overlayState (pointermove 40 20 sampleResize))
  /\ (100 * scale (overlayState (pointermove 40 20 sampleResize)))
     / (50 * scale (overlayState (pointermove 40 20 sampleResize)))
     = 100 / 50.
Proof.
  destruct (@resize_rule sampleResize 40 20 (mkImage 100 50 []) (mkImage 200 200 [])
              eq_refl eq_refl eq_refl eq_refl eq_refl eq_refl)
    as (_ & Hlow & _ & _ & _ & _ & _ & Hratio & _).
  split; [exact Hlow | exact Hratio].
Defined.

(* ===================================================================== *)
(** * Cropping *)
(* ===================================================================== *)

Lemma mathFloor_spec (r : R) : IZR (mathFloor r) <= r < IZR (mathFloor r) + 1.
Proof.
  unfold mathFloor. rewrite minus_IZR.
  destruct (archimed r) as [H1 H2]. lra.
Qed.

Lemma mathCeil_spec (r : R) : IZR (mathCeil r) - 1 < r <= IZR (mathCeil r).
Proof.
  unfold mathCeil. rewrite opp_IZR.
  destruct (mathFloor_spec (- r)) as [H1 H2]. lra.
Qed.

Lemma mathFloor_IZR (z : Z) : mathFloor (IZR z) = z.
Proof.
  unfold mathFloor.
  assert (E : (z + 1)%Z = up (IZR z)).
  { apply tech_up; rewrite plus_IZR; lra. }
  rewrite <- E. lia.
Qed.

Lemma mathCeil_IZR (z : Z) : mathCeil (IZR z) = z.
Proof.
  unfold mathCeil. rewrite <- opp_IZR, mathFloor_IZR. lia.
Qed.

(** The normalised selection is ordered, before and after un-flipping. *)
Lemma cropSelection_ordered (cs ce : R * R) (t : TransformState) :
  let '(x1f, x2f, y1f, y2f) := cropSelection cs ce t in
  x1f <= x2f /\ y1f <= y2f.
Proof.
  unfold cropSelection. cbv zeta.
  pose proof (Rmin_l (fst cs) (fst ce)). pose proof (Rmax_l (fst cs) (fst ce)).
  pose proof (Rmin_l (snd cs) (snd ce)). pose proof (Rmax_l (snd cs) (snd ce)).
  destruct (flipH t), (flipV t); split; lra.
Qed.

(** [performCrop] with a selection, an overlay and a background, as one
    equation. *)
Lemma performCrop_cases (s : State) (cs ce : R * R) (orig : Image) :
  cropStart s = Some cs -> cropEnd s = Some ce ->
  overlayOriginalImg s = Some orig ->
  let x1 := Rmin (fst cs) (fst ce) in
  let x2 := Rmax (fst cs) (fst ce) in
  let y1 := Rmin (snd cs) (snd ce) in
  let y2 := Rmax (snd cs) (snd ce) in
  let x1f := if flipH (overlayState s) then - x2 else x1 in
  let x2f := if flipH (overlayState s) then - x1 else x2 in
  let y1f := if flipV (overlayState s) then - y2 else y1 in
  let y2f := if flipV (overlayState s) then - y1 else y2 in
  let u1 := Z.max 0 (mathFloor (x1f + IZR (width orig) / 2)) in
  let u2 := Z.min (width orig) (mathCeil (x2f + IZR (width orig) / 2)) in
  let v1 := Z.max 0 (mathFloor (y1f + IZR (height orig) / 2)) in
  let v2 := Z.min (height orig) (mathCeil (y2f + IZR (height orig) / 2)) in
  performCrop s
  = if ((u2 - u1 <=? 0) || (v2 - v1 <=? 0))%Z
    then Done (set_cropEnd None (set_cropStart None s))
    else
      let newImg := drawImage orig (- u1) (- v1) (u2 - u1) (v2 - v1) in
      let s1 := set_overlayOriginalImg (Some newImg) (set_overlayImg (Some newImg) s) in
      let o := cropOrigin (overlayState s) (width orig) (height orig)
                          (u2 - u1) (v2 - v1) ((x1f + x2f) / 2) ((y1f + y2f) / 2) in
      match bgImg s with
      | None => Threw s1
      | Some bg =>
          Done (set_cropEnd None (set_cropStart None
            (assign (set_y (clamp 0 (IZR (height bg)
                                      - IZR (v2 - v1) * scale (overlayState s))
                                   (snd o)))
               (assign (set_x (clamp 0 (IZR (width bg)
                                         - IZR (u2 - u1) * scale (overlayState s))
                                      (fst o)))
                  s1))))
      end.
Proof.
  intros Ecs Ece Eorig. cbv zeta. unfold performCrop.
  rewrite Ecs, Ece, Eorig. unfold cropSelection, cropPixels. cbv zeta.
  destruct (_ || _)%bool; [reflexivity|]. fields.
  destruct (bgImg s); reflexivity.
Qed.

(** C2 -- Crop anchoring.  When [performCrop] commits, the new raster is
    the sub-rectangle [[u1, u2) x [v1, v2)] of the old one and becomes both
    the current and the original overlay.  The selection is ordered
    ([x1 <= x2], [y1 <= y2]) and un-flipped first; the shift is the centre
    of the un-flipped selection times the scale, rotated by plus the angle;
    the new centre is the old visual centre plus the shift; the new origin
    is the new centre minus half the new scaled extents, clamped into the
    background.  Scale, angle and flips are kept. *)
Theorem crop_anchoring (s : State) (cs ce : R * R) (orig bg : Image) :
  cropStart s = Some cs -> cropEnd s = Some ce ->
  overlayOriginalImg s = Some orig -> bgImg s = Some bg ->
  let x1 := Rmin (fst cs) (fst ce) in
  let x2 := Rmax (fst cs) (fst ce) in
  let y1 := Rmin (snd cs) (snd ce) in
  let y2 := Rmax (snd cs) (snd ce) in
  let x1f := if flipH (overlayState s) then - x2 else x1 in
  let x2f := if flipH (overlayState s) then - x1 else x2 in
  let y1f := if flipV (overlayState s) then - y2 else y1 in
  let y2f := if flipV (overlayState s) then - y1 else y2 in
  let u1 := Z.max 0 (mathFloor (x1f + IZR (width orig) / 2)) in
  let u2 := Z.min (width orig) (mathCeil (x2f + IZR (width orig) / 2)) in
  let v1 := Z.max 0 (mathFloor (y1f + IZR (height orig) / 2)) in
  let v2 := Z.min (height orig) (mathCeil (y2f + IZR (height orig) / 2)) in
  (0 < u2 - u1)%Z -> (0 < v2 - v1)%Z ->
  let t := overlayState s in
  let theta := (angle t * PI) / 180 in
  let cropCenterX := (x1f + x2f) / 2 in
  let cropCenterY := (y1f + y2f) / 2 in
  let shiftX := cropCenterX * scale t * cos theta - cropCenterY * scale t * sin theta in
  let shiftY := cropCenterX * scale t * sin theta + cropCenterY * scale t * cos theta in
  let newCentreX := x t + (IZR (width orig) * scale t) / 2 + shiftX in
  let newCentreY := y t + (IZR (height orig) * scale t) / 2 + shiftY in
  let newW := IZR (u2 - u1) * scale t in
  let newH := IZR (v2 - v1) * scale t in
  exists (s' : State) (newImg : Image),
    performCrop s = Done s'
    /\ overlayImg s' = Some newImg /\ overlayOriginalImg s' = Some newImg
    /\ width newImg = (u2 - u1)%Z /\ height newImg = (v2 - v1)%Z
    /\ (forall i j, (0 <= i < u2 - u1)%Z -> (0 <= j < v2 - v1)%Z ->
          pixelAt newImg i j = pixelAt orig (u1 + i) (v1 + j))
    /\ x1 <= x2 /\ y1 <= y2
    /\ x (overlayState s')
       = Rmax 0 (Rmin (newCentreX - newW / 2) (IZR (width bg) - newW))
    /\ y (overlayState s')
       = Rmax 0 (Rmin (newCentreY - newH / 2) (IZR (height bg) - newH))
    /\ scale (overlayState s') = scale t
    /\ angle (overlayState s') = angle t
    /\ flipH (overlayState s') = flipH t
    /\ flipV (overlayState s') = flipV t.
Proof.
  intros Ecs Ece Eorig Ebg. cbv zeta. intros Hw Hh.
  rewrite (@performCrop_cases s cs ce orig Ecs Ece Eorig). cbv zeta.
  rewrite Ebg.
  match goal with
  | |- context [((?a <=? 0) || (?b <=? 0))%Z] =>
      replace ((a <=? 0) || (b <=? 0))%Z with false
        by (symmetry; apply orb_false_iff; split; apply Z.leb_gt; assumption)
  end.
  eexists. eexists. split; [reflexivity|]. fields.
  split; [reflexivity|]. split; [reflexivity|].
  split; [reflexivity|]. split; [reflexivity|].
  split.
  { intros i j Hi Hj. rewrite pixelAt_drawImage by assumption.
    f_equal; lia. }
  split; [eapply Rle_trans; [apply Rmin_l | apply Rmax_l]|].
  split; [eapply Rle_trans; [apply Rmin_l | apply Rmax_l]|].
  unfold cropOrigin, clamp. cbv zeta. cbn [fst snd].
  repeat split.
Qed.

Lemma sampleCrop_pixels :
  cropPixels (cropSelection (- 2, - 2) (0, 2) (mkTransform 0 0 1 0 false false)) 4 4
  = (0, 2, 0, 4)%Z.
Proof.
  unfold cropPixels, cropSelection. cbn [fst snd flipH flipV].
  rewrite (Rmin_left (- 2) 0), (Rmax_right (- 2) 0) by lra.
  rewrite (Rmin_left (- 2) 2), (Rmax_right (- 2) 2) by lra.
  replace (- 2 + 4 / 2) with (IZR 0) by lra.
  replace (0 + 4 / 2) with (IZR 2) by lra.
  replace (2 + 4 / 2) with (IZR 4) by lra.
  rewrite !mathFloor_IZR, !mathCeil_IZR. reflexivity.
Qed.

Lemma crop_anchoring_witness :
  exists s' newImg,
    performCrop sampleCrop = Done s'
    /\ overlayImg s' = Some newImg /\ overlayOriginalImg s' = Some newImg
    /\ width newImg = 2%Z /\ height newImg = 4%Z.
Proof.
  pose proof sampleCrop_pixels as Hpx.
  unfold cropPixels, cropSelection in Hpx. cbn [fst snd flipH flipV] in Hpx.
  injection Hpx as Hu1 Hu2 Hv1 Hv2.
  destruct (@crop_anchoring sampleCrop (- 2, - 2) (0, 2) (mkImage 4 4 [])
              (mkImage 4 4 []) eq_refl eq_refl eq_refl eq_refl)
    as (s' & newImg & Hdone & Hov & Horig & Hw & Hh & _).
  - cbn [fst snd flipH flipV overlayState sampleCrop width height].
    rewrite Hu1, Hu2. lia.
  - cbn [fst snd flipH flipV overlayState sampleCrop width height].
    rewrite Hv1, Hv2. lia.
  - exists s', newImg.
    cbn [fst snd flipH flipV overlayState sampleCrop width height] in Hw, Hh.
    rewrite Hu1, Hu2 in Hw. rewrite Hv1, Hv2 in Hh.
    repeat split; assumption.
Defined.

(** C6 -- Crop abort.  The pixel bounds are
    [u1 = max(0, floor(x1 + width/2))], [u2 = min(width, ceil(x2 + width/2))]
    and likewise [v1], [v2] with the height, where [floor] and [ceil] are
    the integer floor and ceiling; whenever [u2 - u1 <= 0] or
    [v2 - v1 <= 0], [performCrop] ends normally and leaves both overlay
    images, the background, every field of the transform and both history
    stacks as they were (only the selection is forgotten). *)
Theorem crop_abort (s : State) (cs ce : R * R) (orig : Image) :
  cropStart s = Some cs -> cropEnd s = Some ce ->
  overlayOriginalImg s = Some orig ->
  let x1 := Rmin (fst cs) (fst ce) in
  let x2 := Rmax (fst cs) (fst ce) in
  let y1 := Rmin (snd cs) (snd ce) in
  let y2 := Rmax (snd cs) (snd ce) in
  let x1f := if flipH (overlayState s) then - x2 else x1 in
  let x2f := if flipH (overlayState s) then - x1 else x2 in
  let y1f := if flipV (overlayState s) then - y2 else y1 in
  let y2f := if flipV (overlayState s) then - y1 else y2 in
  let u1 := Z.max 0 (mathFloor (x1f + IZR (width orig) / 2)) in
  let u2 := Z.min (width orig) (mathCeil (x2f + IZR (width orig) / 2)) in
  let v1 := Z.max 0 (mathFloor (y1f + IZR (height orig) / 2)) in
  let v2 := Z.min (height orig) (mathCeil (y2f + IZR (height orig) / 2)) in
  cropPixels (cropSelection cs ce (overlayState s)) (width orig) (height orig)
  = (u1, u2, v1, v2)
  /\ (forall r, IZR (mathFloor r) <= r < IZR (mathFloor r) + 1)
  /\ (forall r, IZR (mathCeil r) - 1 < r <= IZR (mathCeil r))
  /\ ((u2 - u1 <= 0)%Z \/ (v2 - v1 <= 0)%Z ->
      exists s',
        performCrop s = Done s'
        /\ overlayImg s' = overlayImg s
        /\ overlayOriginalImg s' = overlayOriginalImg s
        /\ overlayState s' = overlayState s
        /\ bgImg s' = bgImg s
        /\ undoStack s' = undoStack s
        /\ redoStack s' = redoStack s).
Proof.
  intros Ecs Ece Eorig. cbv zeta.
  split; [reflexivity|].
  split; [exact mathFloor_spec|]. split; [exact mathCeil_spec|].
  intros Hempty.
  rewrite (@performCrop_cases s cs ce orig Ecs Ece Eorig). cbv zeta.
  match goal with
  | |- context [((?a <=? 0) || (?b <=? 0))%Z] =>
      replace ((a <=? 0) || (b <=? 0))%Z with true
        by (symmetry; apply orb_true_iff;
            destruct Hempty as [Hu|Hv]; [left | right]; apply Z.leb_le; assumption)
  end.
  eexists. split; [reflexivity|]. fields. repeat split.
Qed.

Lemma crop_abort_witness :
  exists s',
    performCrop sampleEmptyCrop = Done s'
    /\ overlayImg s' = overlayImg sampleEmptyCrop
    /\ overlayOriginalImg s' = overlayOriginalImg sampleEmptyCrop
    /\ overlayState s' = overlayState sampleEmptyCrop.
Proof.
  destruct (@crop_abort sampleEmptyCrop (1, 1) (1, 1) (mkImage 4 4 [])
              eq_refl eq_refl eq_refl) as (_ & _ & _ & Habort).
  destruct Habort as (s' & Hdone & Hov & Horig & Hst & _).
  - left. cbn [fst snd flipH flipV overlayState sampleEmptyCrop width height].
    rewrite (Rmin_left 1 1), (Rmax_left 1 1) by lra.
    replace (1 + 4 / 2) with (IZR 3) by lra.
    rewrite mathFloor_IZR, mathCeil_IZR. lia.
  - exists s'. repeat split; assumption.
Defined.
(* ===================================================================== *)
(** * More on the history *)
(* ===================================================================== *)

(** [undo] on a stack whose top is known. *)
Lemma undo_pops (s : State) (rest : list Snapshot) (prev : Snapshot) :
  undoStack s = push rest prev ->
  undo s = restore prev
             (set_undoStack rest
                (set_redoStack (push (redoStack s) (currentSnapshot s)) s)).
Proof.
  intros Eu. unfold undo. rewrite Eu, push_length. cbn [Nat.eqb]. fields.
  rewrite Eu, pop_push. reflexivity.
Qed.

(** What [undo] leaves when the top of the stack came from a loaded overlay. *)
Lemma undo_top (s : State) (rest : list Snapshot) (d o : DataURL)
  (t : TransformState) :
  undoStack s = push rest (Snap d o t) ->
  overlayImg (undo s) = Some (loadImage d)
  /\ overlayOriginalImg (undo s) = Some (loadImage d)
  /\ overlayState (undo s) = t
  /\ undoStack (undo s) = rest
  /\ redoStack (undo s) = push (redoStack s) (currentSnapshot s).
Proof.
  intros Eu. rewrite (@undo_pops s rest (Snap d o t) Eu).
  unfold restore. fields. repeat split.
Qed.

Lemma undo_empty (s : State) : undoStack s = [] -> undo s = s.
Proof. intros E. unfold undo. rewrite E. reflexivity. Qed.

Lemma redo_empty (s : State) : redoStack s = [] -> redo s = s.
Proof. intros E. unfold redo. rewrite E. reflexivity. Qed.

(** X1 -- In every reachable state with something to redo, [redo] followed
    by [undo] gives the state back: the redo stack, the undo stack, the
    overlay and the transform are as before. *)
Theorem undo_after_redo (s : State) :
  reachable s -> redoStack s <> [] ->
  undo (redo s) = s
  /\ S (length (redoStack (redo s))) = length (redoStack s)
  /\ length (undoStack (redo s)) = S (length (undoStack s)).
Proof.
  intros Hr Hne. split; [apply undo_redo; [apply reachable_history_ok, Hr | exact Hne]|].
  destruct (@redo_effect s Hne) as (next & rest & Er & Eredo).
  destruct (restore_frame next
              (set_redoStack rest
                 (set_undoStack (push (undoStack s) (currentSnapshot s)) s)))
    as (_ & _ & _ & _ & _ & _ & _ & _ & _ & Hus & Hrs).
  rewrite Eredo, Hus, Hrs. fields. rewrite Er, !push_length. split; reflexivity.
Qed.

Lemma undo_after_redo_witness :
  reachable sampleUndone /\ undo (redo sampleUndone) = sampleUndone.
Proof.
  split; [exact sampleUndone_reachable|].
  refine (proj1 (@undo_after_redo sampleUndone sampleUndone_reachable _)).
  intros C.
  assert (L : length (redoStack sampleUndone) = 1%nat) by (lazy; reflexivity).
  rewrite C in L. discriminate L.
Defined.

(** X2 -- [undo] and [redo] move entries between the two stacks and never
    create or lose one: in any state the total number of entries is the
    same before and after, one entry changes side when the stack popped is
    not empty, and nothing at all changes when it is empty. *)
Theorem history_entries_conserved (s : State) :
  (length (undoStack (undo s)) + length (redoStack (undo s))
   = length (undoStack s) + length (redoStack s))%nat
  /\ (length (undoStack (redo s)) + length (redoStack (redo s))
      = length (undoStack s) + length (redoStack s))%nat
  /\ (length (redoStack (undo s))
      = if (length (undoStack s) =? 0)%nat then length (redoStack s)
        else S (length (redoStack s)))
  /\ (length (undoStack (redo s))
      = if (length (redoStack s) =? 0)%nat then length (undoStack s)
        else S (length (undoStack s)))
  /\ (undoStack s = [] -> undo s = s)
  /\ (redoStack s = [] -> redo s = s).
Proof.
  assert (Hu : (length (undoStack (undo s)) + length (redoStack (undo s))
                = length (undoStack s) + length (redoStack s))%nat
               /\ length (redoStack (undo s))
                  = if (length (undoStack s) =? 0)%nat then length (redoStack s)
                    else S (length (redoStack s))).
  { destruct (undoStack s) as [|a l] eqn:E.
    - rewrite (undo_empty s E), E. split; reflexivity.
    - assert (Hne : undoStack s <> []) by (rewrite E; discriminate).
      destruct (@undo_effect s Hne) as (prev & rest & Eu & Eundo).
      destruct (restore_frame prev
                  (set_undoStack rest
                     (set_redoStack (push (redoStack s) (currentSnapshot s)) s)))
        as (_ & _ & _ & _ & _ & _ & _ & _ & _ & Hus & Hrs).
      rewrite Eundo, Hus, Hrs. fields. rewrite <- E, Eu, !push_length.
      cbn [Nat.eqb]. split; lia. }
  assert (Hr : (length (undoStack (redo s)) + length (redoStack (redo s))
                = length (undoStack s) + length (redoStack s))%nat
               /\ length (undoStack (redo s))
                  = if (length (redoStack s) =? 0)%nat then length (undoStack s)
                    else S (length (undoStack s))).
  { destruct (redoStack s) as [|a l] eqn:E.
    - rewrite (redo_empty s E), E. split; reflexivity.
    - assert (Hne : redoStack s <> []) by (rewrite E; discriminate).
      destruct (@redo_effect s Hne) as (next & rest & Er & Eredo).
      destruct (restore_frame next
                  (set_redoStack rest
                     (set_undoStack (push (undoStack s) (currentSnapshot s)) s)))
        as (_ & _ & _ & _ & _ & _ & _ & _ & _ & Hus & Hrs).
      rewrite Eredo, Hus, Hrs. fields. rewrite <- E, Er, !push_length.
      cbn [Nat.eqb]. split; lia. }
  destruct Hu as [Hu1 Hu2]. destruct Hr as [Hr1 Hr2].
  repeat split; try assumption; [apply undo_empty | apply redo_empty].
Qed.

(** The history part of the state after a handler that edits the
    transform. *)
Lemma transformEdit_history (s : State) (e : Event) (ov : Image) :
  transformEdit e = true -> overlayImg s = Some ov ->
  historyView (step s e) = historyView (saveState s).
Proof.
  intros He Eov. unfold historyView.
  destruct e; try discriminate He; cbn [step].
  - unfold smaller. rewrite Eov.
    destruct (bgImg (assign _ (saveState s))); fields; reflexivity.
  - unfold bigger. rewrite Eov.
    destruct (bgImg (saveState s)); [destruct (_ || _)%bool|]; fields; reflexivity.
  - unfold angleInputHandler. fields. reflexivity.
  - unfold rotM5. fields. reflexivity.
  - unfold rotP5. fields. reflexivity.
  - unfold rotReset. fields. reflexivity.
  - unfold flipHClick. fields. reflexivity.
  - unfold flipVClick. fields. reflexivity.
Qed.

(** X3 -- Every button or input edit of the transform (smaller, bigger,
    angle input, -5, +5, reset, flip H, flip V) made in a reachable state
    with an overlay loaded is undone by one [undo]: the overlay and every
    field of the transform are back, the undo stack is what it was, and a
    [redo] then brings the edited state back.  The edit empties the redo
    stack.  For the -5 and +5 buttons the angle before the click is taken
    in [[-180, 180]]: there the loops of [normalizeAngle] end over binary64
    as they do over the reals, so the handler returns; from a huge angle,
    which the angle input can store, it need not
    ([Binary64Facts.normalizeAngle_diverges]). *)
Theorem edit_is_undoable (s : State) (e : Event) (ov : Image) :
  reachable s -> overlayImg s = Some ov -> transformEdit e = true ->
  (e = RotM5Click \/ e = RotP5Click -> - 180 <= angle (overlayState s) <= 180) ->
  undoStack (step s e) = push (undoStack s) (Snap (src ov) (src ov) (overlayState s))
  /\ redoStack (step s e) = []
  /\ overlayImg (step s e) = Some ov
  /\ overlayImg (undo (step s e)) = Some ov
  /\ overlayOriginalImg (undo (step s e)) = Some ov
  /\ overlayState (undo (step s e)) = overlayState s
  /\ undoStack (undo (step s e)) = undoStack s
  /\ redo (undo (step s e)) = step s e.
Proof.
  intros Hr Eov He _.
  assert (Eorig : overlayOriginalImg s = Some ov).
  { destruct (reachable_history_ok Hr) as (Heq & _). rewrite <- Heq. exact Eov. }
  pose proof (@transformEdit_history s e ov He Eov) as Hv.
  rewrite (saveState_loaded s Eov Eorig) in Hv. unfold historyView in Hv. fields.
  injection Hv as Hi Ho Hu Hre.
  destruct (@undo_top (step s e) (undoStack s) (src ov) (src ov) (overlayState s) Hu)
    as (U1 & U2 & U3 & U4 & _).
  split; [exact Hu|]. split; [exact Hre|]. split; [rewrite Hi; exact Eov|].
  split; [exact U1|]. split; [exact U2|]. split; [exact U3|]. split; [exact U4|].
  apply redo_undo.
  - apply reachable_history_ok, reachable_step, Hr.
  - rewrite Hu. unfold push. destruct (undoStack s); discriminate.
Qed.

(** The sample overlay is loaded at angle 0. *)
Lemma sampleLoaded_angle : angle (overlayState sampleLoaded) = 0.
Proof.
  unfold sampleLoaded. cbn [step]. unfold loadOverlay, loadBackground.
  fields. unfold saveState. fields. reflexivity.
Qed.

Lemma edit_is_undoable_witness :
  - 180 <= angle (overlayState sampleLoaded) <= 180
  /\ overlayState (undo (step sampleLoaded RotP5Click)) = overlayState sampleLoaded
  /\ redo (undo (step sampleLoaded RotP5Click)) = step sampleLoaded RotP5Click.
Proof.
  assert (Eov : overlayImg sampleLoaded = Some (ChromaKey.applyGreyKey sampleRaster))
    by (lazy; reflexivity).
  assert (Ha : - 180 <= angle (overlayState sampleLoaded) <= 180)
    by (rewrite sampleLoaded_angle; lra).
  split; [exact Ha|].
  destruct (@edit_is_undoable sampleLoaded RotP5Click
              (ChromaKey.applyGreyKey sampleRaster)
              sampleLoaded_reachable Eov eq_refl (fun _ => Ha))
    as (_ & _ & _ & _ & _ & Hst & _ & Hredo).
  split; [exact Hst | exact Hredo].
Defined.

Lemma pointermove_frame (px py : R) (s : State) :
  undoStack (pointermove px py s) = undoStack s
  /\ redoStack (pointermove px py s) = redoStack s
  /\ overlayImg (pointermove px py s) = overlayImg s
  /\ overlayOriginalImg (pointermove px py s) = overlayOriginalImg s
  /\ bgImg (pointermove px py s) = bgImg s.
Proof.
  unfold pointermove.
  destruct (overlayImg s) as [ov|] eqn:Eov; [|repeat split; assumption].
  destruct (bgImg s) as [bg|] eqn:Ebg; [|repeat split; assumption].
  destruct (cropping s); [fields; repeat split; assumption|].
  destruct (resizing s); [fields; repeat split; assumption|].
  destruct (dragging s); fields; repeat split; assumption.
Qed.

Lemma pointermoves_frame (positions : list (R * R)) (s : State) :
  undoStack (pointermoves positions s) = undoStack s
  /\ redoStack (pointermoves positions s) = redoStack s
  /\ overlayImg (pointermoves positions s) = overlayImg s
  /\ overlayOriginalImg (pointermoves positions s) = overlayOriginalImg s
  /\ bgImg (pointermoves positions s) = bgImg s.
Proof.
  unfold pointermoves. revert s.
  induction positions as [|p l IH]; intros s; cbn [fold_left]; [repeat split|].
  destruct (IH (pointermove (fst p) (snd p) s)) as (A1 & A2 & A3 & A4 & A5).
  destruct (pointermove_frame (fst p) (snd p) s) as (B1 & B2 & B3 & B4 & B5).
  rewrite A1, A2, A3, A4, A5. repeat split; assumption.
Qed.

Lemma performCrop_stacks (s : State) :
  undoStack (stateOf (performCrop s)) = undoStack s
  /\ redoStack (stateOf (performCrop s)) = redoStack s.
Proof.
  unfold performCrop.
  destruct (cropStart s) as [cs|]; [|split; reflexivity].
  destruct (cropEnd s) as [ce|]; [|split; reflexivity].
  destruct (overlayOriginalImg s) as [orig|]; [|split; reflexivity].
  destruct (cropSelection cs ce (overlayState s)) as [[[x1f x2f] y1f] y2f].
  destruct (cropPixels _ _ _) as [[[u1 u2] v1] v2].
  destruct (_ || _)%bool; fields; [split; reflexivity|].
  destruct (bgImg s); fields; split; reflexivity.
Qed.

Lemma pointerup_stacks (s : State) :
  undoStack (stateOf (pointerup s)) = undoStack s
  /\ redoStack (stateOf (pointerup s)) = redoStack s.
Proof.
  unfold pointerup. destruct (cropping s).
  - destruct (performCrop_stacks (set_cropMode false (set_cropping false s)))
      as [A B]. rewrite A, B. fields. split; reflexivity.
  - destruct (dragging s); fields; destruct (resizing s); fields; split; reflexivity.
Qed.

(** X4 -- A whole pointer gesture (down, any number of moves, up) started
    in a reachable state with overlay and background loaded is undone by
    one [undo], whatever it was (a drag, a resize, a committed or an empty
    crop, or a click that hit nothing): the pre-gesture raster and
    transform are back and the undo stack is what it was before the
    'pointerdown'. *)
Theorem gesture_is_undoable (s : State) (px py : R) (positions : list (R * R))
  (ov bg : Image) :
  reachable s -> overlayImg s = Some ov -> bgImg s = Some bg ->
  undoStack (stateOf (pointerup (pointermoves positions (stateOf (pointerdown px py s)))))
  = push (undoStack s) (Snap (src ov) (src ov) (overlayState s))
  /\ redoStack (stateOf (pointerup (pointermoves positions
                                     (stateOf (pointerdown px py s))))) = []
  /\ overlayImg (undo (stateOf (pointerup (pointermoves positions
                                            (stateOf (pointerdown px py s))))))
     = Some ov
  /\ overlayOriginalImg (undo (stateOf (pointerup (pointermoves positions
                                            (stateOf (pointerdown px py s))))))
     = Some ov
  /\ overlayState (undo (stateOf (pointerup (pointermoves positions
                                              (stateOf (pointerdown px py s))))))
     = overlayState s
  /\ undoStack (undo (stateOf (pointerup (pointermoves positions
                                            (stateOf (pointerdown px py s))))))
     = undoStack s.
Proof.
  intros Hr Eov Ebg.
  assert (Eorig : overlayOriginalImg s = Some ov).
  { destruct (reachable_history_ok Hr) as (Heq & _). rewrite <- Heq. exact Eov. }
  destruct (@pointerdown_records s px py ov ov bg Eov Eorig Ebg) as (Hu & Hre & _).
  set (s1 := stateOf (pointerdown px py s)) in *.
  destruct (pointermoves_frame positions s1) as (M1 & M2 & _).
  set (s2 := pointermoves positions s1) in *.
  destruct (pointerup_stacks s2) as (P1 & P2).
  set (s3 := stateOf (pointerup s2)) in *.
  assert (Hu3 : undoStack s3
                = push (undoStack s) (Snap (src ov) (src ov) (overlayState s)))
    by (rewrite P1, M1; exact Hu).
  destruct (@undo_top s3 (undoStack s) (src ov) (src ov) (overlayState s) Hu3)
    as (U1 & U2 & U3 & U4 & _).
  split; [exact Hu3|]. split; [rewrite P2, M2; exact Hre|].
  repeat split; assumption.
Qed.

Lemma gesture_is_undoable_witness :
  overlayState (undo (stateOf (pointerup (pointermoves [(30, 30); (40, 50)]
                                           (stateOf (pointerdown 21 20 sampleLoaded))))))
  = overlayState sampleLoaded.
Proof.
  assert (Eov : overlayImg sampleLoaded = Some (ChromaKey.applyGreyKey sampleRaster))
    by (lazy; reflexivity).
  assert (Ebg : bgImg sampleLoaded = Some sampleBackground) by (lazy; reflexivity).
  destruct (@gesture_is_undoable sampleLoaded 21 20 [(30, 30); (40, 50)]
              (ChromaKey.applyGreyKey sampleRaster) sampleBackground
              sampleLoaded_reachable Eov Ebg)
    as (_ & _ & _ & _ & Hst & _).
  exact Hst.
Defined.

(** X5 -- Removing the overlay and starting a new session cannot be undone:
    both leave no overlay and empty stacks, so [undo] and [redo] do nothing
    afterwards, in any state.  Removing the overlay keeps the background
    and the (now unused) transform; a new session resets the transform and
    drops the background.  Both are idempotent. *)
Theorem removal_is_final (s : State) :
  overlayImg (removeOverlay s) = None
  /\ overlayOriginalImg (removeOverlay s) = None
  /\ undo (removeOverlay s) = removeOverlay s
  /\ redo (removeOverlay s) = removeOverlay s
  /\ bgImg (removeOverlay s) = bgImg s
  /\ overlayState (removeOverlay s) = overlayState s
  /\ removeOverlay (removeOverlay s) = removeOverlay s
  /\ overlayImg (newSession s) = None
  /\ overlayOriginalImg (newSession s) = None
  /\ bgImg (newSession s) = None
  /\ overlayState (newSession s) = mkTransform 0 0 1 0 false false
  /\ undo (newSession s) = newSession s
  /\ redo (newSession s) = newSession s
  /\ newSession (newSession s) = newSession s.
Proof.
  assert (Ru : undo (removeOverlay s) = removeOverlay s)
    by (apply undo_empty; reflexivity).
  assert (Rr : redo (removeOverlay s) = removeOverlay s)
    by (apply redo_empty; reflexivity).
  assert (Nu : undo (newSession s) = newSession s)
    by (apply undo_empty; reflexivity).
  assert (Nr : redo (newSession s) = newSession s)
    by (apply redo_empty; reflexivity).
  assert (Ri : removeOverlay (removeOverlay s) = removeOverlay s)
    by (apply state_eq; unfold removeOverlay; fields; reflexivity).
  assert (Ni : newSession (newSession s) = newSession s)
    by (apply state_eq; unfold newSession; fields; reflexivity).
  rewrite Ru, Rr, Nu, Nr, Ri, Ni.
  unfold removeOverlay, newSession. fields. repeat split.
Qed.

Lemma normalizeAngle_down (a : R) :
  180 < a <= 540 -> normalizeAngle a = a - 360.
Proof.
  intros Ha. unfold normalizeAngle. cbv zeta.
  rewrite whileAbove_step. destruct (Rgt_dec a 180); [|lra].
  destruct (whileAbove_spec (a - 360)) as (_ & A2 & _). rewrite A2 by lra.
  destruct (whileBelow_spec (a - 360)) as (_ & B2 & _). apply B2. lra.
Qed.

Lemma normalizeAngle_up (a : R) :
  - 540 <= a < - 180 -> normalizeAngle a = a + 360.
Proof.
  intros Ha. unfold normalizeAngle. cbv zeta.
  destruct (whileAbove_spec a) as (_ & A2 & _). rewrite A2 by lra.
  rewrite whileBelow_step. destruct (Rlt_dec a (- 180)); [|lra].
  destruct (whileBelow_spec (a + 360)) as (_ & B2 & _). apply B2. lra.
Qed.

(** X6 -- What the handlers do when their precondition fails.  With no
    overlay loaded [saveState], smaller, bigger, the crop button,
    'pointerdown' and 'pointermove' change nothing and [drawScene] draws no
    selection; with no background loaded choosing an overlay, 'pointerdown'
    and 'pointermove' change nothing; a 'pointerup' with no gesture in
    progress changes nothing.  The angle input, the rotation buttons and
    the flip buttons have no such guard: with no overlay loaded they still
    write the transform, and record no history.  For the -5 and +5 buttons
    this is stated for an angle in [[-180, 180]], where the loops of
    [normalizeAngle] end over binary64 as over the reals: the new angle is
    the old one plus or minus 5, moved by one turn when that leaves the
    range. *)
Theorem handlers_without_overlay :
  (forall (s : State) (px py : R),
     overlayImg s = None ->
     saveState s = s /\ smaller s = s /\ bigger s = s /\ cropClick s = s
     /\ pointerdown px py s = Done s /\ pointermove px py s = s
     /\ drawnCropRect s = None)
  /\ (forall (s : State) (px py : R) (rawImg : Image),
        bgImg s = None ->
        loadOverlay rawImg s = s
        /\ pointerdown px py s = Done s /\ pointermove px py s = s)
  /\ (forall s : State,
        cropping s = false -> dragging s = false -> resizing s = false ->
        pointerup s = Done s)
  /\ (forall (s : State) (v : R),
        overlayImg s = None ->
        flipH (overlayState (flipHClick s)) = negb (flipH (overlayState s))
        /\ flipV (overlayState (flipVClick s)) = negb (flipV (overlayState s))
        /\ angle (overlayState (rotReset s)) = 0
        /\ (- 180 <= v <= 180 ->
            angle (overlayState (angleInputHandler (Some v) s)) = v)
        /\ undoStack (flipHClick s) = undoStack s
        /\ undoStack (flipVClick s) = undoStack s
        /\ undoStack (rotReset s) = undoStack s
        /\ undoStack (angleInputHandler (Some v) s) = undoStack s)
  /\ (forall s : State,
        overlayImg s = None ->
        - 180 <= angle (overlayState s) <= 180 ->
        (angle (overlayState s) + 5 <= 180 ->
         angle (overlayState (rotP5 s)) = angle (overlayState s) + 5)
        /\ (180 < angle (overlayState s) + 5 ->
            angle (overlayState (rotP5 s)) = angle (overlayState s) + 5 - 360)
        /\ (- 180 <= angle (overlayState s) - 5 ->
            angle (overlayState (rotM5 s)) = angle (overlayState s) - 5)
        /\ (angle (overlayState s) - 5 < - 180 ->
            angle (overlayState (rotM5 s)) = angle (overlayState s) - 5 + 360)
        /\ undoStack (rotP5 s) = undoStack s
        /\ undoStack (rotM5 s) = undoStack s).
Proof.
  split; [|split; [|split; [|split]]].
  - intros s px py E.
    assert (Hs : saveState s = s) by (unfold saveState; rewrite E; reflexivity).
    split; [exact Hs|].
    unfold smaller, bigger, cropClick, pointerdown, pointermove, drawnCropRect.
    rewrite E. destruct (bgImg s); repeat split.
  - intros s px py rawImg E.
    unfold loadOverlay, pointerdown, pointermove. rewrite E.
    destruct (overlayImg s); repeat split.
  - intros s Ec Ed Er. unfold pointerup. rewrite Ec, Ed, Er. reflexivity.
  - intros s v E.
    assert (Hs : saveState s = s) by (unfold saveState; rewrite E; reflexivity).
    unfold flipHClick, flipVClick, rotReset.
    rewrite Hs. fields.
    split; [reflexivity|]. split; [reflexivity|]. split; [reflexivity|].
    split.
    { intros [Hlo Hhi]. rewrite angleInputHandler_angle. cbv zeta.
      rewrite (@Rgtb_false v 180 Hhi). apply Rltb_false in Hlo. rewrite Hlo.
      reflexivity. }
    unfold angleInputHandler. rewrite Hs. fields. repeat split.
  - intros s E Ha.
    assert (Hs : saveState s = s) by (unfold saveState; rewrite E; reflexivity).
    unfold rotP5, rotM5. rewrite Hs. fields.
    split; [intros H; apply normalizeAngle_in_range; lra|].
    split; [intros H; apply normalizeAngle_down; lra|].
    split; [intros H; apply normalizeAngle_in_range; lra|].
    split; [intros H; apply normalizeAngle_up; lra|].
    split; reflexivity.
Qed.

Lemma handlers_without_overlay_witness :
  smaller initialState = initialState
  /\ pointerdown 5 5 initialState = Done initialState
  /\ flipH (overlayState (flipHClick initialState)) = true
  /\ angle (overlayState (rotP5 initialState)) = 0 + 5.
Proof.
  destruct handlers_without_overlay as (H1 & _ & _ & H4 & H5).
  destruct (H1 initialState 5 5 eq_refl) as (_ & Hs & _ & _ & Hp & _).
  destruct (H4 initialState 0 eq_refl) as (Hf & _).
  assert (Ha : - 180 <= angle (overlayState initialState) <= 180)
    by (cbn [initialState overlayState angle]; lra).
  destruct (H5 initialState eq_refl Ha) as (Hr & _).
  split; [exact Hs|]. split; [exact Hp|]. split; [exact Hf|].
  apply Hr. cbn [initialState overlayState angle]. lra.
Defined.

(* ===================================================================== *)
(** * More on the pointer geometry *)
(* ===================================================================== *)

Lemma Rleb_iff (a b : R) : Rleb a b = true <-> a <= b.
Proof.
  unfold Rleb. destruct (Rle_dec a b); split; intros H;
    try reflexivity; try assumption; try discriminate; contradiction.
Qed.

Lemma nearCorner_test (localX localY : R) (c : R * R) :
  Rleb (Rabs (localX - fst c)) 10 && Rleb (Rabs (localY - snd c)) 10 = true
  <-> nearCorner localX localY c.
Proof. unfold nearCorner. rewrite andb_true_iff, !Rleb_iff. tauto. Qed.

(** The loop over the corners returns the first corner the point is near. *)
Lemma hitHandle_spec (localX localY : R) (cs : list (R * R)) (i0 : Z) :
  match hitHandle localX localY 10 cs i0 with
  | Some i =>
      exists k, i = (i0 + Z.of_nat k)%Z /\ (k < length cs)%nat
                /\ nearCorner localX localY (nth k cs (0, 0))
                /\ forall k', (k' < k)%nat ->
                              ~ nearCorner localX localY (nth k' cs (0, 0))
  | None => Forall (fun c => ~ nearCorner localX localY c) cs
  end.
Proof.
  revert i0. induction cs as [|c cs IH]; intros i0; cbn [hitHandle].
  - constructor.
  - destruct (Rleb (Rabs (localX - fst c)) 10 && Rleb (Rabs (localY - snd c)) 10)
      eqn:E.
    + apply nearCorner_test in E. exists 0%nat. cbn [nth length].
      split; [lia|]. split; [lia|]. split; [exact E|]. intros k' Hk'. lia.
    + assert (Hc : ~ nearCorner localX localY c).
      { intros C. apply nearCorner_test in C. rewrite C in E. discriminate. }
      specialize (IH (i0 + 1)%Z).
      destruct (hitHandle localX localY 10 cs (i0 + 1)) as [i|].
      * destruct IH as (k & Hi & Hk & Hnear & Hfirst).
        exists (S k). cbn [nth length].
        split; [lia|]. split; [lia|]. split; [exact Hnear|].
        intros [|k'] Hk'; [exact Hc | apply Hfirst; lia].
      * constructor; assumption.
Qed.

(** X7 -- Hit classification of a 'pointerdown' is sound and complete.  A
    handle index is always one of 0..3 and names the first corner, in the
    order top-left, top-right, bottom-right, bottom-left, that the point is
    within 10 pixels of on both axes; the inside of the box is reported
    only for points in the box that are near no corner; nothing is
    reported only for points outside the box that are near no corner. *)
Theorem classify_sound (localX localY w h : R) :
  match classify localX localY w h with
  | HitHandle i =>
      exists k, i = Z.of_nat k /\ (k < 4)%nat
                /\ nearCorner localX localY (nth k (corners w h) (0, 0))
                /\ forall k', (k' < k)%nat ->
                     ~ nearCorner localX localY (nth k' (corners w h) (0, 0))
  | HitInside =>
      Rabs localX <= w / 2 /\ Rabs localY <= h / 2
      /\ Forall (fun c => ~ nearCorner localX localY c) (corners w h)
  | HitNothing =>
      ~ (Rabs localX <= w / 2 /\ Rabs localY <= h / 2)
      /\ Forall (fun c => ~ nearCorner localX localY c) (corners w h)
  end.
Proof.
  unfold classify. cbv zeta. fold (corners w h).
  pose proof (hitHandle_spec localX localY (corners w h) 0) as Hs.
  destruct (hitHandle localX localY 10 (corners w h) 0) as [i|].
  - destruct Hs as (k & Hi & Hk & Hnear & Hfirst).
    exists k. split; [lia|]. split; [exact Hk|]. split; [exact Hnear | exact Hfirst].
  - destruct (Rleb (Rabs localX) (w / 2) && Rleb (Rabs localY) (h / 2)) eqn:E.
    + apply andb_true_iff in E. destruct E as [E1 E2].
      apply Rleb_iff in E1. apply Rleb_iff in E2.
      split; [exact E1|]. split; [exact E2 | exact Hs].
    + split; [|exact Hs]. intros [C1 C2].
      apply Rleb_iff in C1. apply Rleb_iff in C2. rewrite C1, C2 in E. discriminate.
Qed.

Lemma Rabs_bounds (a b : R) : Rabs a <= b <-> - b <= a <= b.
Proof.
  unfold Rabs. destruct (Rcase_abs a); split; intros H; lra.
Qed.

(** A point of a box of at most 20 x 20 is near one of its corners. *)
Lemma small_box_near_corner (localX localY w h : R) :
  0 <= w <= 20 -> 0 <= h <= 20 ->
  Rabs localX <= w / 2 -> Rabs localY <= h / 2 ->
  ~ Forall (fun c => ~ nearCorner localX localY c) (corners w h).
Proof.
  intros Hw Hh Hx Hy Hall.
  apply Rabs_bounds in Hx. apply Rabs_bounds in Hy.
  unfold corners in Hall.
  inversion Hall as [|c0 l0 H0 Hall1]; subst.
  inversion Hall1 as [|c1 l1 H1 Hall2]; subst.
  inversion Hall2 as [|c2 l2 H2 Hall3]; subst.
  inversion Hall3 as [|c3 l3 H3 _]; subst.
  unfold nearCorner in H0, H1, H2, H3. cbn [fst snd] in H0, H1, H2, H3.
  rewrite !Rabs_bounds in H0, H1, H2, H3.
  destruct (Rle_or_lt 0 localX), (Rle_or_lt 0 localY).
  - apply H2. lra.
  - apply H1. lra.
  - apply H3. lra.
  - apply H0. lra.
Qed.

Lemma saveState_frame (s : State) :
  overlayState (saveState s) = overlayState s
  /\ overlayImg (saveState s) = overlayImg s
  /\ overlayOriginalImg (saveState s) = overlayOriginalImg s
  /\ bgImg (saveState s) = bgImg s
  /\ dragging (saveState s) = dragging s
  /\ dragData (saveState s) = dragData s
  /\ resizing (saveState s) = resizing s
  /\ cropMode (saveState s) = cropMode s
  /\ cropping (saveState s) = cropping s
  /\ cropStart (saveState s) = cropStart s
  /\ cropEnd (saveState s) = cropEnd s.
Proof.
  unfold saveState.
  destruct (overlayImg s) eqn:E1, (overlayOriginalImg s) eqn:E2; fields;
    rewrite ?E1, ?E2; repeat (split; [reflexivity|]); reflexivity.
Qed.

(** 'pointerdown' outside crop mode, by what it hits. *)
Lemma pointerdown_classified (s : State) (px py : R) (ov bg : Image) :
  overlayImg s = Some ov -> bgImg s = Some bg -> cropMode s = false ->
  pointerdown px py s
  = match classify (fst (toLocal px py ov (overlayState s)))
                   (snd (toLocal px py ov (overlayState s)))
                   (IZR (width ov) * Rabs (scale (overlayState s)))
                   (IZR (height ov) * Rabs (scale (overlayState s))) with
    | HitHandle i =>
        Done (set_dragging false (set_resizeHandle i (set_resizing true (saveState s))))
    | HitInside =>
        Done (set_dragData (toLocal px py ov (overlayState s))
                (set_dragging true (saveState s)))
    | HitNothing => Done (saveState s)
    end.
Proof.
  intros Eov Ebg Emode. unfold pointerdown. rewrite Eov, Ebg.
  destruct (saveState_frame s) as (F1 & _ & _ & _ & _ & _ & _ & F8 & _).
  rewrite F1, F8, Emode.
  destruct (toLocal px py ov (overlayState s)) as [localX localY].
  cbn [fst snd]. reflexivity.
Qed.

(** X8 -- An overlay whose box is at most 20 x 20 canvas pixels cannot be
    dragged: every point of the box is within 10 pixels of a corner, the
    corners are tested first, so a 'pointerdown' anywhere in the box starts
    a resize and never a drag. *)
Theorem small_overlay_cannot_be_dragged (s : State) (px py : R) (ov bg : Image) :
  overlayImg s = Some ov -> bgImg s = Some bg -> cropMode s = false ->
  0 <= IZR (width ov) * Rabs (scale (overlayState s)) <= 20 ->
  0 <= IZR (height ov) * Rabs (scale (overlayState s)) <= 20 ->
  classify (fst (toLocal px py ov (overlayState s)))
           (snd (toLocal px py ov (overlayState s)))
           (IZR (width ov) * Rabs (scale (overlayState s)))
           (IZR (height ov) * Rabs (scale (overlayState s))) <> HitInside
  /\ dragData (stateOf (pointerdown px py s)) = dragData s
  /\ (dragging (stateOf (pointerdown px py s)) = true -> dragging s = true)
  /\ (Rabs (fst (toLocal px py ov (overlayState s)))
        <= (IZR (width ov) * Rabs (scale (overlayState s))) / 2 ->
      Rabs (snd (toLocal px py ov (overlayState s)))
        <= (IZR (height ov) * Rabs (scale (overlayState s))) / 2 ->
      resizing (stateOf (pointerdown px py s)) = true
      /\ dragging (stateOf (pointerdown px py s)) = false).
Proof.
  intros Eov Ebg Emode Hw Hh.
  rewrite (@pointerdown_classified s px py ov bg Eov Ebg Emode).
  destruct (saveState_frame s) as (_ & _ & _ & _ & F5 & F6 & _).
  pose proof (classify_sound (fst (toLocal px py ov (overlayState s)))
                (snd (toLocal px py ov (overlayState s)))
                (IZR (width ov) * Rabs (scale (overlayState s)))
                (IZR (height ov) * Rabs (scale (overlayState s)))) as Hc.
  destruct (classify _ _ _ _) as [i| |] eqn:E.
  - fields. split; [discriminate|]. split; [exact F6|].
    split; [discriminate|]. intros _ _. split; reflexivity.
  - destruct Hc as (Hx & Hy & Hall).
    exfalso. exact (small_box_near_corner Hw Hh Hx Hy Hall).
  - fields. split; [discriminate|]. split; [exact F6|].
    split; [rewrite F5; trivial|]. intros Hx Hy.
    destruct Hc as (Hout & _). exfalso. apply Hout. split; assumption.
Qed.

Lemma small_overlay_cannot_be_dragged_witness :
  dragData (stateOf (pointerdown 28 26 sampleSmall)) = dragData sampleSmall.
Proof.
  assert (E1 : Rabs 1 = 1) by apply Rabs_R1.
  refine (proj1 (proj2 (@small_overlay_cannot_be_dragged sampleSmall 28 26
                          (mkImage 16 12 []) (mkImage 200 200 [])
                          eq_refl eq_refl eq_refl _ _)));
    cbn [overlayState sampleSmall scale width height]; rewrite E1; lra.
Defined.



Lemma clamp_low (hi v : R) : 0 <= clamp 0 hi v.
Proof. unfold clamp. apply Rmax_l. Qed.

Lemma clamp_empty (hi v : R) : hi < 0 -> clamp 0 hi v = 0.
Proof.
  intros H. unfold clamp. apply Rmax_left.
  eapply Rle_trans; [apply Rmin_r | lra].
Qed.

(** X10 -- A drag move never takes the box out of the background: on each
    axis the origin ends in [[0, bgSize - size]] when the box is not larger
    than the background, and at exactly 0 when it is larger (the box then
    overflows on the far side only). *)
Theorem drag_stays_in_background (s : State) (px py : R) (ov bg : Image) :
  overlayImg s = Some ov -> bgImg s = Some bg ->
  cropping s = false -> resizing s = false -> dragging s = true ->
  0 <= x (overlayState (pointermove px py s))
  /\ 0 <= y (overlayState (pointermove px py s))
  /\ (IZR (width ov) * Rabs (scale (overlayState s)) <= IZR (width bg) ->
      x (overlayState (pointermove px py s))
      + IZR (width ov) * Rabs (scale (overlayState s)) <= IZR (width bg))
  /\ (IZR (height ov) * Rabs (scale (overlayState s)) <= IZR (height bg) ->
      y (overlayState (pointermove px py s))
      + IZR (height ov) * Rabs (scale (overlayState s)) <= IZR (height bg))
  /\ (IZR (width bg) < IZR (width ov) * Rabs (scale (overlayState s)) ->
      x (overlayState (pointermove px py s)) = 0)
  /\ (IZR (height bg) < IZR (height ov) * Rabs (scale (overlayState s)) ->
      y (overlayState (pointermove px py s)) = 0).
Proof.
  intros Eov Ebg Ec Er Ed.
  rewrite (@pointermove_dragging s px py ov bg Eov Ebg Ec Er Ed). fields.
  split; [apply clamp_low|]. split; [apply clamp_low|].
  split; [|split; [|split]].
  - intros H. match goal with |- clamp 0 ?hi ?v + _ <= _ =>
      pose proof (@clamp_bounds 0 hi v) as B end. lra.
  - intros H. match goal with |- clamp 0 ?hi ?v + _ <= _ =>
      pose proof (@clamp_bounds 0 hi v) as B end. lra.
  - intros H. apply clamp_empty. lra.
  - intros H. apply clamp_empty. lra.
Qed.

Lemma drag_stays_in_background_witness :
  0 <= x (overlayState (pointermove 500 (- 30) sampleDrag))
  /\ 0 <= y (overlayState (pointermove 500 (- 30) sampleDrag)).
Proof.
  destruct (@drag_stays_in_background sampleDrag 500 (- 30) (mkImage 100 50 [])
              (mkImage 200 200 []) eq_refl eq_refl eq_refl eq_refl eq_refl)
    as (Hx & Hy & _).
  split; [exact Hx | exact Hy].
Defined.

Lemma ratio_bound (a b c : R) : 0 < b -> c * b <= a -> c <= a / b.
Proof.
  intros Hb H. apply Rmult_le_reg_r with b; [exact Hb|].
  unfold Rdiv. rewrite Rmult_assoc, Rinv_l by lra. lra.
Qed.

Lemma ratio_mult (a b c : R) : 0 < b -> c <= a / b -> b * c <= a.
Proof.
  intros Hb H. apply Rmult_le_compat_l with (r := b) in H; [|lra].
  unfold Rdiv in H. rewrite <- Rmult_assoc, Rinv_r_simpl_m in H by lra. exact H.
Qed.

(** X11 -- A resize move never takes the box out of the background when
    the background can hold the overlay at the minimum scale (5 percent):
    the scaled size is then at most the background size and the clamped box
    lies inside the background on both axes.  When the background is
    narrower than 5 percent of the overlay width the minimum wins: the
    scale is 0.05, the origin is 0 and the box overflows on the right. *)
Theorem resize_stays_in_background (s : State) (px py : R) (ov bg : Image) :
  overlayImg s = Some ov -> bgImg s = Some bg ->
  cropping s = false -> resizing s = true ->
  (0 < width ov)%Z -> (0 < height ov)%Z ->
  0 <= x (overlayState (pointermove px py s))
  /\ 0 <= y (overlayState (pointermove px py s))
  /\ (0.05 * IZR (width ov) <= IZR (width bg) ->
      0.05 * IZR (height ov) <= IZR (height bg) ->
      IZR (width ov) * scale (overlayState (pointermove px py s)) <= IZR (width bg)
      /\ IZR (height ov) * scale (overlayState (pointermove px py s))
         <= IZR (height bg)
      /\ x (overlayState (pointermove px py s))
         + IZR (width ov) * scale (overlayState (pointermove px py s))
         <= IZR (width bg)
      /\ y (overlayState (pointermove px py s))
         + IZR (height ov) * scale (overlayState (pointermove px py s))
         <= IZR (height bg))
  /\ (IZR (width bg) < 0.05 * IZR (width ov) ->
      scale (overlayState (pointermove px py s)) = 0.05
      /\ x (overlayState (pointermove px py s)) = 0
      /\ IZR (width bg)
         < x (overlayState (pointermove px py s))
           + IZR (width ov) * scale (overlayState (pointermove px py s))).
Proof.
  intros Eov Ebg Ec Er HW HH.
  rewrite (@pointermove_resizing s px py ov bg Eov Ebg Ec Er). fields.
  rewrite resizeScale_clamp.
  set (W := IZR (width ov)). set (H := IZR (height ov)).
  set (maxScale := Rmin (IZR (width bg) / W) (IZR (height bg) / H)).
  set (cand := Rmin _ _).
  set (ns := clamp 0.05 maxScale cand).
  assert (HWpos : 0 < W) by (apply (IZR_lt 0), HW).
  assert (HHpos : 0 < H) by (apply (IZR_lt 0), HH).
  split; [apply clamp_low|]. split; [apply clamp_low|]. split.
  - intros Hw Hh.
    assert (Hmax : 0.05 <= maxScale).
    { unfold maxScale. apply Rmin_glb; apply ratio_bound; assumption. }
    destruct (@clamp_bounds 0.05 maxScale cand Hmax) as [Hlo Hhi]. fold ns in Hlo, Hhi.
    assert (Hsw : W * ns <= IZR (width bg)).
    { apply ratio_mult; [exact HWpos|].
      eapply Rle_trans; [exact Hhi | apply Rmin_l]. }
    assert (Hsh : H * ns <= IZR (height bg)).
    { apply ratio_mult; [exact HHpos|].
      eapply Rle_trans; [exact Hhi | apply Rmin_r]. }
    split; [exact Hsw|]. split; [exact Hsh|]. split.
    + match goal with |- clamp 0 ?hi ?v + _ <= _ =>
        pose proof (@clamp_bounds 0 hi v) as B end. lra.
    + match goal with |- clamp 0 ?hi ?v + _ <= _ =>
        pose proof (@clamp_bounds 0 hi v) as B end. lra.
  - intros Hsmall.
    assert (Hmax : maxScale < 0.05).
    { unfold maxScale. eapply Rle_lt_trans; [apply Rmin_l|].
      apply Rmult_lt_reg_r with W; [exact HWpos|].
      unfold Rdiv. rewrite Rmult_assoc, Rinv_l by lra. lra. }
    assert (Ens : ns = 0.05).
    { unfold ns, clamp. apply Rmax_left.
      eapply Rle_trans; [apply Rmin_r | lra]. }
    rewrite Ens. split; [reflexivity|].
    assert (Ex : clamp 0 (IZR (width bg) - W * 0.05)
                   (x (overlayState s) + W * Rabs (scale (overlayState s)) / 2
                    - W * 0.05 / 2) = 0)
      by (apply clamp_empty; lra).
    rewrite Ex. split; [reflexivity | lra].
Qed.

Lemma resize_stays_in_background_witness :
  0 <= x (overlayState (pointermove 400 300 sampleResize))
  /\ 100 * scale (overlayState (pointermove 400 300 sampleResize)) <= 200.
Proof.
  destruct (@resize_stays_in_background sampleResize 400 300 (mkImage 100 50 [])
              (mkImage 200 200 []) eq_refl eq_refl eq_refl eq_refl eq_refl eq_refl)
    as (Hx & _ & Hin & _).
  split; [exact Hx|].
  cbn [width height] in Hin.
  destruct Hin as (Hw & _); [lra | lra | exact Hw].
Defined.

Lemma rotate_back (dx dy theta : R) :
  (dx * cos (- theta) - dy * sin (- theta)) * cos theta
  - (dx * sin (- theta) + dy * cos (- theta)) * sin theta = dx
  /\ (dx * cos (- theta) - dy * sin (- theta)) * sin theta
     + (dx * sin (- theta) + dy * cos (- theta)) * cos theta = dy.
Proof.
  rewrite cos_neg, sin_neg.
  pose proof (sin2_cos2 theta) as E. unfold Rsqr in E.
  split.
  - transitivity (dx * (sin theta * sin theta + cos theta * cos theta)); [ring|].
    rewrite E. ring.
  - transitivity (dy * (sin theta * sin theta + cos theta * cos theta)); [ring|].
    rewrite E. ring.
Qed.

(** X12 -- The overlay follows the pointer.  After a 'pointerdown' that
    starts a drag at [(px, py)], a 'pointermove' to [(qx, qy)] puts the
    origin at the old origin plus the displacement of the pointer, at any
    rotation angle, and then clamps it; in particular a move to the
    starting point leaves a box that is inside the background where it
    is (the overlay does not jump when it is grabbed). *)
Theorem drag_follows_pointer (s : State) (px py qx qy : R) (ov bg : Image) :
  overlayImg s = Some ov -> bgImg s = Some bg ->
  cropMode s = false -> cropping s = false -> resizing s = false ->
  classify (fst (toLocal px py ov (overlayState s)))
           (snd (toLocal px py ov (overlayState s)))
           (IZR (width ov) * Rabs (scale (overlayState s)))
           (IZR (height ov) * Rabs (scale (overlayState s))) = HitInside ->
  x (overlayState (pointermove qx qy (stateOf (pointerdown px py s))))
  = clamp 0 (IZR (width bg) - IZR (width ov) * Rabs (scale (overlayState s)))
          (x (overlayState s) + (qx - px))
  /\ y (overlayState (pointermove qx qy (stateOf (pointerdown px py s))))
     = clamp 0 (IZR (height bg) - IZR (height ov) * Rabs (scale (overlayState s)))
             (y (overlayState s) + (qy - py))
  /\ (0 <= x (overlayState s)
        <= IZR (width bg) - IZR (width ov) * Rabs (scale (overlayState s)) ->
      0 <= y (overlayState s)
        <= IZR (height bg) - IZR (height ov) * Rabs (scale (overlayState s)) ->
      overlayState (pointermove px py (stateOf (pointerdown px py s)))
      = overlayState s).
Proof.
  intros Eov Ebg Emode Ec Er Hhit.
  assert (Hgen : forall rx ry,
    x (overlayState (pointermove rx ry (stateOf (pointerdown px py s))))
    = clamp 0 (IZR (width bg) - IZR (width ov) * Rabs (scale (overlayState s)))
            (x (overlayState s) + (rx - px))
    /\ y (overlayState (pointermove rx ry (stateOf (pointerdown px py s))))
       = clamp 0 (IZR (height bg) - IZR (height ov) * Rabs (scale (overlayState s)))
               (y (overlayState s) + (ry - py))
    /\ scale (overlayState (pointermove rx ry (stateOf (pointerdown px py s))))
       = scale (overlayState s)
    /\ angle (overlayState (pointermove rx ry (stateOf (pointerdown px py s))))
       = angle (overlayState s)
    /\ flipH (overlayState (pointermove rx ry (stateOf (pointerdown px py s))))
       = flipH (overlayState s)
    /\ flipV (overlayState (pointermove rx ry (stateOf (pointerdown px py s))))
       = flipV (overlayState s)).
  { intros rx ry.
    rewrite (@pointerdown_classified s px py ov bg Eov Ebg Emode), Hhit.
    cbn [stateOf].
    destruct (saveState_frame s)
      as (F1 & F2 & _ & F4 & _ & _ & F7 & _ & F9 & _).
    rewrite (@pointermove_dragging _ rx ry ov bg);
      [|fields; rewrite ?F2, ?F4, ?F7, ?F9; assumption ..| fields; reflexivity].
    fields. rewrite F1.
    unfold dragOrigin, toLocal. cbn [fst snd].
    replace ((- angle (overlayState s) * PI) / 180)
      with (- ((angle (overlayState s) * PI) / 180)) by lra.
    match goal with
    | |- context [?a * cos (- ?th) - ?b * sin (- ?th)] =>
        destruct (rotate_back a b th) as [Rx Ry]
    end.
    rewrite Rx, Ry.
    split; [f_equal; lra|]. split; [f_equal; lra|]. repeat split. }
  destruct (Hgen qx qy) as (Gx & Gy & _).
  split; [exact Gx|]. split; [exact Gy|].
  intros Hx Hy. destruct (Hgen px py) as (Px & Py & Ps & Pa & Ph & Pv).
  replace (x (overlayState s) + (px - px)) with (x (overlayState s)) in Px by lra.
  replace (y (overlayState s) + (py - py)) with (y (overlayState s)) in Py by lra.
  rewrite (clamp_inactive Hx) in Px. rewrite (clamp_inactive Hy) in Py.
  destruct (overlayState (pointermove px py (stateOf (pointerdown px py s)))) as [a b c d e f].
  destruct (overlayState s) as [a' b' c' d' e' f'].
  cbn [x y scale angle flipH flipV] in *. subst. reflexivity.
Qed.

Lemma Rabs_above (a b : R) : b < a \/ a < - b -> b < Rabs a.
Proof. intros H. unfold Rabs. destruct (Rcase_abs a); lra. Qed.

(** Decides the tests of a hit classification on concrete numbers. *)
Ltac decide_tests :=
  repeat match goal with
         | |- context [Rleb ?a ?b] =>
             first [ rewrite (@Rleb_true a b) by (apply Rabs_bounds; lra)
                   | rewrite (@Rleb_false a b)
                       by (apply Rabs_above; first [left; lra | right; lra]) ]
         end.

Lemma sampleIdle_grab :
  classify (fst (toLocal 70 45 (mkImage 100 50 []) (overlayState sampleIdle)))
           (snd (toLocal 70 45 (mkImage 100 50 []) (overlayState sampleIdle)))
           (IZR (width (mkImage 100 50 [])) * Rabs (scale (overlayState sampleIdle)))
           (IZR (height (mkImage 100 50 [])) * Rabs (scale (overlayState sampleIdle)))
  = HitInside.
Proof.
  unfold toLocal, classify.
  cbn [overlayState sampleIdle x y scale angle fst snd hitHandle width height].
  replace ((- 0 * PI) / 180) with 0 by lra.
  rewrite cos_0, sin_0, Rabs_R1.
  decide_tests. reflexivity.
Qed.

Lemma drag_follows_pointer_witness :
  x (overlayState (pointermove 75 50 (stateOf (pointerdown 70 45 sampleIdle))))
  = clamp 0 (200 - 100 * Rabs 1) (20 + (75 - 70))
  /\ overlayState (pointermove 70 45 (stateOf (pointerdown 70 45 sampleIdle)))
     = overlayState sampleIdle.
Proof.
  assert (E1 : Rabs 1 = 1) by apply Rabs_R1.
  destruct (@drag_follows_pointer sampleIdle 70 45 75 50 (mkImage 100 50 [])
              (mkImage 200 200 []) eq_refl eq_refl eq_refl eq_refl eq_refl
              sampleIdle_grab) as (Hx & _ & Hstay).
  split; [exact Hx|].
  apply Hstay; cbn [overlayState sampleIdle x y scale width height];
    rewrite E1; lra.
Defined.

(* ===================================================================== *)
(** * More on the buttons and the file inputs *)
(* ===================================================================== *)

Lemma fitScale_bounds (bg ov : Image) :
  (0 < width ov)%Z -> (0 < height ov)%Z ->
  (0 <= width bg)%Z -> (0 <= height bg)%Z ->
  0 <= fitScale bg ov <= 1
  /\ IZR (width ov) * fitScale bg ov <= IZR (width bg)
  /\ IZR (height ov) * fitScale bg ov <= IZR (height bg)
  /\ ((width ov <= width bg)%Z -> (height ov <= height bg)%Z -> fitScale bg ov = 1).
Proof.
  intros HW HH HbW HbH.
  assert (W : 0 < IZR (width ov)) by (apply (IZR_lt 0), HW).
  assert (H : 0 < IZR (height ov)) by (apply (IZR_lt 0), HH).
  assert (bW : 0 <= IZR (width bg)) by (apply (IZR_le 0), HbW).
  assert (bH : 0 <= IZR (height bg)) by (apply (IZR_le 0), HbH).
  unfold fitScale. cbv zeta.
  set (sx := IZR (width bg) / IZR (width ov)).
  set (sy := IZR (height bg) / IZR (height ov)).
  assert (Hsx : 0 <= sx) by (apply ratio_bound; lra).
  assert (Hsy : 0 <= sy) by (apply ratio_bound; lra).
  split; [split|split; [|split]].
  - repeat apply Rmin_glb; lra.
  - apply Rmin_r.
  - apply ratio_mult; [exact W|].
    eapply Rle_trans; [apply Rmin_l | apply Rmin_l].
  - apply ratio_mult; [exact H|].
    eapply Rle_trans; [apply Rmin_l | apply Rmin_r].
  - intros Lw Lh. apply IZR_le in Lw. apply IZR_le in Lh.
    apply Rmin_right. apply Rmin_glb; apply ratio_bound; lra.
Qed.

(** X13 -- Choosing an overlay with a background loaded installs the keyed
    raster as both overlay images, at angle 0 and not flipped, at the
    largest scale up to 1 that fits the background (exactly 1 when the
    raster fits unscaled), with its box inside the background at most 20
    pixels from the top-left corner; crop mode is left, the redo stack is
    empty and the undo stack holds one entry, which is a copy of the state
    just installed, so the first [undo] changes neither the overlay nor the
    transform. *)
Theorem loadOverlay_places_inside (s : State) (rawImg bg : Image) :
  bgImg s = Some bg ->
  (0 < width rawImg)%Z -> (0 < height rawImg)%Z ->
  (0 <= width bg)%Z -> (0 <= height bg)%Z ->
  overlayImg (loadOverlay rawImg s) = Some (ChromaKey.applyGreyKey rawImg)
  /\ overlayOriginalImg (loadOverlay rawImg s) = Some (ChromaKey.applyGreyKey rawImg)
  /\ angle (overlayState (loadOverlay rawImg s)) = 0
  /\ flipH (overlayState (loadOverlay rawImg s)) = false
  /\ flipV (overlayState (loadOverlay rawImg s)) = false
  /\ 0 <= scale (overlayState (loadOverlay rawImg s)) <= 1
  /\ ((width rawImg <= width bg)%Z -> (height rawImg <= height bg)%Z ->
      scale (overlayState (loadOverlay rawImg s)) = 1)
  /\ 0 <= x (overlayState (loadOverlay rawImg s)) <= 20
  /\ 0 <= y (overlayState (loadOverlay rawImg s)) <= 20
  /\ x (overlayState (loadOverlay rawImg s))
     + IZR (width rawImg) * scale (overlayState (loadOverlay rawImg s))
     <= IZR (width bg)
  /\ y (overlayState (loadOverlay rawImg s))
     + IZR (height rawImg) * scale (overlayState (loadOverlay rawImg s))
     <= IZR (height bg)
  /\ cropMode (loadOverlay rawImg s) = false
  /\ cropping (loadOverlay rawImg s) = false
  /\ redoStack (loadOverlay rawImg s) = []
  /\ undoStack (loadOverlay rawImg s)
     = [currentSnapshot (loadOverlay rawImg s)]
  /\ overlayImg (undo (loadOverlay rawImg s)) = overlayImg (loadOverlay rawImg s)
  /\ overlayState (undo (loadOverlay rawImg s))
     = overlayState (loadOverlay rawImg s).
Proof.
  intros Ebg HW HH HbW HbH.
  assert (Hfit := @fitScale_bounds bg (ChromaKey.applyGreyKey rawImg) HW HH HbW HbH).
  change (width (ChromaKey.applyGreyKey rawImg)) with (width rawImg) in Hfit.
  change (height (ChromaKey.applyGreyKey rawImg)) with (height rawImg) in Hfit.
  destruct Hfit as ((F0 & F1) & FW & FH & Fone).
  assert (Hstack : undoStack (loadOverlay rawImg s)
                   = push [] (currentSnapshot (loadOverlay rawImg s))).
  { unfold loadOverlay. rewrite Ebg. unfold saveState, currentSnapshot. fields.
    reflexivity. }
  assert (Hcur : currentSnapshot (loadOverlay rawImg s)
                 = Snap (src (ChromaKey.applyGreyKey rawImg))
                        (src (ChromaKey.applyGreyKey rawImg))
                        (overlayState (loadOverlay rawImg s))).
  { unfold loadOverlay. rewrite Ebg. unfold saveState, currentSnapshot. fields.
    reflexivity. }
  assert (Hundo := Hstack). rewrite Hcur in Hundo.
  destruct (@undo_top _ _ _ _ _ Hundo) as (U1 & _ & U3 & _).
  rewrite U1, U3.
  split; [unfold loadOverlay; rewrite Ebg; unfold saveState; fields; reflexivity|].
  split; [unfold loadOverlay; rewrite Ebg; unfold saveState; fields; reflexivity|].
  assert (Et : overlayState (loadOverlay rawImg s)
               = mkTransform
                   (Rmin 20 (IZR (width bg) - IZR (width rawImg)
                                               * fitScale bg (ChromaKey.applyGreyKey rawImg)))
                   (Rmin 20 (IZR (height bg) - IZR (height rawImg)
                                                * fitScale bg (ChromaKey.applyGreyKey rawImg)))
                   (fitScale bg (ChromaKey.applyGreyKey rawImg)) 0 false false).
  { unfold loadOverlay. rewrite Ebg. unfold saveState. fields. reflexivity. }
  rewrite Et. cbn [x y scale angle flipH flipV].
  set (f := fitScale bg (ChromaKey.applyGreyKey rawImg)) in *.
  pose proof (Rmin_l 20 (IZR (width bg) - IZR (width rawImg) * f)).
  pose proof (Rmin_r 20 (IZR (width bg) - IZR (width rawImg) * f)).
  pose proof (Rmin_l 20 (IZR (height bg) - IZR (height rawImg) * f)).
  pose proof (Rmin_r 20 (IZR (height bg) - IZR (height rawImg) * f)).
  assert (0 <= Rmin 20 (IZR (width bg) - IZR (width rawImg) * f))
    by (apply Rmin_glb; lra).
  assert (0 <= Rmin 20 (IZR (height bg) - IZR (height rawImg) * f))
    by (apply Rmin_glb; lra).
  split; [reflexivity|]. split; [reflexivity|]. split; [reflexivity|].
  split; [lra|]. split; [exact Fone|].
  split; [lra|]. split; [lra|]. split; [lra|]. split; [lra|].
  split; [unfold loadOverlay; rewrite Ebg; unfold saveState; fields; reflexivity|].
  split; [unfold loadOverlay; rewrite Ebg; unfold saveState; fields; reflexivity|].
  split; [unfold loadOverlay; rewrite Ebg; unfold saveState; fields; reflexivity|].
  split; [exact Hstack|].
  split; [unfold loadOverlay; rewrite Ebg; unfold saveState; fields; reflexivity|].
  reflexivity.
Qed.

Lemma loadOverlay_places_inside_witness :
  0 <= x (overlayState sampleLoaded) <= 20
  /\ undoStack sampleLoaded = [currentSnapshot sampleLoaded].
Proof.
  assert (Ebg : bgImg (step initialState (BackgroundChosen sampleBackground))
                = Some sampleBackground) by reflexivity.
  destruct (@loadOverlay_places_inside
              (step initialState (BackgroundChosen sampleBackground))
              sampleRaster sampleBackground Ebg)
    as (_ & _ & _ & _ & _ & _ & _ & Hx & _ & _ & _ & _ & _ & _ & Hu & _);
    try (cbn [width height sampleRaster sampleBackground]; lia).
  split; [exact Hx | exact Hu].
Defined.

(** X14 -- Choosing a background while an overlay is loaded refits the
    overlay.  Whatever the scale was, it becomes
    [min(bgWidth / width, bgHeight / height, 1)], which is the largest
    scale up to 1 at which the overlay is no wider and no higher than the
    new background: it fits at that scale, and every scale up to 1 at
    which it fits is at most that one.  Each coordinate of the origin
    becomes the smaller of its old value and the background size minus
    the scaled size, so the origin moves left and up just enough for the
    box to end inside the background; angle and flips are kept.  No
    history is recorded: both stacks and both overlay images are as
    before, so the refit cannot be undone. *)
Theorem loadBackground_refits (s : State) (img ov : Image) :
  overlayImg s = Some ov ->
  (0 < width ov)%Z -> (0 < height ov)%Z ->
  (0 <= width img)%Z -> (0 <= height img)%Z ->
  bgImg (loadBackground img s) = Some img
  /\ overlayImg (loadBackground img s) = Some ov
  /\ overlayOriginalImg (loadBackground img s) = overlayOriginalImg s
  /\ undoStack (loadBackground img s) = undoStack s
  /\ redoStack (loadBackground img s) = redoStack s
  /\ scale (overlayState (loadBackground img s))
     = Rmin (Rmin (IZR (width img) / IZR (width ov))
                  (IZR (height img) / IZR (height ov))) 1
  /\ 0 <= scale (overlayState (loadBackground img s)) <= 1
  /\ IZR (width ov) * scale (overlayState (loadBackground img s)) <= IZR (width img)
  /\ IZR (height ov) * scale (overlayState (loadBackground img s))
     <= IZR (height img)
  /\ (forall t : R,
        t <= 1 -> IZR (width ov) * t <= IZR (width img) ->
        IZR (height ov) * t <= IZR (height img) ->
        t <= scale (overlayState (loadBackground img s)))
  /\ x (overlayState (loadBackground img s))
     = Rmin (x (overlayState s))
            (IZR (width img)
             - IZR (width ov) * scale (overlayState (loadBackground img s)))
  /\ y (overlayState (loadBackground img s))
     = Rmin (y (overlayState s))
            (IZR (height img)
             - IZR (height ov) * scale (overlayState (loadBackground img s)))
  /\ x (overlayState (loadBackground img s)) <= x (overlayState s)
  /\ y (overlayState (loadBackground img s)) <= y (overlayState s)
  /\ x (overlayState (loadBackground img s))
     + IZR (width ov) * scale (overlayState (loadBackground img s))
     <= IZR (width img)
  /\ y (overlayState (loadBackground img s))
     + IZR (height ov) * scale (overlayState (loadBackground img s))
     <= IZR (height img)
  /\ (0 <= x (overlayState s) -> 0 <= x (overlayState (loadBackground img s)))
  /\ (0 <= y (overlayState s) -> 0 <= y (overlayState (loadBackground img s)))
  /\ angle (overlayState (loadBackground img s)) = angle (overlayState s)
  /\ flipH (overlayState (loadBackground img s)) = flipH (overlayState s)
  /\ flipV (overlayState (loadBackground img s)) = flipV (overlayState s).
Proof.
  intros Eov HW HH HbW HbH.
  destruct (@fitScale_bounds img ov HW HH HbW HbH) as ((F0 & F1) & FW & FH & _).
  assert (W : 0 < IZR (width ov)) by (apply (IZR_lt 0), HW).
  assert (H : 0 < IZR (height ov)) by (apply (IZR_lt 0), HH).
  assert (Fmax : forall t : R,
            t <= 1 -> IZR (width ov) * t <= IZR (width img) ->
            IZR (height ov) * t <= IZR (height img) -> t <= fitScale img ov).
  { intros t Ht Hw Hh. unfold fitScale. cbv zeta.
    apply Rmin_glb; [apply Rmin_glb|exact Ht]; apply ratio_bound; lra. }
  assert (Fdef : fitScale img ov
                 = Rmin (Rmin (IZR (width img) / IZR (width ov))
                              (IZR (height img) / IZR (height ov))) 1)
    by reflexivity.
  unfold loadBackground. fields. rewrite Eov. fields.
  set (f := fitScale img ov) in *.
  pose proof (Rmin_l (x (overlayState s)) (IZR (width img) - IZR (width ov) * f)).
  pose proof (Rmin_r (x (overlayState s)) (IZR (width img) - IZR (width ov) * f)).
  pose proof (Rmin_l (y (overlayState s)) (IZR (height img) - IZR (height ov) * f)).
  pose proof (Rmin_r (y (overlayState s)) (IZR (height img) - IZR (height ov) * f)).
  split; [reflexivity|]. split; [exact Eov|]. split; [reflexivity|].
  split; [reflexivity|]. split; [reflexivity|]. split; [exact Fdef|].
  split; [lra|]. split; [exact FW|]. split; [exact FH|]. split; [exact Fmax|].
  split; [reflexivity|]. split; [reflexivity|].
  split; [lra|]. split; [lra|]. split; [lra|]. split; [lra|].
  split; [intros Hx; apply Rmin_glb; lra|].
  split; [intros Hy; apply Rmin_glb; lra|].
  repeat split.
Qed.

Lemma loadBackground_refits_witness :
  undoStack (loadBackground (mkImage 50 50 []) sampleIdle) = undoStack sampleIdle
  /\ scale (overlayState (loadBackground (mkImage 50 50 []) sampleIdle))
     = Rmin (Rmin (50 / 100) (50 / 50)) 1
  /\ 0.5 <= scale (overlayState (loadBackground (mkImage 50 50 []) sampleIdle)).
Proof.
  destruct (@loadBackground_refits sampleIdle (mkImage 50 50 []) (mkImage 100 50 [])
              eq_refl)
    as (_ & _ & _ & Hu & _ & Hdef & _ & _ & _ & Hmax & _);
    try (cbn [width height]; lia).
  split; [exact Hu|]. split; [exact Hdef|].
  apply Hmax; cbn [width height]; lra.
Defined.

(** The bigger button, as one equation. *)
Lemma bigger_cases (s : State) (ov bg : Image) :
  overlayImg s = Some ov -> bgImg s = Some bg ->
  bigger s
  = if Rgtb (IZR (width ov) * Rabs (scale (overlayState s) * 1.10)) (IZR (width bg))
       || Rgtb (IZR (height ov) * Rabs (scale (overlayState s) * 1.10)) (IZR (height bg))
    then saveState s
    else assign (set_scale (scale (overlayState s) * 1.10)) (saveState s).
Proof.
  intros Eov Ebg. unfold bigger. rewrite Eov.
  destruct (saveState_frame s) as (F1 & _ & _ & F4 & _).
  rewrite F4, Ebg, F1. reflexivity.
Qed.

Lemma Rgtb_iff (a b : R) : Rgtb a b = true <-> b < a.
Proof.
  unfold Rgtb, Rltb. destruct (Rlt_dec b a); split; intros H;
    try reflexivity; try assumption; try discriminate; contradiction.
Qed.

(** X15 -- The bigger button multiplies the scale by 1.1 only if the
    enlarged overlay is no wider and no higher than the background;
    otherwise it leaves the transform alone.  Either way it has already
    recorded an undo entry and emptied the redo stack, so a refused click
    still costs the redo history.  It never moves the origin, so an overlay
    that fitted the background still fits it in size afterwards. *)
Theorem bigger_respects_background (s : State) (ov orig bg : Image) :
  overlayImg s = Some ov -> overlayOriginalImg s = Some orig -> bgImg s = Some bg ->
  undoStack (bigger s)
  = push (undoStack s) (Snap (src ov) (src orig) (overlayState s))
  /\ redoStack (bigger s) = []
  /\ x (overlayState (bigger s)) = x (overlayState s)
  /\ y (overlayState (bigger s)) = y (overlayState s)
  /\ angle (overlayState (bigger s)) = angle (overlayState s)
  /\ flipH (overlayState (bigger s)) = flipH (overlayState s)
  /\ flipV (overlayState (bigger s)) = flipV (overlayState s)
  /\ (IZR (width ov) * Rabs (scale (overlayState s) * 1.10) <= IZR (width bg) ->
      IZR (height ov) * Rabs (scale (overlayState s) * 1.10) <= IZR (height bg) ->
      scale (overlayState (bigger s)) = scale (overlayState s) * 1.10)
  /\ (IZR (width bg) < IZR (width ov) * Rabs (scale (overlayState s) * 1.10)
      \/ IZR (height bg) < IZR (height ov) * Rabs (scale (overlayState s) * 1.10) ->
      overlayState (bigger s) = overlayState s)
  /\ (IZR (width ov) * Rabs (scale (overlayState s)) <= IZR (width bg) ->
      IZR (height ov) * Rabs (scale (overlayState s)) <= IZR (height bg) ->
      IZR (width ov) * Rabs (scale (overlayState (bigger s))) <= IZR (width bg)
      /\ IZR (height ov) * Rabs (scale (overlayState (bigger s))) <= IZR (height bg)).
Proof.
  intros Eov Eorig Ebg.
  rewrite (@bigger_cases s ov bg Eov Ebg).
  rewrite (saveState_loaded s Eov Eorig).
  set (w' := IZR (width ov) * Rabs (scale (overlayState s) * 1.10)).
  set (h' := IZR (height ov) * Rabs (scale (overlayState s) * 1.10)).
  destruct (Rgtb w' (IZR (width bg)) || Rgtb h' (IZR (height bg))) eqn:E; fields.
  - apply orb_true_iff in E. rewrite !Rgtb_iff in E.
    repeat split; try reflexivity; try tauto; intros; lra.
  - apply orb_false_iff in E. destruct E as [E1 E2].
    assert (Hw : w' <= IZR (width bg)).
    { destruct (Rle_or_lt w' (IZR (width bg))) as [Hle|Hgt]; [exact Hle|].
      apply Rgtb_iff in Hgt. rewrite Hgt in E1. discriminate. }
    assert (Hh : h' <= IZR (height bg)).
    { destruct (Rle_or_lt h' (IZR (height bg))) as [Hle|Hgt]; [exact Hle|].
      apply Rgtb_iff in Hgt. rewrite Hgt in E2. discriminate. }
    repeat split; try reflexivity; try assumption.
    intros [C|C]; lra.
Qed.

Lemma bigger_respects_background_witness :
  redoStack (bigger sampleIdle) = []
  /\ x (overlayState (bigger sampleIdle)) = 20.
Proof.
  destruct (@bigger_respects_background sampleIdle (mkImage 100 50 [])
              (mkImage 100 50 []) (mkImage 200 200 []) eq_refl eq_refl eq_refl)
    as (_ & Hr & Hx & _).
  split; [exact Hr | exact Hx].
Defined.

(** The smaller button, as one equation. *)
Lemma smaller_cases (s : State) (ov bg : Image) :
  overlayImg s = Some ov -> bgImg s = Some bg ->
  overlayState (smaller s)
  = mkTransform
      (Rmin (x (overlayState s))
            (IZR (width bg)
             - IZR (width ov) * Rabs (scale (overlayState s) * (1 / 1.10))))
      (Rmin (y (overlayState s))
            (IZR (height bg)
             - IZR (height ov) * Rabs (scale (overlayState s) * (1 / 1.10))))
      (scale (overlayState s) * (1 / 1.10)) (angle (overlayState s))
      (flipH (overlayState s)) (flipV (overlayState s))
  /\ historyView (smaller s) = historyView (saveState s).
Proof.
  intros Eov Ebg. unfold smaller, historyView. rewrite Eov.
  destruct (saveState_frame s) as (F1 & _ & _ & F4 & _).
  fields. rewrite F4, Ebg. fields. rewrite F1. split; reflexivity.
Qed.

(** X16 -- The smaller button divides the scale by 1.1, with no lower
    limit (a positive scale stays positive and strictly decreases, below
    the 0.05 floor of the resize handles too), keeps angle and flips, and
    only ever moves the origin left or up; a box that was inside the
    background is not moved at all and stays inside.  It records an undo
    entry and empties the redo stack. *)
Theorem smaller_keeps_inside (s : State) (ov orig bg : Image) :
  overlayImg s = Some ov -> overlayOriginalImg s = Some orig -> bgImg s = Some bg ->
  (0 <= width ov)%Z -> (0 <= height ov)%Z ->
  scale (overlayState (smaller s)) = scale (overlayState s) * (1 / 1.10)
  /\ (0 < scale (overlayState s) ->
      0 < scale (overlayState (smaller s)) < scale (overlayState s))
  /\ x (overlayState (smaller s)) <= x (overlayState s)
  /\ y (overlayState (smaller s)) <= y (overlayState s)
  /\ (x (overlayState s) + IZR (width ov) * Rabs (scale (overlayState s))
        <= IZR (width bg) ->
      x (overlayState (smaller s)) = x (overlayState s))
  /\ (y (overlayState s) + IZR (height ov) * Rabs (scale (overlayState s))
        <= IZR (height bg) ->
      y (overlayState (smaller s)) = y (overlayState s))
  /\ angle (overlayState (smaller s)) = angle (overlayState s)
  /\ flipH (overlayState (smaller s)) = flipH (overlayState s)
  /\ flipV (overlayState (smaller s)) = flipV (overlayState s)
  /\ undoStack (smaller s)
     = push (undoStack s) (Snap (src ov) (src orig) (overlayState s))
  /\ redoStack (smaller s) = [].
Proof.
  intros Eov Eorig Ebg HW HH.
  destruct (@smaller_cases s ov bg Eov Ebg) as (Et & Hv).
  rewrite (saveState_loaded s Eov Eorig) in Hv. unfold historyView in Hv. fields.
  injection Hv as _ _ Hu Hr.
  rewrite Et, Hu, Hr. cbn [x y scale angle flipH flipV].
  assert (W : 0 <= IZR (width ov)) by (apply (IZR_le 0), HW).
  assert (H : 0 <= IZR (height ov)) by (apply (IZR_le 0), HH).
  assert (Habs : Rabs (scale (overlayState s) * (1 / 1.10))
                 <= Rabs (scale (overlayState s))).
  { rewrite Rabs_mult. rewrite (Rabs_pos_eq (1 / 1.10)) by lra.
    pose proof (Rabs_pos (scale (overlayState s))). lra. }
  assert (Hw : IZR (width ov) * Rabs (scale (overlayState s) * (1 / 1.10))
               <= IZR (width ov) * Rabs (scale (overlayState s)))
    by (apply Rmult_le_compat_l; assumption).
  assert (Hh : IZR (height ov) * Rabs (scale (overlayState s) * (1 / 1.10))
               <= IZR (height ov) * Rabs (scale (overlayState s)))
    by (apply Rmult_le_compat_l; assumption).
  split; [reflexivity|]. split; [intros Hs; lra|].
  split; [apply Rmin_l|]. split; [apply Rmin_l|].
  split; [intros Hin; apply Rmin_left; lra|].
  split; [intros Hin; apply Rmin_left; lra|].
  repeat split.
Qed.

Lemma smaller_keeps_inside_witness :
  x (overlayState (smaller sampleIdle)) = 20
  /\ 0 < scale (overlayState (smaller sampleIdle)) < 1.
Proof.
  assert (E1 : Rabs 1 = 1) by apply Rabs_R1.
  destruct (@smaller_keeps_inside sampleIdle (mkImage 100 50 []) (mkImage 100 50 [])
              (mkImage 200 200 []) eq_refl eq_refl eq_refl)
    as (_ & Hs & _ & _ & Hx & _); try (cbn [width height]; lia).
  split.
  - apply Hx. cbn [overlayState sampleIdle x scale width]. rewrite E1. lra.
  - apply Hs. cbn [overlayState sampleIdle scale]. lra.
Defined.

(* ===================================================================== *)
(** * More on cropping *)
(* ===================================================================== *)

(** X17 -- The crop button toggles crop mode and always forgets the
    selection.  Entering crop mode records an undo entry and empties the
    redo stack although nothing has been edited; leaving it records
    nothing.  So entering and at once cancelling crop mode leaves the
    overlay and the transform as they were but costs the redo history. *)
Theorem crop_button_toggles (s : State) (ov orig : Image) :
  overlayImg s = Some ov -> overlayOriginalImg s = Some orig ->
  cropMode (cropClick s) = negb (cropMode s)
  /\ cropping (cropClick s) = false
  /\ cropStart (cropClick s) = None
  /\ cropEnd (cropClick s) = None
  /\ overlayState (cropClick s) = overlayState s
  /\ overlayImg (cropClick s) = Some ov
  /\ (cropMode s = true ->
      undoStack (cropClick s) = undoStack s /\ redoStack (cropClick s) = redoStack s)
  /\ (cropMode s = false ->
      undoStack (cropClick s)
      = push (undoStack s) (Snap (src ov) (src orig) (overlayState s))
      /\ redoStack (cropClick s) = []
      /\ cropMode (cropClick (cropClick s)) = false
      /\ overlayState (cropClick (cropClick s)) = overlayState s
      /\ undoStack (cropClick (cropClick s))
         = push (undoStack s) (Snap (src ov) (src orig) (overlayState s))
      /\ redoStack (cropClick (cropClick s)) = []).
Proof.
  intros Eov Eorig.
  assert (Hon : cropMode s = true -> cropClick s = resetCrop s).
  { intros E. unfold cropClick. rewrite Eov, E. reflexivity. }
  assert (Hoff : cropMode s = false ->
                 cropClick s
                 = set_cropEnd None (set_cropStart None (set_cropping false
                     (set_cropMode true (saveState s))))).
  { intros E. unfold cropClick. rewrite Eov, E. reflexivity. }
  destruct (cropMode s) eqn:E.
  - rewrite (Hon eq_refl). fields.
    split; [reflexivity|]. split; [reflexivity|]. split; [reflexivity|].
    split; [reflexivity|]. split; [reflexivity|]. split; [exact Eov|].
    split; [intros _; split; reflexivity | discriminate].
  - rewrite (Hoff eq_refl). rewrite (saveState_loaded s Eov Eorig). fields.
    split; [reflexivity|]. split; [reflexivity|]. split; [reflexivity|].
    split; [reflexivity|]. split; [reflexivity|]. split; [exact Eov|].
    split; [discriminate|]. intros _.
    split; [reflexivity|]. split; [reflexivity|].
    unfold cropClick. fields. rewrite Eov. fields. repeat split.
Qed.

Lemma crop_button_toggles_witness :
  cropMode (cropClick sampleIdle) = true
  /\ overlayState (cropClick (cropClick sampleIdle)) = overlayState sampleIdle.
Proof.
  destruct (@crop_button_toggles sampleIdle (mkImage 100 50 []) (mkImage 100 50 [])
              eq_refl eq_refl) as (Hm & _ & _ & _ & _ & _ & _ & Hoff).
  destruct (Hoff eq_refl) as (_ & _ & _ & Hst & _).
  split; [exact Hm | exact Hst].
Defined.

(** X18 -- A crop costs two undo steps.  From a reachable state outside
    crop mode, the crop button followed by a whole pointer gesture leaves
    two new undo entries, both copies of the state before the button was
    pressed: the first [undo] brings back the raster and transform from
    before the crop, and the second [undo] changes neither. *)
Theorem crop_records_twice (s : State) (px py : R) (positions : list (R * R))
  (ov bg : Image) :
  reachable s -> overlayImg s = Some ov -> bgImg s = Some bg ->
  cropMode s = false ->
  undoStack (stateOf (pointerup (pointermoves positions
               (stateOf (pointerdown px py (cropClick s))))))
  = push (push (undoStack s) (Snap (src ov) (src ov) (overlayState s)))
         (Snap (src ov) (src ov) (overlayState s))
  /\ overlayImg (undo (stateOf (pointerup (pointermoves positions
                   (stateOf (pointerdown px py (cropClick s))))))) = Some ov
  /\ overlayState (undo (stateOf (pointerup (pointermoves positions
                     (stateOf (pointerdown px py (cropClick s)))))))
     = overlayState s
  /\ overlayImg (undo (undo (stateOf (pointerup (pointermoves positions
                   (stateOf (pointerdown px py (cropClick s)))))))) = Some ov
  /\ overlayState (undo (undo (stateOf (pointerup (pointermoves positions
                     (stateOf (pointerdown px py (cropClick s))))))))
     = overlayState s
  /\ undoStack (undo (undo (stateOf (pointerup (pointermoves positions
                   (stateOf (pointerdown px py (cropClick s))))))))
     = undoStack s.
Proof.
  intros Hr Eov Ebg Emode.
  assert (Eorig : overlayOriginalImg s = Some ov).
  { destruct (reachable_history_ok Hr) as (Heq & _). rewrite <- Heq. exact Eov. }
  assert (Ec : cropClick s
               = set_cropEnd None (set_cropStart None (set_cropping false
                   (set_cropMode true (saveState s))))).
  { unfold cropClick. rewrite Eov, Emode. reflexivity. }
  set (n := Snap (src ov) (src ov) (overlayState s)).
  assert (C1 : overlayImg (cropClick s) = Some ov
               /\ overlayOriginalImg (cropClick s) = Some ov
               /\ bgImg (cropClick s) = Some bg
               /\ overlayState (cropClick s) = overlayState s
               /\ undoStack (cropClick s) = push (undoStack s) n).
  { rewrite Ec, (saveState_loaded s Eov Eorig). fields. repeat split; assumption. }
  destruct C1 as (Cov & Corig & Cbg & Cst & Cu).
  destruct (@pointerdown_records (cropClick s) px py ov ov bg Cov Corig Cbg)
    as (Hu & _).
  rewrite Cst, Cu in Hu. fold n in Hu.
  set (s1 := stateOf (pointerdown px py (cropClick s))) in *.
  destruct (pointermoves_frame positions s1) as (M1 & _).
  set (s2 := pointermoves positions s1) in *.
  destruct (pointerup_stacks s2) as (P1 & _).
  set (s3 := stateOf (pointerup s2)) in *.
  assert (Hu3 : undoStack s3 = push (push (undoStack s) n) n)
    by (rewrite P1, M1; exact Hu).
  destruct (@undo_top s3 (push (undoStack s) n) (src ov) (src ov) (overlayState s) Hu3)
    as (U1 & _ & U3 & U4 & _).
  destruct (@undo_top (undo s3) (undoStack s) (src ov) (src ov) (overlayState s) U4)
    as (V1 & _ & V3 & V4 & _).
  split; [exact Hu3|]. repeat split; assumption.
Qed.

Lemma crop_records_twice_witness :
  overlayState (undo (undo (stateOf (pointerup (pointermoves [(21, 21)]
                   (stateOf (pointerdown 20 20 (cropClick sampleLoaded))))))))
  = overlayState sampleLoaded.
Proof.
  assert (Eov : overlayImg sampleLoaded = Some (ChromaKey.applyGreyKey sampleRaster))
    by (lazy; reflexivity).
  assert (Ebg : bgImg sampleLoaded = Some sampleBackground) by (lazy; reflexivity).
  assert (Em : cropMode sampleLoaded = false) by (lazy; reflexivity).
  destruct (@crop_records_twice sampleLoaded 20 20 [(21, 21)]
              (ChromaKey.applyGreyKey sampleRaster) sampleBackground
              sampleLoaded_reachable Eov Ebg Em)
    as (_ & _ & _ & _ & Hst & _).
  exact Hst.
Defined.

(** The pixel bounds stay inside the raster. *)
Lemma cropPixels_bounds (sel : R * R * R * R) (oldWidth oldHeight : Z) :
  let '(u1, u2, v1, v2) := cropPixels sel oldWidth oldHeight in
  (0 <= u1 /\ u2 <= oldWidth /\ 0 <= v1 /\ v2 <= oldHeight)%Z.
Proof.
  destruct sel as [[[x1f x2f] y1f] y2f]. unfold cropPixels. lia.
Qed.

(** X19 -- With a selection, an overlay and a background in place,
    [performCrop] never throws and does one of two things: it gives up
    with both overlay images untouched, or it installs one new raster as
    both images.  A new raster is never empty and never larger than the
    old one, and each of its pixels is a pixel of the old raster (no
    transparent padding is ever added). *)
Theorem crop_never_enlarges (s : State) (cs ce : R * R) (orig bg : Image) :
  cropStart s = Some cs -> cropEnd s = Some ce ->
  overlayOriginalImg s = Some orig -> bgImg s = Some bg ->
  exists s',
    performCrop s = Done s'
    /\ cropStart s' = None /\ cropEnd s' = None
    /\ ((overlayImg s' = overlayImg s /\ overlayOriginalImg s' = Some orig
         /\ overlayState s' = overlayState s)
        \/ exists (newImg : Image) (u1 v1 : Z),
             overlayImg s' = Some newImg /\ overlayOriginalImg s' = Some newImg
             /\ (1 <= width newImg <= width orig)%Z
             /\ (1 <= height newImg <= height orig)%Z
             /\ (0 <= u1)%Z /\ (0 <= v1)%Z
             /\ (u1 + width newImg <= width orig)%Z
             /\ (v1 + height newImg <= height orig)%Z
             /\ forall i j, (0 <= i < width newImg)%Z -> (0 <= j < height newImg)%Z ->
                  pixelAt newImg i j = pixelAt orig (u1 + i) (v1 + j)).
Proof.
  intros Ecs Ece Eorig Ebg.
  rewrite (@performCrop_cases s cs ce orig Ecs Ece Eorig). cbv zeta. rewrite Ebg.
  set (u1 := Z.max 0 _). set (u2 := Z.min (width orig) _).
  set (v1 := Z.max 0 _). set (v2 := Z.min (height orig) _).
  assert (Hb : (0 <= u1 /\ u2 <= width orig /\ 0 <= v1 /\ v2 <= height orig)%Z)
    by (unfold u1, u2, v1, v2; lia).
  destruct ((u2 - u1 <=? 0) || (v2 - v1 <=? 0))%Z eqn:E.
  - eexists. split; [reflexivity|]. fields.
    split; [reflexivity|]. split; [reflexivity|]. left.
    split; [reflexivity|]. split; [exact Eorig | reflexivity].
  - apply orb_false_iff in E. destruct E as [E1 E2].
    apply Z.leb_gt in E1. apply Z.leb_gt in E2.
    eexists. split; [reflexivity|]. fields.
    split; [reflexivity|]. split; [reflexivity|]. right.
    exists (drawImage orig (- u1) (- v1) (u2 - u1) (v2 - v1)), u1, v1.
    cbn [width height drawImage].
    split; [reflexivity|]. split; [reflexivity|].
    split; [lia|]. split; [lia|]. split; [lia|]. split; [lia|].
    split; [lia|]. split; [lia|].
    intros i j Hi Hj.
    change (mkImage (u2 - u1) (v2 - v1)
              (canvasData (fun i0 j0 => pixelAt orig (i0 - - u1) (j0 - - v1))
                 (u2 - u1) (v2 - v1)))
      with (drawImage orig (- u1) (- v1) (u2 - u1) (v2 - v1)).
    rewrite pixelAt_drawImage by assumption. f_equal; lia.
Qed.

Lemma crop_never_enlarges_witness :
  exists s', performCrop sampleCrop = Done s' /\ cropStart s' = None.
Proof.
  destruct (@crop_never_enlarges sampleCrop (- 2, - 2) (0, 2) (mkImage 4 4 [])
              (mkImage 4 4 []) eq_refl eq_refl eq_refl eq_refl)
    as (s' & Hd & Hc & _).
  exists s'. split; [exact Hd | exact Hc].
Defined.

(** X20 -- Cropping to the whole box changes nothing that can be seen: for
    an overlay whose box lies inside the background, at any scale, angle
    and flips, selecting from corner to corner commits a raster of the same
    size with the same pixel at every position, and leaves every field of
    the transform as it was. *)
Theorem full_crop_is_identity (s : State) (orig bg : Image) :
  overlayOriginalImg s = Some orig -> bgImg s = Some bg ->
  (0 < width orig)%Z -> (0 < height orig)%Z ->
  cropStart s = Some (- IZR (width orig) / 2, - IZR (height orig) / 2) ->
  cropEnd s = Some (IZR (width orig) / 2, IZR (height orig) / 2) ->
  0 <= x (overlayState s)
    <= IZR (width bg) - IZR (width orig) * scale (overlayState s) ->
  0 <= y (overlayState s)
    <= IZR (height bg) - IZR (height orig) * scale (overlayState s) ->
  exists s' newImg,
    performCrop s = Done s'
    /\ overlayImg s' = Some newImg /\ overlayOriginalImg s' = Some newImg
    /\ width newImg = width orig /\ height newImg = height orig
    /\ (forall i j, (0 <= i < width orig)%Z -> (0 <= j < height orig)%Z ->
          pixelAt newImg i j = pixelAt orig i j)
    /\ overlayState s' = overlayState s.
Proof.
  intros Eorig Ebg HW HH Ecs Ece Hx Hy.
  assert (W : 0 < IZR (width orig)) by (apply (IZR_lt 0), HW).
  assert (H : 0 < IZR (height orig)) by (apply (IZR_lt 0), HH).
  rewrite (@performCrop_cases s _ _ orig Ecs Ece Eorig). cbv zeta. rewrite Ebg.
  cbn [fst snd].
  rewrite (Rmin_left (- IZR (width orig) / 2) (IZR (width orig) / 2)) by lra.
  rewrite (Rmax_right (- IZR (width orig) / 2) (IZR (width orig) / 2)) by lra.
  rewrite (Rmin_left (- IZR (height orig) / 2) (IZR (height orig) / 2)) by lra.
  rewrite (Rmax_right (- IZR (height orig) / 2) (IZR (height orig) / 2)) by lra.
  assert (Ex1 : (if flipH (overlayState s) then - (IZR (width orig) / 2)
                 else - IZR (width orig) / 2) = - IZR (width orig) / 2)
    by (destruct (flipH (overlayState s)); lra).
  assert (Ex2 : (if flipH (overlayState s) then - (- IZR (width orig) / 2)
                 else IZR (width orig) / 2) = IZR (width orig) / 2)
    by (destruct (flipH (overlayState s)); lra).
  assert (Ey1 : (if flipV (overlayState s) then - (IZR (height orig) / 2)
                 else - IZR (height orig) / 2) = - IZR (height orig) / 2)
    by (destruct (flipV (overlayState s)); lra).
  assert (Ey2 : (if flipV (overlayState s) then - (- IZR (height orig) / 2)
                 else IZR (height orig) / 2) = IZR (height orig) / 2)
    by (destruct (flipV (overlayState s)); lra).
  rewrite Ex1, Ex2, Ey1, Ey2.
  replace (- IZR (width orig) / 2 + IZR (width orig) / 2) with (IZR 0) by lra.
  replace (IZR (width orig) / 2 + IZR (width orig) / 2) with (IZR (width orig)) by lra.
  replace (- IZR (height orig) / 2 + IZR (height orig) / 2) with (IZR 0) by lra.
  replace (IZR (height orig) / 2 + IZR (height orig) / 2) with (IZR (height orig))
    by lra.
  rewrite !mathFloor_IZR, !mathCeil_IZR.
  rewrite !Z.max_id, !Z.min_id, !Z.sub_0_r.
  replace ((width orig <=? 0) || (height orig <=? 0))%Z with false
    by (symmetry; apply orb_false_iff; split; apply Z.leb_gt; assumption).
  eexists. eexists. split; [reflexivity|]. fields.
  split; [reflexivity|]. split; [reflexivity|].
  split; [reflexivity|]. split; [reflexivity|].
  split.
  { intros i j Hi Hj. rewrite pixelAt_drawImage by assumption. f_equal; lia. }
  unfold cropOrigin. cbv zeta. cbn [fst snd].
  replace (IZR 0 / 2) with 0 by lra.
  rewrite !Rmult_0_l, Rminus_0_r, Rplus_0_r.
  destruct (overlayState s) as [a b c d e f].
  cbn [x y scale angle flipH flipV] in *. unfold set_x, set_y.
  cbn [x y scale angle flipH flipV].
  rewrite (@clamp_inactive 0 _ (a + IZR (width orig) * c / 2 + 0
                                - IZR (width orig) * c / 2)) by lra.
  rewrite (@clamp_inactive 0 _ (b + IZR (height orig) * c / 2 + 0
                                - IZR (height orig) * c / 2)) by lra.
  f_equal; lra.
Qed.

Lemma full_crop_is_identity_witness :
  exists s' newImg,
    performCrop sampleFullCrop = Done s'
    /\ overlayImg s' = Some newImg
    /\ width newImg = 4%Z
    /\ overlayState s' = overlayState sampleFullCrop.
Proof.
  destruct (@full_crop_is_identity sampleFullCrop (mkImage 4 4 []) (mkImage 4 4 [])
              eq_refl eq_refl)
    as (s' & newImg & Hd & Hov & _ & Hw & _ & _ & Hst);
    try (cbn [width height]; lia);
    try (cbn [sampleFullCrop cropStart cropEnd width height]; do 2 f_equal; lra);
    try (cbn [sampleFullCrop overlayState x y scale width height]; lra).
  exists s', newImg. repeat split; assumption.
Defined.



(** 'pointerdown' in crop mode, as one equation. *)
Lemma pointerdown_crop (s : State) (px py : R) (ov orig bg : Image) :
  overlayImg s = Some ov -> overlayOriginalImg s = Some orig ->
  bgImg s = Some bg -> cropMode s = true ->
  let c := (fst (toLocal px py ov (overlayState s)) / scale (overlayState s),
            snd (toLocal px py ov (overlayState s)) / scale (overlayState s)) in
  pointerdown px py s
  = if Rleb (Rabs (fst c)) (IZR (width orig) / 2)
       && Rleb (Rabs (snd c)) (IZR (height orig) / 2)
    then Done (set_cropEnd (Some c) (set_cropStart (Some c)
                 (set_cropping true (saveState s))))
    else Done (resetCrop (saveState s)).
Proof.
  intros Eov Eorig Ebg Em. cbv zeta. unfold pointerdown. rewrite Eov, Ebg.
  destruct (saveState_frame s) as (F1 & _ & F3 & _ & _ & _ & _ & F8 & _).
  rewrite F1, F3, F8, Eorig, Em.
  destruct (toLocal px py ov (overlayState s)) as [lx ly]. cbn [fst snd].
  reflexivity.
Qed.

(** A selection whose two corners are one point covers at most one pixel
    column and one pixel row. *)
Lemma point_selection_pixels (r : R) (W : Z) :
  (Z.min W (mathCeil r) - Z.max 0 (mathFloor r) <= 1)%Z.
Proof.
  destruct (mathFloor_spec r) as [F1 F2]. destruct (mathCeil_spec r) as [C1 C2].
  assert (IZR (mathCeil r) < IZR (mathFloor r) + 2) by lra.
  assert (mathCeil r < mathFloor r + 2)%Z
    by (apply lt_IZR; rewrite plus_IZR; exact H).
  lia.
Qed.

(** X22 -- A click in crop mode.  With overlay and background loaded and
    crop mode on, pressing and releasing the pointer without moving it
    always ends crop mode and forgets the selection.  The overlay either
    stays as it was, with its transform (a press outside the box, or a
    selection that rounds to no pixel), or it is replaced by a raster of
    exactly one pixel. *)
Theorem click_in_crop_mode (s : State) (px py : R) (ov bg : Image) :
  overlayImg s = Some ov -> overlayOriginalImg s = Some ov ->
  bgImg s = Some bg -> cropMode s = true ->
  cropMode (stateOf (pointerup (stateOf (pointerdown px py s)))) = false
  /\ cropping (stateOf (pointerup (stateOf (pointerdown px py s)))) = false
  /\ cropStart (stateOf (pointerup (stateOf (pointerdown px py s)))) = None
  /\ cropEnd (stateOf (pointerup (stateOf (pointerdown px py s)))) = None
  /\ ((overlayImg (stateOf (pointerup (stateOf (pointerdown px py s)))) = Some ov
       /\ overlayState (stateOf (pointerup (stateOf (pointerdown px py s))))
          = overlayState s)
      \/ exists newImg,
           overlayImg (stateOf (pointerup (stateOf (pointerdown px py s))))
           = Some newImg
           /\ overlayOriginalImg (stateOf (pointerup (stateOf (pointerdown px py s))))
              = Some newImg
           /\ width newImg = 1%Z /\ height newImg = 1%Z).
Proof.
  intros Eov Eorig Ebg Em.
  rewrite (@pointerdown_crop s px py ov ov bg Eov Eorig Ebg Em). cbv zeta.
  destruct (saveState_frame s)
    as (F1 & F2 & F3 & F4 & F5 & _ & F7 & F8 & F9 & _).
  set (c := (fst (toLocal px py ov (overlayState s)) / scale (overlayState s),
             snd (toLocal px py ov (overlayState s)) / scale (overlayState s))).
  destruct (Rleb _ _ && Rleb _ _).
  - cbn [stateOf]. unfold pointerup. fields.
    set (s2 := set_cropMode false (set_cropping false
                 (set_cropEnd (Some c) (set_cropStart (Some c)
                    (set_cropping true (saveState s)))))).
    assert (Ecs : cropStart s2 = Some c) by reflexivity.
    assert (Ece : cropEnd s2 = Some c) by reflexivity.
    assert (Eo2 : overlayOriginalImg s2 = Some ov)
      by (unfold s2; fields; rewrite F3; exact Eorig).
    assert (Eb2 : bgImg s2 = Some bg) by (unfold s2; fields; rewrite F4; exact Ebg).
    assert (Et2 : overlayState s2 = overlayState s) by (unfold s2; fields; exact F1).
    assert (Ei2 : overlayImg s2 = Some ov) by (unfold s2; fields; rewrite F2; exact Eov).
    assert (Em2 : cropMode s2 = false) by reflexivity.
    assert (Ec2 : cropping s2 = false) by reflexivity.
    clearbody s2.
    rewrite (@performCrop_cases s2 c c ov Ecs Ece Eo2). cbv zeta. rewrite Eb2.
    rewrite !Rmin_left, !Rmax_left by lra.
    set (u1 := Z.max 0 _). set (u2 := Z.min (width ov) _).
    set (v1 := Z.max 0 _). set (v2 := Z.min (height ov) _).
    assert (Hu : (u2 - u1 <= 1)%Z).
    { unfold u1, u2. destruct (flipH (overlayState s2)); apply point_selection_pixels. }
    assert (Hv : (v2 - v1 <= 1)%Z).
    { unfold v1, v2. destruct (flipV (overlayState s2)); apply point_selection_pixels. }
    destruct ((u2 - u1 <=? 0) || (v2 - v1 <=? 0))%Z eqn:E.
    + fields. split; [exact Em2|]. split; [exact Ec2|].
      split; [reflexivity|]. split; [reflexivity|]. left.
      split; [exact Ei2 | exact Et2].
    + apply orb_false_iff in E. destruct E as [E1 E2].
      apply Z.leb_gt in E1. apply Z.leb_gt in E2. fields.
      split; [exact Em2|]. split; [exact Ec2|].
      split; [reflexivity|]. split; [reflexivity|]. right.
      eexists. split; [reflexivity|]. split; [reflexivity|].
      cbn [width height drawImage]. split; lia.
  - cbn [stateOf]. unfold pointerup. fields. rewrite F5.
    destruct (dragging s); fields; rewrite F7; destruct (resizing s); fields;
      (split; [reflexivity|]; split; [reflexivity|]; split; [reflexivity|];
       split; [reflexivity|]; left; split; [rewrite F2; exact Eov | exact F1]).
Qed.

Lemma click_in_crop_mode_witness :
  cropMode (stateOf (pointerup (stateOf (pointerdown 50 40 (cropClick sampleIdle)))))
  = false.
Proof.
  assert (E1 : overlayImg (cropClick sampleIdle) = Some (mkImage 100 50 []))
    by (lazy; reflexivity).
  assert (E2 : overlayOriginalImg (cropClick sampleIdle) = Some (mkImage 100 50 []))
    by (lazy; reflexivity).
  assert (E3 : bgImg (cropClick sampleIdle) = Some (mkImage 200 200 []))
    by (lazy; reflexivity).
  assert (E4 : cropMode (cropClick sampleIdle) = true) by (lazy; reflexivity).
  exact (proj1 (@click_in_crop_mode (cropClick sampleIdle) 50 40 _ _ E1 E2 E3 E4)).
Defined.

(* ===================================================================== *)
(** * More on the angle *)
(* ===================================================================== *)

Lemma whileAbove_turns (a : R) :
  exists k : Z, (k <= 0)%Z /\ whileAbove a = a + 360 * IZR k.
Proof.
  funelim (whileAbove a).
  - destruct H as (k & Hk & E). exists (k - 1)%Z. split; [lia|].
    rewrite E, minus_IZR. lra.
  - exists 0%Z. split; [lia | lra].
Qed.

Lemma whileBelow_turns (a : R) :
  exists k : Z, (0 <= k)%Z /\ whileBelow a = a + 360 * IZR k.
Proof.
  funelim (whileBelow a).
  - destruct H as (k & Hk & E). exists (k + 1)%Z. split; [lia|].
    rewrite E, plus_IZR. lra.
  - exists 0%Z. split; [lia | lra].
Qed.

(** Whole turns do not change the cosine and the sine. *)
Lemma trig_period_Z (t : R) (k : Z) :
  cos (t + 2 * IZR k * PI) = cos t /\ sin (t + 2 * IZR k * PI) = sin t.
Proof.
  destruct (Z_le_gt_dec 0 k) as [Hk|Hk].
  - rewrite <- (Z2Nat.id k Hk), <- INR_IZR_INZ.
    split; [apply cos_period | apply sin_period].
  - assert (E : t = t + 2 * IZR k * PI + 2 * INR (Z.to_nat (- k)) * PI).
    { rewrite INR_IZR_INZ, Z2Nat.id by lia. rewrite opp_IZR. lra. }
    split.
    + rewrite E at 2. symmetry. apply cos_period.
    + rewrite E at 2. symmetry. apply sin_period.
Qed.

(** X23 -- Over exact arithmetic [normalizeAngle] only ever adds a whole
    number of turns: the result is [a + 360 k] for an integer [k], with
    [k <= 0] for an angle above 180 and [k >= 0] for one below -180, so
    the direction the overlay points in is kept.  Both ends of the range
    are results: 180 and -180 stay as they are although they are the same
    direction. *)
Theorem normalizeAngle_whole_turns (a : R) :
  (exists k : Z,
     normalizeAngle a = a + 360 * IZR k
     /\ (180 < a -> (k < 0)%Z) /\ (a < - 180 -> (0 < k)%Z)
     /\ (- 180 <= a <= 180 -> k = 0%Z))
  /\ cos (normalizeAngle a * PI / 180) = cos (a * PI / 180)
  /\ sin (normalizeAngle a * PI / 180) = sin (a * PI / 180)
  /\ normalizeAngle 180 = 180 /\ normalizeAngle (- 180) = - 180.
Proof.
  assert (Hk : exists k : Z,
     normalizeAngle a = a + 360 * IZR k
     /\ (180 < a -> (k < 0)%Z) /\ (a < - 180 -> (0 < k)%Z)
     /\ (- 180 <= a <= 180 -> k = 0%Z)).
  { pose proof (normalizeAngle_range a) as Hr.
    pose proof (@normalizeAngle_in_range a) as Hin.
    unfold normalizeAngle in *. cbv zeta in *.
    destruct (whileAbove_turns a) as (k1 & Hk1 & E1).
    destruct (whileBelow_turns (whileAbove a)) as (k2 & Hk2 & E2).
    exists (k1 + k2)%Z. split; [rewrite E2, E1, plus_IZR; lra|].
    rewrite E2, E1 in Hr, Hin.
    assert (Hr' : - 180 <= a + 360 * IZR (k1 + k2) <= 180)
      by (rewrite plus_IZR; lra).
    split; [|split].
    - intros Ha. apply lt_IZR.
      assert (360 * IZR (k1 + k2) < 0) by lra. lra.
    - intros Ha. apply lt_IZR.
      assert (0 < 360 * IZR (k1 + k2)) by lra. lra.
    - intros Ha. specialize (Hin Ha). apply eq_IZR. rewrite plus_IZR. lra. }
  split; [exact Hk|].
  destruct Hk as (k & E & _).
  assert (Et : normalizeAngle a * PI / 180 = a * PI / 180 + 2 * IZR k * PI)
    by (rewrite E; field).
  split; [|split; [|split]].
  - rewrite Et. apply trig_period_Z.
  - rewrite Et. apply trig_period_Z.
  - apply normalizeAngle_in_range. lra.
  - apply normalizeAngle_in_range. lra.
Qed.

Lemma rot_angles (s : State) :
  angle (overlayState (rotP5 s)) = normalizeAngle (angle (overlayState s) + 5)
  /\ angle (overlayState (rotM5 s)) = normalizeAngle (angle (overlayState s) - 5).
Proof.
  destruct (saveState_frame s) as (F1 & _).
  unfold rotP5, rotM5. fields. rewrite F1. split; reflexivity.
Qed.

(** X24 -- The two rotation buttons undo each other, except at the ends of
    the range.  For an angle in [[-180, 180)], +5 followed by -5 gives the
    angle back, also across the wrap at 180; from exactly 180 it gives
    -180.  Likewise -5 followed by +5 gives back every angle in
    [(-180, 180]], and turns -180 into 180. *)
Theorem rotation_buttons_round_trip (s : State) :
  - 180 <= angle (overlayState s) <= 180 ->
  (angle (overlayState s) < 180 ->
   angle (overlayState (rotM5 (rotP5 s))) = angle (overlayState s))
  /\ (angle (overlayState s) = 180 ->
      angle (overlayState (rotM5 (rotP5 s))) = - 180)
  /\ (- 180 < angle (overlayState s) ->
      angle (overlayState (rotP5 (rotM5 s))) = angle (overlayState s))
  /\ (angle (overlayState s) = - 180 ->
      angle (overlayState (rotP5 (rotM5 s))) = 180).
Proof.
  intros Ha.
  destruct (rot_angles s) as [P M].
  destruct (rot_angles (rotP5 s)) as [_ MP].
  destruct (rot_angles (rotM5 s)) as [PM _].
  rewrite MP, P, PM, M. clear P M MP PM.
  set (a := angle (overlayState s)) in *.
  split; [|split; [|split]].
  - intros Hlt. destruct (Rle_or_lt (a + 5) 180) as [Hle|Hgt].
    + rewrite (@normalizeAngle_in_range (a + 5)) by lra.
      replace (a + 5 - 5) with a by lra. apply normalizeAngle_in_range. lra.
    + rewrite (@normalizeAngle_down (a + 5)) by lra.
      rewrite (@normalizeAngle_up (a + 5 - 360 - 5)) by lra. lra.
  - intros E. rewrite E.
    rewrite (@normalizeAngle_down (180 + 5)) by lra.
    rewrite (@normalizeAngle_in_range (180 + 5 - 360 - 5)) by lra. lra.
  - intros Hgt. destruct (Rle_or_lt (- 180) (a - 5)) as [Hle|Hlt].
    + rewrite (@normalizeAngle_in_range (a - 5)) by lra.
      replace (a - 5 + 5) with a by lra. apply normalizeAngle_in_range. lra.
    + rewrite (@normalizeAngle_up (a - 5)) by lra.
      rewrite (@normalizeAngle_down (a - 5 + 360 + 5)) by lra. lra.
  - intros E. rewrite E.
    rewrite (@normalizeAngle_up (- 180 - 5)) by lra.
    rewrite (@normalizeAngle_in_range (- 180 - 5 + 360 + 5)) by lra. lra.
Qed.

Lemma rotation_buttons_round_trip_witness :
  angle (overlayState (rotM5 (rotP5 sampleIdle))) = angle (overlayState sampleIdle).
Proof.
  assert (H : - 180 <= angle (overlayState sampleIdle) <= 180)
    by (cbn [sampleIdle overlayState angle]; lra).
  apply (proj1 (@rotation_buttons_round_trip sampleIdle H)).
  cbn [sampleIdle overlayState angle]. lra.
Defined.

(** X25 -- What the angle field stores.  An empty or unreadable field
    stores 0.  A number [v] is moved by at most one turn: the stored angle
    is [v - 360], [v] or [v + 360], and it lies in [[-180, 180]] exactly
    when [-540 <= v <= 540]. *)
Theorem angleInput_range_iff (v : R) (s : State) :
  angle (overlayState (angleInputHandler None s)) = 0
  /\ (angle (overlayState (angleInputHandler (Some v) s)) = v - 360
      \/ angle (overlayState (angleInputHandler (Some v) s)) = v
      \/ angle (overlayState (angleInputHandler (Some v) s)) = v + 360)
  /\ (- 180 <= angle (overlayState (angleInputHandler (Some v) s)) <= 180
      <-> - 540 <= v <= 540)
  /\ (- 180 <= v <= 180 ->
      angle (overlayState (angleInputHandler (Some v) s)) = v).
Proof.
  split.
  { unfold angleInputHandler. fields. unfold Rgtb, Rltb.
    destruct (Rlt_dec 180 0); [lra|]. destruct (Rlt_dec 0 (- 180)); [lra|].
    reflexivity. }
  rewrite angleInputHandler_angle. unfold Rgtb, Rltb. cbv zeta.
  destruct (Rlt_dec 180 v); [destruct (Rlt_dec (v - 360) (- 180))
                            | destruct (Rlt_dec v (- 180))];
    (split; [lra|]); (split; [split; intros; lra | intros; lra]).
Qed.

(* ===================================================================== *)
(** * More on the grey key and on rasters *)
(* ===================================================================== *)

Section KeyedRasters.

Import ChromaKey ChromaKeyFacts.
Local Open Scope Z_scope.

(** The pixels of the keyed raster. *)
Lemma applyGreyKey_pixel (img : Image) (i j : Z) :
  0 <= i < width img -> 0 <= j < height img ->
  pixelAt (applyGreyKey img) i j = keyLoop (pixelAt img i j).
Proof.
  intros Hi Hj.
  unfold applyGreyKey, loadImage, src, drawImage. cbn [width height data].
  rewrite keyLoop_canvas by (intros; apply pixelAt_length).
  rewrite (pixelAt_canvas (fun i0 j0 => keyLoop (pixelAt img (i0 - 0) (j0 - 0))))
    by (try lia; intros; apply keyLoop_length4, pixelAt_length).
  rewrite !Z.sub_0_r. reflexivity.
Qed.

Lemma rampAlpha_levels (d : Z) :
  (rampAlpha d = 0 <-> d <= 22)
  /\ (rampAlpha d = 128 <-> d = 23)
  /\ (rampAlpha d = 255 <-> 24 <= d).
Proof.
  unfold rampAlpha.
  destruct (d <=? 22) eqn:E1; [repeat split; intros; lia|].
  destruct (24 <=? d) eqn:E2; [repeat split; intros; lia|].
  assert (d = 23) by lia. subst d.
  change (mathRound (inject_Z 255 * inject_Z (23 - 22) / inject_Z 2)) with 128.
  repeat split; intros; lia.
Qed.

(** X26 -- The alpha the key writes depends on the colour alone, whatever
    alpha the pixel had: it is 0, 128 or 255; it is 0 exactly when all
    three channels lie in 106..150, and 255 exactly when some channel is
    at most 104 or at least 152.  So a pixel that was transparent but not
    grey in the file comes out opaque. *)
Theorem keyed_alpha_levels (img : Image) (i j r g b a : Z) :
  bytes_ok img -> 0 <= i < width img -> 0 <= j < height img ->
  pixelAt img i j = [r; g; b; a] ->
  exists a',
    pixelAt (applyGreyKey img) i j = [r; g; b; a']
    /\ (a' = 0 \/ a' = 128 \/ a' = 255)
    /\ (a' = 0 <-> 106 <= r <= 150 /\ 106 <= g <= 150 /\ 106 <= b <= 150)
    /\ (a' = 255 <-> r <= 104 \/ 152 <= r \/ g <= 104 \/ 152 <= g
                     \/ b <= 104 \/ 152 <= b).
Proof.
  intros Hok Hi Hj Hpx.
  destruct (pixelAt_bytes i j Hok) as (r0 & g0 & b0 & a0 & Hpx0 & Hr & Hg & Hb).
  rewrite Hpx in Hpx0. injection Hpx0 as <- <- <- <-.
  exists (rampAlpha (maxDiff r g b)).
  split.
  { rewrite applyGreyKey_pixel by assumption. rewrite Hpx. cbn [keyLoop].
    rewrite lut_is_ramp; [reflexivity|].
    unfold maxDiff, keyR, keyG, keyB. lia. }
  destruct (rampAlpha_levels (maxDiff r g b)) as (L0 & L1 & L2).
  unfold maxDiff, keyR, keyG, keyB in *.
  split.
  { destruct (Z_le_gt_dec (Z.max (Z.abs (r - 128))
                (Z.max (Z.abs (g - 128)) (Z.abs (b - 128)))) 22) as [H|H];
      [left; apply L0; exact H|].
    destruct (Z_le_gt_dec 24 (Z.max (Z.abs (r - 128))
                (Z.max (Z.abs (g - 128)) (Z.abs (b - 128))))) as [H'|H'];
      [right; right; apply L2; exact H'|].
    right; left. apply L1. lia. }
  split.
  - rewrite L0. lia.
  - rewrite L2. lia.
Qed.

Lemma keyed_alpha_levels_witness :
  exists a',
    pixelAt (applyGreyKey sampleRaster) 0 0 = [128; 128; 128; a'] /\ a' = 0.
Proof.
  assert (H : bytes_ok sampleRaster).
  { unfold bytes_ok, sampleRaster. cbn [data].
    repeat (apply Forall_cons; [lia|]). apply Forall_nil. }
  assert (Hi : 0 <= 0 < width sampleRaster) by (cbn; lia).
  assert (Hj : 0 <= 0 < height sampleRaster) by (cbn; lia).
  destruct (@keyed_alpha_levels sampleRaster 0 0 128 128 128 255 H Hi Hj eq_refl)
    as (a' & Hpx & _ & H0 & _).
  exists a'. split; [exact Hpx|]. apply H0. lia.
Defined.

Lemma canvasData_length (p : Z -> Z -> list Z) (cw ch : Z) :
  (forall i j, length (p i j) = 4%nat) ->
  length (canvasData p cw ch) = (Z.to_nat ch * (Z.to_nat cw * 4))%nat.
Proof.
  intros Hp. unfold canvasData.
  rewrite (@flat_map_chunk_length _ _
             (fun j => flat_map (fun i => p i j) (zrange cw)) (Z.to_nat cw * 4)).
  - rewrite zrange_length. reflexivity.
  - intros j.
    rewrite (@flat_map_chunk_length _ _ (fun i => p i j) 4 (fun i => Hp i j)).
    rewrite zrange_length. reflexivity.
Qed.

Lemma canvasData_bytes (p : Z -> Z -> list Z) (cw ch : Z) :
  (forall i j, Forall (fun b => 0 <= b <= 255) (p i j)) ->
  Forall (fun b => 0 <= b <= 255) (canvasData p cw ch).
Proof.
  intros Hp. unfold canvasData.
  apply Forall_flat_map, Forall_forall. intros j _.
  apply Forall_flat_map, Forall_forall. intros i _. apply Hp.
Qed.

Lemma pixelAt_all_bytes (img : Image) (i j : Z) :
  bytes_ok img -> Forall (fun b => 0 <= b <= 255) (pixelAt img i j).
Proof.
  intros H. unfold pixelAt. destruct (_ && _)%bool.
  - repeat (apply Forall_cons; [apply nth_byte, H|]). apply Forall_nil.
  - repeat (apply Forall_cons; [lia|]). apply Forall_nil.
Qed.

Lemma lut_bytes (n : nat) : 0 <= nth n lut 0 <= 255.
Proof.
  apply nth_byte. unfold lut. apply Forall_map, Forall_forall.
  intros d _. unfold toUint8Clamped. lia.
Qed.

(** X27 -- The rasters the script makes are well formed.  From a raster
    whose bytes are bytes, both the keyed raster and every canvas a crop
    draws hold four bytes per pixel of their width times height, and
    every one of them is in 0..255. *)
Theorem built_rasters_well_formed (img : Image) (dx dy cw ch : Z) :
  bytes_ok img -> 0 <= width img -> 0 <= height img -> 0 <= cw -> 0 <= ch ->
  bytes_ok (applyGreyKey img)
  /\ Z.of_nat (length (data (applyGreyKey img))) = 4 * width img * height img
  /\ bytes_ok (drawImage img dx dy cw ch)
  /\ Z.of_nat (length (data (drawImage img dx dy cw ch))) = 4 * cw * ch.
Proof.
  intros Hok Hw Hh Hcw Hch.
  split; [|split; [|split]].
  - unfold bytes_ok, applyGreyKey, loadImage, src, drawImage.
    cbn [width height data].
    rewrite keyLoop_canvas by (intros; apply pixelAt_length).
    apply canvasData_bytes. intros i j.
    pose proof (pixelAt_all_bytes (i - 0) (j - 0) Hok) as Hb.
    pose proof (pixelAt_length img (i - 0) (j - 0)) as Hl.
    destruct (pixelAt img (i - 0) (j - 0)) as [|r [|g [|b [|a [|e p]]]]];
      try discriminate Hl.
    cbn [keyLoop].
    inversion Hb as [|? ? Hr Hb1]. inversion Hb1 as [|? ? Hg Hb2].
    inversion Hb2 as [|? ? Hbb _].
    repeat (apply Forall_cons; [first [assumption | apply lut_bytes]|]).
    apply Forall_nil.
  - unfold applyGreyKey, loadImage, src, drawImage. cbn [width height data].
    rewrite keyLoop_canvas by (intros; apply pixelAt_length).
    rewrite canvasData_length
      by (intros; apply keyLoop_length4, pixelAt_length).
    lia.
  - unfold bytes_ok, drawImage. cbn [data].
    apply canvasData_bytes. intros i j. apply pixelAt_all_bytes, Hok.
  - unfold drawImage. cbn [data].
    rewrite canvasData_length by (intros; apply pixelAt_length). lia.
Qed.

Lemma built_rasters_well_formed_witness :
  bytes_ok (applyGreyKey sampleRaster)
  /\ Z.of_nat (length (data (applyGreyKey sampleRaster))) = 4 * 2 * 1.
Proof.
  assert (H : bytes_ok sampleRaster).
  { unfold bytes_ok, sampleRaster. cbn [data].
    repeat (apply Forall_cons; [lia|]). apply Forall_nil. }
  destruct (@built_rasters_well_formed sampleRaster 0 0 1 1 H) as (A & B & _);
    try (cbn; lia).
  split; [exact A | exact B].
Defined.

End KeyedRasters.

(* ===================================================================== *)
(** * Keyboard shortcuts and output names *)
(* ===================================================================== *)

Section KeysFacts.

Import Stdlib.Strings.Ascii Stdlib.Strings.String.
Import Keys.
Local Open Scope string_scope.

(** X28 -- A key press runs at most one of [undo] and [redo], although
    the handler tests for them one after the other.  Without Ctrl or Meta
    nothing happens; with one of them, Z without Shift is [undo], Z with
    Shift is [redo], Y is [redo] with or without Shift, and every other
    key does nothing. *)
Theorem keydown_dispatch (e : KeyEvent) (s : State) :
  (keydown e s = s \/ keydown e s = undo s \/ keydown e s = redo s)
  /\ (ctrlKey e || metaKey e = false -> keydown e s = s)
  /\ (ctrlKey e || metaKey e = true -> code e = "KeyZ" -> shiftKey e = false ->
      keydown e s = undo s)
  /\ (ctrlKey e || metaKey e = true -> code e = "KeyZ" -> shiftKey e = true ->
      keydown e s = redo s)
  /\ (ctrlKey e || metaKey e = true -> code e = "KeyY" -> keydown e s = redo s)
  /\ (code e <> "KeyZ" -> code e <> "KeyY" -> keydown e s = s).
Proof.
  unfold keydown. cbv zeta.
  destruct (ctrlKey e || metaKey e)%bool; cbn [negb].
  2:{ split; [left; reflexivity|]. repeat split; intros; try discriminate;
      reflexivity. }
  destruct (String.eqb_spec (code e) "KeyZ") as [EZ|NZ];
    destruct (String.eqb_spec (code e) "KeyY") as [EY|NY];
    destruct (shiftKey e); cbn [negb andb orb];
    try (rewrite EZ in EY; discriminate EY).
  - split; [right; right; reflexivity|].
    repeat split; intros; try discriminate; try congruence; reflexivity.
  - split; [right; left; reflexivity|].
    repeat split; intros; try discriminate; try congruence; reflexivity.
  - split; [right; right; reflexivity|].
    repeat split; intros; try discriminate; try congruence; reflexivity.
  - split; [right; right; reflexivity|].
    repeat split; intros; try discriminate; try congruence; reflexivity.
  - split; [left; reflexivity|].
    repeat split; intros; try discriminate; try congruence; reflexivity.
  - split; [left; reflexivity|].
    repeat split; intros; try discriminate; try congruence; reflexivity.
Qed.

Lemma hasDot_app (a b : string) : hasDot (a ++ "." ++ b) = true.
Proof.
  induction a as [|c a IH]; [reflexivity|].
  cbn [append hasDot]. cbn [append] in IH. rewrite IH. apply orb_true_r.
Qed.

Lemma append_nil_r (a : string) : a ++ "" = a.
Proof. induction a as [|c a IH]; [reflexivity|]. cbn [append]. rewrite IH. reflexivity. Qed.

(** X29 -- What the default prefix keeps of the background file name:
    [stripExtension] removes the last dot and what follows it, and nothing
    else.  A name without a dot and a name that ends in a dot are kept
    whole; [base.ext] with a dot-free, non-empty [ext] gives [base], so
    only the last of several extensions goes; and what is removed is
    always the end of the name.  With the prefix field empty, a background
    file [base.ext] makes [base] the prefix. *)
Theorem stripExtension_cases (base ext name : string) :
  (hasDot name = false -> stripExtension name = name)
  /\ stripExtension (base ++ ".") = base ++ "."
  /\ (hasDot ext = false -> ext <> "" ->
      stripExtension (base ++ "." ++ ext) = base
      /\ outputPrefix "" (Some (base ++ "." ++ ext)) = base)
  /\ (exists cut, name = stripExtension name ++ cut
                  /\ (cut = "" \/ exists e, cut = "." ++ e /\ hasDot e = false
                                          /\ e <> "")).
Proof.
  split; [|split; [|split]].
  - induction name as [|c n IH]; [reflexivity|].
    cbn [hasDot stripExtension]. intros H.
    apply orb_false_iff in H. destruct H as [Hc Hn].
    rewrite Hc. cbn [andb]. rewrite (IH Hn). reflexivity.
  - induction base as [|c b IH]; [reflexivity|].
    cbn [append stripExtension].
    replace (hasDot (b ++ ".")) with true
      by (symmetry; rewrite <- (append_nil_r "."); apply (hasDot_app b "")).
    rewrite andb_false_r. cbn [andb]. rewrite IH. reflexivity.
  - intros Hext Hne.
    assert (E : stripExtension (base ++ "." ++ ext) = base).
    { induction base as [|c b IH].
      - cbn [append stripExtension]. rewrite Hext.
        destruct (String.eqb_spec ext "") as [E|_]; [contradiction|]. reflexivity.
      - cbn [append stripExtension]. cbn [append] in IH.
        pose proof (hasDot_app b ext) as Hd. cbn [append] in Hd. rewrite Hd.
        rewrite andb_false_r. cbn [andb]. rewrite IH. reflexivity. }
    split; [exact E|]. unfold outputPrefix. cbn [String.eqb]. exact E.
  - induction name as [|c n IH].
    + exists "". split; [reflexivity | left; reflexivity].
    + cbn [stripExtension].
      destruct (Ascii.eqb_spec c "."%char) as [Ec|Nc]; cbn [andb].
      * destruct (hasDot n) eqn:Hd; cbn [negb andb].
        { destruct IH as (cut & E & Hcut). exists cut.
          split; [cbn [append]; rewrite <- E; reflexivity | exact Hcut]. }
        destruct (String.eqb_spec n "") as [En|Nn]; cbn [negb].
        { destruct IH as (cut & E & Hcut). exists cut.
          split; [cbn [append]; rewrite <- E; reflexivity | exact Hcut]. }
        exists (String c n). split; [reflexivity|]. right.
        exists n. subst c. split; [reflexivity|]. split; [exact Hd | exact Nn].
      * destruct IH as (cut & E & Hcut). exists cut.
        split; [cbn [append]; rewrite <- E; reflexivity | exact Hcut].
Qed.

Lemma stripExtension_cases_witness :
  stripExtension ("photo.tar" ++ "." ++ "gz") = "photo.tar"
  /\ outputPrefix "" (Some ("photo.tar" ++ "." ++ "gz")) = "photo.tar".
Proof.
  destruct (stripExtension_cases "photo.tar" "gz" "") as (_ & _ & H & _).
  apply H; [reflexivity | discriminate].
Defined.

Lemma append_cancel_l (p a b : string) : p ++ a = p ++ b -> a = b.
Proof.
  induction p as [|c p IH]; cbn [append]; intros H; [exact H|].
  injection H as H. apply IH, H.
Qed.

Lemma append_length (a b : string) :
  String.length (a ++ b) = (String.length a + String.length b)%nat.
Proof.
  induction a as [|c a IH]; [reflexivity|].
  cbn [append String.length]. rewrite IH. reflexivity.
Qed.

Lemma append_cancel_r (a b t : string) : a ++ t = b ++ t -> a = b.
Proof.
  intros H.
  assert (Hl : String.length a = String.length b).
  { apply (f_equal String.length) in H. rewrite !append_length in H. lia. }
  revert b H Hl. induction a as [|c a IH]; intros [|d b] H Hl;
    cbn [String.length] in Hl; try discriminate Hl; [reflexivity|].
  cbn [append] in H. injection H as Hc H. subst d.
  f_equal. apply IH; [exact H | lia].
Qed.

Lemma decimal_inj (n m : nat) : decimal n = decimal m -> n = m.
Proof.
  unfold decimal. intros H.
  apply (f_equal DecimalString.NilEmpty.uint_of_string) in H.
  rewrite !DecimalString.NilEmpty.usu in H. injection H as H.
  apply (f_equal Nat.of_uint) in H.
  rewrite !DecimalNat.Unsigned.of_to in H. exact H.
Qed.

Lemma baseName_inj (prefix : string) (n m : nat) :
  baseName prefix n = baseName prefix m -> n = m.
Proof.
  unfold baseName.
  destruct (Nat.eqb_spec n 0) as [En|Nn]; destruct (Nat.eqb_spec m 0) as [Em|Nm];
    intros H.
  - congruence.
  - exfalso. apply (f_equal String.length) in H.
    rewrite !append_length in H. cbn [String.length] in H. lia.
  - exfalso. apply (f_equal String.length) in H.
    rewrite !append_length in H. cbn [String.length] in H. lia.
  - apply append_cancel_l in H. apply append_cancel_l in H.
    apply decimal_inj, H.
Qed.

(** X30 -- File names of the downloads.  A save without a background or an
    overlay downloads nothing and leaves the counter; every other save
    advances it by one.  With one prefix, two saves at different counter
    values never share a file name, and the composite and the object of a
    save never do.  Across prefixes names can collide: the first save
    under the prefix [p_n] has the names of save [n] under [p]. *)
Theorem download_names_unique (s s' : State) (value : string)
  (bgFile : option string) (n m : nat) :
  ((bgImg s = None \/ overlayImg s = None) ->
   saveClick s value bgFile n = (None, n))
  /\ (forall names, fst (saveClick s value bgFile n) = Some names ->
        snd (saveClick s value bgFile n) = S n
        /\ fst names <> snd names
        /\ forall names', fst (saveClick s' value bgFile m) = Some names' ->
             n <> m ->
             fst names <> fst names' /\ snd names <> snd names'
             /\ fst names <> snd names')
  /\ (n <> 0%nat -> baseName (value ++ "_" ++ decimal n) 0 = baseName value n).
Proof.
  split; [|split].
  - unfold saveClick. intros [E|E]; rewrite E; [reflexivity|].
    destruct (bgImg s); reflexivity.
  - intros names. unfold saveClick.
    destruct (bgImg s); [|discriminate].
    destruct (overlayImg s); [|discriminate].
    destruct (overlayOriginalImg s); [|discriminate].
    cbn [fst snd]. intros H. injection H as <-.
    split; [reflexivity|].
    unfold downloadNames. cbv zeta. cbn [fst snd].
    split; [discriminate|].
    intros names'.
    destruct (bgImg s'); [|discriminate].
    destruct (overlayImg s'); [|discriminate].
    destruct (overlayOriginalImg s'); [|discriminate].
    cbn [fst snd]. intros H. injection H as <-. intros Hnm.
    cbn [fst snd].
    split; [|split; [|discriminate]]; intros H; apply Hnm.
    + apply (append_cancel_l "Canvas_") in H. apply append_cancel_r in H.
      apply (baseName_inj _ _ _ H).
    + apply (append_cancel_l "objects_") in H. apply append_cancel_r in H.
      apply (baseName_inj _ _ _ H).
  - intros Hn. unfold baseName. cbn [Nat.eqb].
    destruct (Nat.eqb_spec n 0) as [E|_]; [contradiction | reflexivity].
Qed.

Lemma download_names_unique_witness :
  saveClick initialState "shot" None 0 = (None, 0%nat)
  /\ baseName ("shot" ++ "_" ++ decimal 1) 0 = baseName "shot" 1.
Proof.
  destruct (download_names_unique initialState initialState "shot" None 1 0)
    as (_ & _ & H3).
  destruct (download_names_unique initialState initialState "shot" None 0 0)
    as (H1 & _ & _).
  split; [apply H1; left; reflexivity | apply H3; discriminate].
Defined.

End KeysFacts.
